(** * ADLv1 storage backend of goofys: shallow embedding and properties

    Source: [internal/backend_adlv1.go].

    Conventions of the embedding.
    - Go strings are byte sequences; they are modelled by [string]
      (a list of 8-bit [ascii] characters).
    - [uint64], [int64] and [uint32] values are modelled by [Z] with
      the wrap-around of every operation written out.
    - A Go [error] is an [option error]: [None] is the nil error.
    - The remote Data Lake service, the UUID library, the JSON decoder
      and the HTTP status table [mapHttpError] are not part of the
      translated file; they are the fields of an environment record
      [Env].  Every request sent through the SDK client is appended to
      a log, and the reply of the service may depend on the whole
      history of requests so far. *)

From Stdlib Require Import ZArith List String Ascii Bool Lia.
From Stdlib Require Import Permutation Sorted.
Import ListNotations.

Local Open Scope string_scope.
Local Open Scope Z_scope.
Local Open Scope list_scope.

(** ** The Go [strings] package, as far as the backend uses it *)

Module strings.

(** [cutset] membership, byte by byte.  Go works on code points; for
    the ASCII cut sets of the backend both views agree. *)
Definition in_cutset (cutset : string) (c : ascii) : bool :=
  existsb (Ascii.eqb c) (list_ascii_of_string cutset).

Fixpoint TrimLeft (s cutset : string) : string :=
  match s with
  | EmptyString => EmptyString
  | String c r => if in_cutset cutset c then TrimLeft r cutset else s
  end.

Fixpoint TrimRight (s cutset : string) : string :=
  match s with
  | EmptyString => EmptyString
  | String c r =>
      match TrimRight r cutset with
      | EmptyString =>
          if in_cutset cutset c then EmptyString else String c EmptyString
      | r' => String c r'
      end
  end.

Fixpoint HasPrefix (s pre : string) {struct pre} : bool :=
  match pre with
  | EmptyString => true
  | String c p =>
      match s with
      | EmptyString => false
      | String d r => Ascii.eqb d c && HasPrefix r p
      end
  end.

Fixpoint HasSuffix (s suffix : string) : bool :=
  String.eqb s suffix
  || match s with
     | EmptyString => false
     | String _ r => HasSuffix r suffix
     end.

(** [Split s sep]: [skip] counts the bytes of a separator occurrence
    still to be dropped, [cur] is the current piece, reversed. *)
Fixpoint split_go (s sep : string) (skip : nat) (cur : list ascii)
  : list string :=
  match s with
  | EmptyString => [string_of_list_ascii (rev cur)]
  | String c r =>
      match skip with
      | S k => split_go r sep k cur
      | O =>
          if HasPrefix s sep
          then string_of_list_ascii (rev cur)
                 :: split_go r sep (Nat.pred (String.length sep)) []
          else split_go r sep O (c :: cur)
      end
  end.

Definition Split (s sep : string) : list string :=
  match sep with
  | EmptyString =>
      map (fun c => String c EmptyString) (list_ascii_of_string s)
  | _ => split_go s sep O []
  end.

Definition Compare (a b : string) : Z :=
  match String.compare a b with
  | Lt => -1
  | Eq => 0
  | Gt => 1
  end.

(** [Index s substr]: the position of the first occurrence, [-1] when
    there is none. *)
Fixpoint Index (s substr : string) : Z :=
  if HasPrefix s substr then 0
  else
    match s with
    | EmptyString => -1
    | String _ r =>
        let i := Index r substr in
        if i <? 0 then -1 else i + 1
    end.

(** The slices [s[:n]] and [s[n:]], for [n] within the string. *)
Fixpoint take (n : nat) (s : string) : string :=
  match n, s with
  | S k, String c r => String c (take k r)
  | _, _ => EmptyString
  end.

Fixpoint drop (n : nat) (s : string) : string :=
  match n, s with
  | S k, String _ r => drop k r
  | _, _ => s
  end.

(** [explode s n] for [n > 0]: the first [n - 1] bytes one by one,
    then the rest; nothing for the empty string. *)
Fixpoint explode (s : string) (n : nat) : list string :=
  match s with
  | EmptyString => []
  | String c r =>
      match n with
      | O | S O => [s]
      | S k => match r with
               | EmptyString => [s]
               | _ => String c EmptyString :: explode r k
               end
      end
  end.

(** The loop of [genSplit]: at most [n] cuts. *)
Fixpoint genSplit (s sep : string) (n : nat) : list string :=
  match n with
  | O => [s]
  | S k =>
      let m := Index s sep in
      if m <? 0 then [s]
      else take (Z.to_nat m) s
             :: genSplit (drop (Z.to_nat m + String.length sep) s) sep k
  end.

Definition SplitN (s sep : string) (n : Z) : list string :=
  if n =? 0 then []
  else if n <? 0 then Split s sep
  else
    match sep with
    | EmptyString => explode s (Z.to_nat n)
    | _ =>
        let n := if n >? Z.of_nat (String.length s) + 1
                 then Z.of_nat (String.length s) + 1 else n in
        genSplit s sep (Z.to_nat (n - 1))
    end.

End strings.

(** ** Fixed-width integers *)

Definition uint32 (z : Z) : Z := z mod 2 ^ 32.
Definition uint64 (z : Z) : Z := z mod 2 ^ 64.
(** Conversions to signed types: the two's complement reading of the
    low bits. *)
Definition int32 (z : Z) : Z := (z + 2 ^ 31) mod 2 ^ 32 - 2 ^ 31.
Definition int64 (z : Z) : Z := (z + 2 ^ 63) mod 2 ^ 64 - 2 ^ 63.

(** ** Errors *)

Record http_Response := mkResponse {
  StatusCode : Z;
  Status : string;
  Body : string
}.

Record RemoteExceptionT := mkRemoteException {
  Exception : string;
  Message : string;
  JavaClassName : string
}.

(** The dynamic type of a Go [error] value met in this file:
    a [syscall.Errno], the structured [ADLv1Err], or any other error
    (transport failures, UUID parse failures). *)
Inductive error :=
| Errno (code : Z)
| ADLv1Err (RemoteException : RemoteExceptionT) (resp : http_Response)
| OtherError (msg : string).

(** The [syscall.Errno] values the backend names ([fuse.ENOENT] and
    the like are these), with their Linux numbers. *)
Definition ENOENT : error := Errno 2.
Definition EAGAIN : error := Errno 11.
Definition EEXIST : error := Errno 17.
Definition EINVAL : error := Errno 22.
Definition ENOTSUP : error := Errno 95.

(** [err == fuse.ENOENT] *)
Definition is_ENOENT (err : option error) : bool :=
  match err with
  | Some (Errno c) => c =? 2
  | _ => false
  end.

(** ** The backend and its environment *)

Definition UUID := string.

Inductive SyncFlag := DATA | METADATA | CLOSE.

(** Requests sent through the SDK client, with the arguments the
    backend chooses (the context and the account name are left out). *)
Inductive Request :=
| ListFileStatusReq (path : string) (listSize : option Z)
    (listAfter listBefore : string)
| DeleteReq (path : string) (recursive : option bool)
| CreateReq (path : string) (streamContents : string)
    (overwrite : option bool) (syncFlag : SyncFlag)
    (leaseID : option UUID) (permission : option Z)
| AppendReq (path : string) (streamContents : string)
    (offset : option Z) (syncFlag : SyncFlag)
    (leaseID fileSessionID : option UUID).

(** An entry of a directory listing.  The SDK hands the fields out
    as pointers; the backend dereferences them without a check, and
    they are taken to be set. *)
Record FileStatusProperties := mkFileStatus {
  PathSuffix : string;
  Type_ : string;
  Length : Z;
  ModificationTime : Z
}.

(** [adl.FileStatusesResult]: the HTTP response (nil when none was
    received) and the decoded list ([None] is a nil pointer). *)
Record FileStatusesResult := mkFileStatuses {
  fs_Response : option http_Response;
  FileStatus : option (list FileStatusProperties)
}.

Record FileOperationResult := mkOperationResult {
  op_Response : option http_Response;
  OperationResult : option bool
}.

Record Env := mkEnv {
  (* the remote service: history of requests, arguments, reply *)
  adl_ListFileStatus :
    list Request -> string -> FileStatusesResult * option error;
  adl_Delete :
    list Request -> string -> FileOperationResult * option error;
  adl_Create :
    list Request -> Request -> option http_Response * option error;
  adl_Append :
    list Request -> Request -> option http_Response * option error;
  (* satori/go.uuid *)
  uuid_NewV4 : list Request -> UUID + error;
  uuid_FromString : string -> UUID + error;
  uuid_String : UUID -> string;
  (* encoding/json on the body of a failed response *)
  json_Decode : string -> option RemoteExceptionT;
  (* the status table of the package, defined outside this file *)
  mapHttpError : Z -> option error
}.

Record ADLv1 := mkADLv1 {
  account : string;
  bucket : string;
  FileMode : Z
}.

(** ** Inputs and outputs of the capability contract

    The types are declared in [api/common]; only the fields this
    backend reads or writes are kept.  Pointers that the backend
    always sets are modelled by their targets. *)

Record Time := mkTime { sec : Z; nsec : Z }.

(** [time.Unix]: nanoseconds outside [0, 1e9) are carried into the
    seconds. Go's [/] and [%] truncate towards zero. *)
Definition time_Unix (s n : Z) : Time :=
  if (n <? 0) || (n >=? 1000000000) then
    let q := Z.quot n 1000000000 in
    let s1 := s + q in
    let n1 := n - q * 1000000000 in
    if n1 <? 0 then mkTime (s1 - 1) (n1 + 1000000000) else mkTime s1 n1
  else mkTime s n.

Record BlobItemOutput := mkItem {
  item_Key : string;
  item_LastModified : option Time;
  item_Size : Z
}.

Record BlobPrefixOutput := mkPrefix { Prefix : string }.

Record ListBlobsInput := mkListBlobsInput {
  in_Prefix : option string;
  in_Delimiter : option string;
  in_MaxKeys : option Z;
  in_ContinuationToken : option string;
  in_StartAfter : option string
}.

Record ListBlobsOutput := mkListBlobsOutput {
  Prefixes : list BlobPrefixOutput;
  Items : list BlobItemOutput;
  IsTruncated : bool
}.

(** Modelled from the spec: [nilStr] is defined in another file of the
    package; an absent prefix or marker reads as the empty string. *)
Definition nilStr (v : option string) : string :=
  match v with
  | None => ""
  | Some s => s
  end.

(** ** Multipart commit handle *)

Record ADLv1MultipartBlobCommitInput := mkCommitData { Size : Z }.

(** The dynamic type behind the [backendData] interface value. *)
Inductive BackendData :=
| ADLv1Data (d : ADLv1MultipartBlobCommitInput)
| ForeignData.

Record MultipartBlobCommitInput := mkCommit {
  mc_Key : string;
  mc_UploadId : string;
  backendData : BackendData
}.

Record MultipartBlobAddInput := mkAdd {
  Commit : MultipartBlobCommitInput;
  PartNumber : Z;
  add_Body : string;
  add_Size : Z
}.

(** ** Computations: request log, panics, and recursion fuel *)

Inductive outcome (A : Type) :=
| Done (a : A)
| Panicked (msg : string)
| OutOfFuel.
Arguments Done {A} a.
Arguments Panicked {A} msg.
Arguments OutOfFuel {A}.

Definition M (A : Type) : Type := list Request -> outcome A * list Request.

Definition ret {A} (a : A) : M A := fun log => (Done a, log).

Definition bind {A B} (m : M A) (k : A -> M B) : M B :=
  fun log =>
    match m log with
    | (Done a, log') => k a log'
    | (Panicked msg, log') => (Panicked msg, log')
    | (OutOfFuel, log') => (OutOfFuel, log')
    end.

Definition panic {A} (msg : string) : M A := fun log => (Panicked msg, log).

Definition out_of_fuel {A} : M A := fun log => (OutOfFuel, log).

(** Dereferencing a pointer the SDK may have left nil. *)
Definition deref {A} (p : option A) : M A :=
  match p with
  | Some a => ret a
  | None => panic "nil pointer dereference"
  end.

Declare Scope go_scope.
Delimit Scope go_scope with go.
Notation "x <- m ;; k" := (bind m (fun x => k))
  (at level 100, m at next level, right associativity) : go_scope.
Notation "' pat <- m ;; k" := (bind m (fun x => match x with pat => k end))
  (at level 100, pat pattern, m at next level, right associativity)
  : go_scope.
Local Open Scope go_scope.

(** Go functions returning a pointer to a value together with an error. *)
Inductive result (A : Type) :=
| Ok (a : A)
| Err (e : error).
Arguments Ok {A} a.
Arguments Err {A} e.

(** ** Sorting, as [sort.Slice] with a strict total order

    [sort.Slice] belongs to the Go standard library.  It is modelled
    by insertion sort; the order used by [DeleteBlobs] is a strict
    total order on keys, so every sorting algorithm returns the same
    slice (see [sorted_perm_unique] below). *)

Module sort.

Fixpoint insert {A} (less : A -> A -> bool) (x : A) (l : list A) : list A :=
  match l with
  | [] => [x]
  | y :: l' => if less y x then y :: insert less x l' else x :: l
  end.

Fixpoint Slice {A} (l : list A) (less : A -> A -> bool) : list A :=
  match l with
  | [] => []
  | x :: l' => insert less x (Slice l' less)
  end.

End sort.

(** ** The backend operations *)

Section Backend.

Variable E : Env.
Variable b : ADLv1.

(** *** SDK client calls: the request is logged, the reply comes from
    the environment and may depend on the history. *)

Definition client_ListFileStatus (p : string) (listSize : option Z)
  (listAfter listBefore : string) : M (FileStatusesResult * option error) :=
  fun log =>
    (Done (adl_ListFileStatus E log p),
     log ++ [ListFileStatusReq p listSize listAfter listBefore]).

Definition client_Delete (p : string) (recursive : option bool)
  : M (FileOperationResult * option error) :=
  fun log => (Done (adl_Delete E log p), log ++ [DeleteReq p recursive]).

Definition client_Create (req : Request)
  : M (option http_Response * option error) :=
  fun log => (Done (adl_Create E log req), log ++ [req]).

Definition client_Append (req : Request)
  : M (option http_Response * option error) :=
  fun log => (Done (adl_Append E log req), log ++ [req]).

(** *** Error classifier *)

Definition mapADLv1Error (resp : option http_Response) (err : option error)
  (rawError : bool) : option error :=
  match resp with
  | None =>
      match err with
      | Some _ => Some EAGAIN
      | None => err
      end
  | Some r =>
      if (StatusCode r <? 200) || (StatusCode r >=? 300) then
        if rawError then
          match json_Decode E (Body r) with
          | Some exn => Some (ADLv1Err exn r)
          | None => Some EAGAIN
          end
        else
          match mapHttpError E (StatusCode r) with
          | Some e => Some e
          | None => Some EINVAL
          end
      else None
  end.

(** *** Path mapper *)

Definition path (key : string) : string :=
  let key := strings.TrimLeft key "/" in
  if negb (bucket b =? "")%string then
    if negb (key =? "")%string then (bucket b ++ "/" ++ key)%string
    else bucket b
  else key.

(** *** Listing *)

Definition adlv1LastModified (t : Z) : Time :=
  time_Unix (Z.quot t 1000) (Z.rem t 1000000).

Definition adlv1FileStatus2BlobItem (f : FileStatusProperties) (key : string)
  : BlobItemOutput :=
  mkItem key (Some (adlv1LastModified (ModificationTime f)))
    (uint64 (Length f)).

(** What a call of [appendToListResults] returns, together with the
    value it leaves in the cell [maxKeys] points to ([None]: nil). *)
Record ListRet := mkListRet {
  lr_res : FileStatusesResult;
  lr_prefixes : list BlobPrefixOutput;
  lr_items : list BlobItemOutput;
  lr_err : option error;
  lr_maxKeys : option Z
}.

(** The variables the [for] loop of [appendToListResults] updates. *)
Record LoopVars := mkLoopVars {
  lv_prefixes : list BlobPrefixOutput;
  lv_items : list BlobItemOutput;
  lv_err : option error;
  lv_maxKeys : option Z
}.

(** [len(l) == 1 && l[0].PathSuffix == ""] *)
Definition single_empty_suffix (l : list FileStatusProperties) : bool :=
  match l with
  | [f] => (PathSuffix f =? "")%string
  | _ => false
  end.

(** The loop over the entries; [self] is the recursive call. *)
Fixpoint list_loop
  (self : string -> bool -> string -> option Z -> list BlobPrefixOutput ->
          list BlobItemOutput -> M ListRet)
  (path_ : string) (recursive : bool)
  (entries : list FileStatusProperties) (v : LoopVars) : M LoopVars :=
  match entries with
  | [] => ret v
  | i :: rest =>
      let key := PathSuffix i in
      let key :=
        if negb (path_ =? "")%string then (path_ ++ "/" ++ key)%string
        else key in
      if (Type_ i =? "DIRECTORY")%string then
        if recursive then
          let items :=
            lv_items v ++ [adlv1FileStatus2BlobItem i (key ++ "/")%string] in
          r <- self key recursive "" (lv_maxKeys v) (lv_prefixes v) items ;;
          list_loop self path_ recursive rest
            (mkLoopVars (lr_prefixes r) (lr_items r) (lr_err r)
               (lr_maxKeys r))
        else
          list_loop self path_ recursive rest
            (mkLoopVars (lv_prefixes v ++ [mkPrefix (key ++ "/")%string])
               (lv_items v) (lv_err v) (lv_maxKeys v))
      else
        list_loop self path_ recursive rest
          (mkLoopVars (lv_prefixes v)
             (lv_items v ++ [adlv1FileStatus2BlobItem i key])
             (lv_err v) (lv_maxKeys v))
  end.

Definition emptyFileStatusesResult : FileStatusesResult :=
  mkFileStatuses None None.

(** [fuel] bounds the depth of the recursion, which in the source is
    bounded only by the depth of the remote tree. *)
Fixpoint appendToListResults (fuel : nat) (path_ : string) (recursive : bool)
  (startAfter : string) (maxKeys : option Z)
  (prefixes : list BlobPrefixOutput) (items : list BlobItemOutput)
  {struct fuel} : M ListRet :=
  match fuel with
  | O => out_of_fuel
  | S fuel' =>
      '(res, err) <- client_ListFileStatus (path path_) None "" "" ;;
      match mapADLv1Error (fs_Response res) err false with
      | Some e => ret (mkListRet emptyFileStatusesResult [] [] (Some e) maxKeys)
      | None =>
          entries <- deref (FileStatus res) ;;
          if negb (path_ =? "")%string && single_empty_suffix entries then
            (* path is actually a file *)
            let items :=
              if negb (strings.HasSuffix path_ "/") then
                items ++ [adlv1FileStatus2BlobItem
                            (hd (mkFileStatus "" "" 0 0) entries) path_]
              else items in
            ret (mkListRet res prefixes items None maxKeys)
          else
            let '(prefixes, items) :=
              if negb (path_ =? "")%string && negb recursive then
                if strings.HasSuffix path_ "/" then
                  (* we listed for the dir object itself *)
                  (prefixes, items ++ [mkItem path_ None 0])
                else (prefixes ++ [mkPrefix (path_ ++ "/")%string], items)
              else (prefixes, items) in
            let path_ := strings.TrimRight path_ "/" in
            let maxKeys :=
              match maxKeys with
              | Some m =>
                  Some (uint32 (m - uint32 (Z.of_nat (List.length entries))))
              | None => None
              end in
            v <- list_loop (appendToListResults fuel') path_ recursive entries
                   (mkLoopVars prefixes items None maxKeys) ;;
            ret (mkListRet res (lv_prefixes v) (lv_items v) None
                   (lv_maxKeys v))
      end
  end.

(** [ListBlobs] returns its output or an error, and the value left in
    the cell [param.MaxKeys] points to. *)
Definition ListBlobs (fuel : nat) (param : ListBlobsInput)
  : M (result ListBlobsOutput * option Z) :=
  let unsupported : M (result ListBlobsOutput * option Z) :=
    ret (Err ENOTSUP, in_MaxKeys param) in
  let go (recursive : bool) :=
    let continuationToken := in_ContinuationToken param in
    let continuationToken :=
      match in_StartAfter param with
      | Some _ => in_StartAfter param
      | None => continuationToken
      end in
    r <- appendToListResults fuel (nilStr (in_Prefix param)) recursive
           (nilStr continuationToken) (in_MaxKeys param) [] [] ;;
    if is_ENOENT (lr_err r) then
      ret (Ok (mkListBlobsOutput (lr_prefixes r) (lr_items r) false),
           lr_maxKeys r)
    else
      match lr_err r with
      | Some e => ret (Err e, lr_maxKeys r)
      | None =>
          ret (Ok (mkListBlobsOutput (lr_prefixes r) (lr_items r) false),
               lr_maxKeys r)
      end in
  match in_Delimiter param with
  | None =>
      match in_ContinuationToken param, in_StartAfter param with
      | None, None => go true
      | _, _ => unsupported
      end
  | Some d => if negb (d =? "/")%string then unsupported else go false
  end.

(** *** Deletion *)

Definition DeleteBlob (key : string) : M (result unit) :=
  '(res, err) <- client_Delete (path (strings.TrimRight key "/"))
                   (Some false) ;;
  match mapADLv1Error (op_Response res) err false with
  | Some e => ret (Err e)
  | None =>
      ok <- deref (OperationResult res) ;;
      if negb ok then ret (Err ENOENT) else ret (Ok tt)
  end.

Definition depth (key : string) : Z :=
  Z.of_nat (List.length (strings.Split (strings.TrimRight key "/") "/")).

(** The comparison closure handed to [sort.Slice]. *)
Definition less (x y : string) : bool :=
  let depth1 := depth x in
  let depth2 := depth y in
  if negb (depth1 =? depth2) then depth2 <? depth1
  else strings.Compare x y <? 0.

Fixpoint delete_each (items : list string) : M (result unit) :=
  match items with
  | [] => ret (Ok tt)
  | i :: rest =>
      r <- DeleteBlob i ;;
      match r with
      | Err e => ret (Err e)
      | Ok _ => delete_each rest
      end
  end.

Definition DeleteBlobs (items : list string) : M (result unit) :=
  let items := sort.Slice items less in
  delete_each items.

(** *** Multipart upload over a lease *)

Definition MultipartBlobBegin (key : string)
  : M (result MultipartBlobCommitInput) :=
  fun log =>
    match uuid_NewV4 E log with
    | inr e => (Done (Err e), log)
    | inl leaseId =>
        ('(res, err) <- client_Create
                          (CreateReq (path key) "" (Some true) DATA
                             (Some leaseId) (Some (int32 (FileMode b)))) ;;
         match mapADLv1Error res err false with
         | Some e => ret (Err e)
         | None =>
             ret (Ok (mkCommit (path key) (uuid_String E leaseId)
                        (ADLv1Data (mkCommitData 0))))
         end) log
    end.

Definition detectTransientError (param : MultipartBlobAddInput) (offset : Z)
  : M (option error) :=
  match uuid_FromString E (mc_UploadId (Commit param)) with
  | inr e => ret (Some e)
  | inl leaseId =>
      '(res, err) <- client_Append
                       (AppendReq (mc_Key (Commit param)) ""
                          (Some (int64 offset)) CLOSE
                          (Some leaseId) (Some leaseId)) ;;
      ret (mapADLv1Error res err false)
  end.

Definition uploadPart (param : MultipartBlobAddInput) (offset : Z)
  : M (option error) :=
  match uuid_FromString E (mc_UploadId (Commit param)) with
  | inr e => ret (Some e)
  | inl leaseId =>
      '(res, err) <- client_Append
                       (AppendReq (mc_Key (Commit param)) (add_Body param)
                          (Some (int64 (uint64 (offset - add_Size param))))
                          DATA (Some leaseId) (Some leaseId)) ;;
      let err := mapADLv1Error res err true in
      match err with
      | Some (ADLv1Err exn resp) =>
          if StatusCode resp =? 404 then ret (Some EINVAL)
          else
            recovered <-
              (if (StatusCode resp =? 400)
                  && (Exception exn =? "BadOffsetException")%string
               then
                 appendErr <- detectTransientError param offset ;;
                 match appendErr with
                 | None => ret true
                 | Some _ => ret false
                 end
               else ret false) ;;
            if recovered : bool then ret None
            else ret (mapADLv1Error (Some resp) err false)
      | _ => ret err
      end
  end.

(** [MultipartBlobAdd] updates the commit data in place; the handle
    after the call is returned next to the result. *)
Definition MultipartBlobAdd (param : MultipartBlobAddInput)
  : M (result unit * MultipartBlobCommitInput) :=
  match backendData (Commit param) with
  | ForeignData => panic "Incorrect commit data type"
  | ADLv1Data commitData =>
      let commitData :=
        mkCommitData (uint64 (Size commitData + add_Size param)) in
      let commit :=
        mkCommit (mc_Key (Commit param)) (mc_UploadId (Commit param))
          (ADLv1Data commitData) in
      let param :=
        mkAdd commit (PartNumber param) (add_Body param) (add_Size param) in
      err <- uploadPart param (Size commitData) ;;
      match err with
      | Some e => ret (Err e, commit)
      | None => ret (Ok tt, commit)
      end
  end.

Definition MultipartBlobAbort (param : MultipartBlobCommitInput)
  : M (result unit) :=
  match uuid_FromString E (mc_UploadId param) with
  | inr e => ret (Err e)
  | inl leaseId =>
      '(res, err) <- client_Append
                       (AppendReq (mc_Key param) "" None CLOSE
                          (Some leaseId) (Some leaseId)) ;;
      match mapADLv1Error res err false with
      | Some e => ret (Err e)
      | None => ret (Ok tt)
      end
  end.

Definition MultipartBlobCommit (param : MultipartBlobCommitInput)
  : M (result unit) :=
  match backendData param with
  | ForeignData => panic "Incorrect commit data type"
  | ADLv1Data commitData =>
      match uuid_FromString E (mc_UploadId param) with
      | inr e => ret (Err e)
      | inl leaseId =>
          '(res, err) <- client_Append
                           (AppendReq (mc_Key param) ""
                              (Some (int64 (Size commitData))) CLOSE
                              (Some leaseId) (Some leaseId)) ;;
          let err := mapADLv1Error res err false in
          let err := if is_ENOENT err then None else err in
          match err with
          | Some e => ret (Err e)
          | None => ret (Ok tt)
          end
      end
  end.

(** A whole upload session on one handle: [Begin], one [Add] per part
    (whatever the earlier ones returned), then [Commit].  The session
    records the handle after each [Add] and the requests each call
    sent. *)
Record AddStep := mkAddStep {
  step_result : result unit;
  step_handle : MultipartBlobCommitInput;
  step_requests : list Request
}.

(** Runs [m] and also returns the requests it sent (the log grows at
    its end only). *)
Definition sent {A} (m : M A) : M (A * list Request) :=
  fun log =>
    match m log with
    | (Done a, log') => (Done (a, skipn (List.length log) log'), log')
    | (Panicked msg, log') => (Panicked msg, log')
    | (OutOfFuel, log') => (OutOfFuel, log')
    end.

Fixpoint add_parts (h : MultipartBlobCommitInput)
  (parts : list (string * Z)) : M (list AddStep) :=
  match parts with
  | [] => ret []
  | (body, size) :: rest =>
      '((r, h'), reqs) <- sent (MultipartBlobAdd (mkAdd h 0 body size)) ;;
      steps <- add_parts h' rest ;;
      ret (mkAddStep r h' reqs :: steps)
  end.

Definition handle_after (h : MultipartBlobCommitInput) (steps : list AddStep)
  : MultipartBlobCommitInput :=
  last (map step_handle steps) h.

End Backend.

(** ** Vocabulary of the properties *)

(** [n] delimiters. *)
Fixpoint slashes (n : nat) : string :=
  match n with
  | O => ""
  | S k => String "/" (slashes k)
  end.

(** Descending depth, then ascending byte-wise order of the keys. *)
Definition key_le (x y : string) : Prop :=
  depth y < depth x
  \/ (depth x = depth y /\ strings.Compare x y <= 0).

(** The request [DeleteBlob] sends for a key. *)
Definition delete_request (b : ADLv1) (key : string) : Request :=
  DeleteReq (path b (strings.TrimRight key "/")) (Some false).

(** Starting from [log], the deletes of [keys], issued one after the
    other, all succeed. *)
Definition all_deleted (E : Env) (b : ADLv1) (log : list Request)
  (keys : list string) : Prop :=
  forall before k after,
    keys = before ++ k :: after ->
    fst (DeleteBlob E b k (log ++ map (delete_request b) before))
    = Done (Ok tt).

(** The cumulative size stored in a commit handle. *)
Definition cumulative (h : MultipartBlobCommitInput) : Z :=
  match backendData h with
  | ADLv1Data d => Size d
  | ForeignData => 0
  end.

(** [s1 + ... + sk] for the first [k] declared sizes. *)
Definition partial_sum (k : nat) (sizes : list Z) : Z :=
  fold_right Z.add 0 (firstn k sizes).

(** The append that carries the data of a part. *)
Definition data_append (h : MultipartBlobCommitInput) (lease : UUID)
  (body : string) (offset : Z) : Request :=
  AppendReq (mc_Key h) body (Some offset) DATA (Some lease) (Some lease).

(** A zero-length append with the close flag. *)
Definition close_append (h : MultipartBlobCommitInput) (lease : UUID)
  (offset : Z) : Request :=
  AppendReq (mc_Key h) "" (Some offset) CLOSE (Some lease) (Some lease).

(** The handle after an [Add] of declared size [s]. *)
Definition advance (h : MultipartBlobCommitInput) (s : Z)
  : MultipartBlobCommitInput :=
  mkCommit (mc_Key h) (mc_UploadId h)
    (ADLv1Data (mkCommitData (uint64 (cumulative h + s)))).

(** The rows [appendToListResults] adds for the listed path itself. *)
Definition own_rows (p : string) (recursive : bool)
  (prefixes : list BlobPrefixOutput) (items : list BlobItemOutput)
  : list BlobPrefixOutput * list BlobItemOutput :=
  if negb (p =? "")%string && negb recursive then
    if strings.HasSuffix p "/" then (prefixes, items ++ [mkItem p None 0])
    else (prefixes ++ [mkPrefix (p ++ "/")%string], items)
  else (prefixes, items).

(** The budget after a directory call that fetched [n] entries. *)
Definition spend (maxKeys : option Z) (n : nat) : option Z :=
  match maxKeys with
  | Some m => Some (uint32 (m - uint32 (Z.of_nat n)))
  | None => None
  end.

(** The key of an entry of the directory [dir] (already trimmed). *)
Definition join_key (dir name : string) : string :=
  if negb (dir =? "")%string then (dir ++ "/" ++ name)%string else name.

(** The request of every directory listing. *)
Definition list_request (b : ADLv1) (p : string) : Request :=
  ListFileStatusReq (path b p) None "" "".

(** Number of prefix rows, and of item rows, with a given key. *)
Definition count_prefix (k : string) (l : list BlobPrefixOutput) : nat :=
  List.length (filter (fun p => (Prefix p =? k)%string) l).

Definition count_item (k : string) (l : list BlobItemOutput) : nat :=
  List.length (filter (fun i => (item_Key i =? k)%string) l).

(** The budget [maxKeys] after [k] entries were charged to it. *)
Definition shift (k : Z) (maxKeys : option Z) : option Z :=
  match maxKeys with
  | Some m => Some (uint32 (m - k))
  | None => None
  end.

(** A budget is nil or a [uint32] value. *)
Definition budget_ok (maxKeys : option Z) : Prop :=
  match maxKeys with
  | Some m => 0 <= m < 2 ^ 32
  | None => True
  end.




(** The entries of a directory whose listing succeeds. *)
Definition listed (E : Env) (b : ADLv1) (log : list Request) (key : string)
  : option (list FileStatusProperties) :=
  let reply := adl_ListFileStatus E log (path b key) in
  match mapADLv1Error E (fs_Response (fst reply)) (snd reply) false with
  | Some _ => None
  | None => FileStatus (fst reply)
  end.

(** A traversal in which every directory listing succeeds.
    [walk n log key rows fetched log']: the recursive listing of [key],
    started with the log [log] and nested at most [n] deep, ends with
    the log [log'], yields the item rows [rows], and its directory
    calls fetched [fetched] entries in all.  A leaf entry yields its
    row; a directory entry yields its own row, whose key ends in the
    delimiter, followed by the rows of the directory. *)
Inductive walk (E : Env) (b : ADLv1)
  : nat -> list Request -> string -> list BlobItemOutput -> Z ->
    list Request -> Prop :=
| walk_file n log key es :
    listed E b log key = Some es ->
    negb (key =? "")%string && single_empty_suffix es = true ->
    walk E b (S n) log key
      (if negb (strings.HasSuffix key "/")
       then [adlv1FileStatus2BlobItem (hd (mkFileStatus "" "" 0 0) es) key]
       else [])
      0 (log ++ [list_request b key])
| walk_dir n log key es rows fetched log' :
    listed E b log key = Some es ->
    negb (key =? "")%string && single_empty_suffix es = false ->
    walk_entries E b n (log ++ [list_request b key])
      (strings.TrimRight key "/") es rows fetched log' ->
    walk E b (S n) log key rows (Z.of_nat (List.length es) + fetched) log'
with walk_entries (E : Env) (b : ADLv1)
  : nat -> list Request -> string -> list FileStatusProperties ->
    list BlobItemOutput -> Z -> list Request -> Prop :=
| walk_nil n log dir : walk_entries E b n log dir [] [] 0 log
| walk_leaf n log dir i rest rows fetched log' :
    Type_ i <> "DIRECTORY" ->
    walk_entries E b n log dir rest rows fetched log' ->
    walk_entries E b n log dir (i :: rest)
      (adlv1FileStatus2BlobItem i (join_key dir (PathSuffix i)) :: rows)
      fetched log'
| walk_subdir n log dir i rest sub fetched1 log1 rows fetched2 log' :
    Type_ i = "DIRECTORY" ->
    walk E b n log (join_key dir (PathSuffix i)) sub fetched1 log1 ->
    walk_entries E b n log1 dir rest rows fetched2 log' ->
    walk_entries E b n log dir (i :: rest)
      (adlv1FileStatus2BlobItem i (join_key dir (PathSuffix i) ++ "/")%string
         :: sub ++ rows)
      (fetched1 + fetched2) log'.

Scheme walk_mut := Minimality for walk Sort Prop
  with walk_entries_mut := Minimality for walk_entries Sort Prop.

Combined Scheme walk_mutind from walk_mut, walk_entries_mut.

(** ** Example environments

    A small status table, a remote tree given as a table from remote
    paths to directory listings, and scripted replies; they serve the
    concrete runs below. *)

(** Modelled from the spec: the status table [mapHttpError] is defined
    in another file of the package.  The spec says that it maps the
    numeric status to a POSIX-style error, that some statuses have no
    entry, and that 404 means not-found (4.2, 7).  The theorems take
    the table as a parameter; this instance serves the concrete runs
    only. *)
Definition example_mapHttpError (status : Z) : option error :=
  if status =? 400 then Some EINVAL
  else if status =? 404 then Some ENOENT
  else if status =? 405 then Some ENOTSUP
  else if status =? 429 then Some EAGAIN
  else if status =? 500 then Some EAGAIN
  else None.

Definition http_ok : http_Response := mkResponse 200 "200 OK" "".

Definition http_status (code : Z) (body : string) : http_Response :=
  mkResponse code "" body.

Fixpoint lookup_dir (dirs : list (string * list FileStatusProperties))
  (p : string) : option (list FileStatusProperties) :=
  match dirs with
  | [] => None
  | (q, l) :: rest => if (q =? p)%string then Some l else lookup_dir rest p
  end.

(** Listing a path of the table succeeds; any other path is answered
    by [missing]. *)
Definition table_ListFileStatus
  (dirs : list (string * list FileStatusProperties))
  (missing : FileStatusesResult * option error)
  (log : list Request) (p : string) : FileStatusesResult * option error :=
  match lookup_dir dirs p with
  | Some l => (mkFileStatuses (Some http_ok) (Some l), None)
  | None => missing
  end.

Definition not_found_listing : FileStatusesResult * option error :=
  (mkFileStatuses (Some (http_status 404 "")) None,
   Some (OtherError "404")).

Definition server_error_listing : FileStatusesResult * option error :=
  (mkFileStatuses (Some (http_status 500 "")) None,
   Some (OtherError "500")).

(** The body of a failed response is taken to be the exception name. *)
Definition example_json_Decode (body : string) : option RemoteExceptionT :=
  if (body =? "")%string then None
  else Some (mkRemoteException body "" "").

Definition always_ok (log : list Request) (req : Request)
  : option http_Response * option error := (Some http_ok, None).

(** Every append is answered 404. *)
Definition always_404 (log : list Request) (req : Request)
  : option http_Response * option error :=
  (Some (http_status 404 ""), Some (OtherError "404")).

(** Data appends are refused with a bad-offset exception, closing
    appends succeed. *)
Definition bad_offset_then_ok (log : list Request) (req : Request)
  : option http_Response * option error :=
  match req with
  | AppendReq _ _ _ CLOSE _ _ => (Some http_ok, None)
  | _ => (Some (http_status 400 "BadOffsetException"),
          Some (OtherError "400"))
  end.

(** An environment over a status table, a remote tree, the reply for
    paths outside the tree, and the replies to appends.  Deletes and
    creates succeed, the only lease is ["lease"], and upload ids are
    the leases themselves. *)
Definition example_env_with (table : Z -> option error)
  (dirs : list (string * list FileStatusProperties))
  (missing : FileStatusesResult * option error)
  (append : list Request -> Request -> option http_Response * option error)
  : Env :=
  mkEnv (table_ListFileStatus dirs missing)
    (fun _ _ => (mkOperationResult (Some http_ok) (Some true), None))
    (fun _ _ => (Some http_ok, None))
    append
    (fun _ => inl "lease")
    (fun s => inl s)
    (fun u => u)
    example_json_Decode
    table.

Definition example_env
  (dirs : list (string * list FileStatusProperties))
  (missing : FileStatusesResult * option error)
  (append : list Request -> Request -> option http_Response * option error)
  : Env :=
  example_env_with example_mapHttpError dirs missing append.

Definition example_backend : ADLv1 := mkADLv1 "account" "" 420.

Definition example_handle : MultipartBlobCommitInput :=
  mkCommit "f" "lease" (ADLv1Data (mkCommitData 0)).

Definition file_entry (name : string) : FileStatusProperties :=
  mkFileStatus name "FILE" 0 0.

Definition dir_entry (name : string) : FileStatusProperties :=
  mkFileStatus name "DIRECTORY" 0 0.

(** A remote directory ["d"] with a leaf ["a"] and a directory ["b"];
    the service answers for ["d"] and for ["d/"] alike. *)
Definition example_dirs : list (string * list FileStatusProperties) :=
  [("d", [file_entry "a"; dir_entry "b"]);
   ("d/", [file_entry "a"; dir_entry "b"])].

(** A root directory with a directory ["x"] and a leaf ["y"], and one
    with the directory ["x"] alone; in both, ["x"] itself is not in
    the table, so listing it is answered by the [missing] reply. *)
Definition root_with_lost_dir : list (string * list FileStatusProperties) :=
  [("", [dir_entry "x"; file_entry "y"])].

Definition root_with_only_lost_dir
  : list (string * list FileStatusProperties) :=
  [("", [dir_entry "x"])].

(** A root with a directory ["x"] holding a leaf ["z"], and a leaf
    ["y"]. *)
Definition small_tree : list (string * list FileStatusProperties) :=
  [("", [dir_entry "x"; file_entry "y"]); ("x", [file_entry "z"])].

(** A recursive listing of everything, without budget. *)
Definition list_everything : ListBlobsInput :=
  mkListBlobsInput None None None None None.

(** ** Further operations on the same environment *)

Section BucketOps.

Variable E : Env.
Variable b : ADLv1.

Definition RemoveBucket : M (result unit) :=
  if (bucket b =? "")%string then ret (Err EINVAL)
  else
    '(res, err) <- client_Delete E (path b "") (Some false) ;;
    match mapADLv1Error E (op_Response res) err false with
    | Some e => ret (Err e)
    | None =>
        ok <- deref (OperationResult res) ;;
        if negb ok then ret (Err ENOENT) else ret (Ok tt)
    end.

End BucketOps.

(** Number of delimiters in a key. *)
Fixpoint count_slash (s : string) : nat :=
  match s with
  | EmptyString => O
  | String c r => ((if Ascii.eqb c "/" then 1 else 0) + count_slash r)%nat
  end.

(** [i.Type == "DIRECTORY"] *)
Definition is_directory (i : FileStatusProperties) : bool :=
  (Type_ i =? "DIRECTORY")%string.

(** The key [k] lies under [q]: it starts with it. *)
Definition under (q k : string) : Prop := strings.HasPrefix k q = true.

(** An append to the remote path [p] that carries [lease] both as
    lease id and as file session id. *)
Definition lease_append (p : string) (lease : UUID) (r : Request) : Prop :=
  match r with
  | AppendReq p' _ _ _ l f => p' = p /\ l = Some lease /\ f = Some lease
  | _ => False
  end.

(** Every append is refused with the given status and exception name. *)
Definition always_refused (code : Z) (exception : string)
  (log : list Request) (req : Request)
  : option http_Response * option error :=
  (Some (http_status code exception), Some (OtherError "refused")).

(** [t1] is an earlier instant than [t2]. *)
Definition time_lt (t1 t2 : Time) : Prop :=
  sec t1 < sec t2 \/ (sec t1 = sec t2 /\ nsec t1 < nsec t2).

(** ** Construction of the backend *)

Definition IsADLv1Endpoint (endpoint : string) : bool :=
  strings.HasPrefix endpoint "adl://".

(** What [NewADLv1] derives from its arguments: the backend (of the
    flags only the file mode is read by the operations above) and the
    DNS suffix it configures the SDK client with. *)
Definition NewADLv1 (bucket : string) (flags_FileMode : Z)
  (config_Endpoint : string) : result (ADLv1 * string) :=
  let parts := strings.SplitN config_Endpoint "." 2 in
  match parts with
  | [part0; part1] => Ok (mkADLv1 part0 bucket flags_FileMode, part1)
  | _ => Err (OtherError ("Invalid endpoint: " ++ config_Endpoint)%string)
  end.

(** The byte [c] occurs in [s]. *)
Fixpoint has_byte (c : ascii) (s : string) : bool :=
  match s with
  | EmptyString => false
  | String d r => Ascii.eqb d c || has_byte c r
  end.

(** ** Operations on single files and directories

    [Init], [HeadBlob], [PutBlob], [RenameBlob], [MakeBucket] and
    [mkdir] use SDK calls the operations above do not use.  Their
    requests are logged in a log of their own kind, and the replies
    are the fields of [FileEnv]; the classifier tables are those of
    the [Env] it extends. *)

(** [adl.FileStatusResult]: the HTTP response and the decoded status,
    a pointer that may be nil. *)
Record FileStatusResult := mkFileStatusResult {
  fsr_Response : option http_Response;
  fsr_FileStatus : option FileStatusProperties
}.

(** [url.Values] and [http.Header]: keys with their values, as pairs.
    The values of one key are in the order they were added; the order
    among different keys carries no meaning. *)
Definition Values := list (string * string).

Fixpoint Values_Get (v : Values) (key : string) : string :=
  match v with
  | [] => ""
  | (k, x) :: rest => if (k =? key)%string then x else Values_Get rest key
  end.

Definition Values_Set (v : Values) (key value : string) : Values :=
  filter (fun kv => negb (fst kv =? key)%string) v ++ [(key, value)].

Definition Values_Add (v : Values) (key value : string) : Values :=
  v ++ [(key, value)].

(** An [http.Request] before it is sent: the query of its URL, the
    rest of the URL, and the header. *)
Record http_Request := mkHttpRequest {
  URL_Path : string;
  URL_Query : Values;
  Header : Values
}.

(** [r.URL.RawQuery = q.Encode()] *)
Definition with_query (r : http_Request) (q : Values) : http_Request :=
  mkHttpRequest (URL_Path r) q (Header r).

Inductive FileCall :=
| GetFileStatusCall (path : string)
| MkdirsCall (path : string) (permission : option Z)
| CreateCall (r : Request)
| RenameCall (r : http_Request).

Record FileEnv := mkFileEnv {
  base : Env;
  adl_GetFileStatus :
    list FileCall -> string -> FileStatusResult * option error;
  adl_Mkdirs :
    list FileCall -> string -> option Z -> FileOperationResult * option error;
  adl_CreateFile :
    list FileCall -> Request -> option http_Response * option error;
  (* builds the request, nothing is sent *)
  adl_RenamePreparer : string -> string -> http_Request * option error;
  adl_RenameSender :
    list FileCall -> http_Request -> option http_Response * option error;
  (* decodes the response, nothing is sent *)
  adl_RenameResponder :
    option http_Response -> FileOperationResult * option error
}.

Record HeadBlobOutput := mkHeadBlobOutput {
  head_Item : BlobItemOutput;
  IsDirBlob : bool
}.

Record PutBlobInput := mkPutBlobInput {
  put_Key : string;
  DirBlob : bool;
  put_Body : string
}.

Record RenameBlobInput := mkRenameBlobInput {
  Source : string;
  Destination : string
}.

Definition MF (A : Type) : Type :=
  list FileCall -> outcome A * list FileCall.

Definition retF {A} (a : A) : MF A := fun log => (Done a, log).

Definition bindF {A B} (m : MF A) (k : A -> MF B) : MF B :=
  fun log =>
    match m log with
    | (Done a, log') => k a log'
    | (Panicked msg, log') => (Panicked msg, log')
    | (OutOfFuel, log') => (OutOfFuel, log')
    end.

Definition derefF {A} (p : option A) : MF A :=
  match p with
  | Some a => retF a
  | None => fun log => (Panicked "nil pointer dereference", log)
  end.

Declare Scope file_scope.
Delimit Scope file_scope with file.
Notation "x <- m ;; k" := (bindF m (fun x => k))
  (at level 100, m at next level, right associativity) : file_scope.
Notation "' pat <- m ;; k" := (bindF m (fun x => match x with pat => k end))
  (at level 100, pat pattern, m at next level, right associativity)
  : file_scope.

Section FileOps.

Local Open Scope file_scope.

Variable FE : FileEnv.
Variable b : ADLv1.
(** [b.flags.DirMode] *)
Variable DirMode : Z.

Definition client_GetFileStatus (p : string)
  : MF (FileStatusResult * option error) :=
  fun log => (Done (adl_GetFileStatus FE log p), log ++ [GetFileStatusCall p]).

Definition client_Mkdirs (p : string) (permission : option Z)
  : MF (FileOperationResult * option error) :=
  fun log =>
    (Done (adl_Mkdirs FE log p permission), log ++ [MkdirsCall p permission]).

Definition client_CreateFile (req : Request)
  : MF (option http_Response * option error) :=
  fun log => (Done (adl_CreateFile FE log req), log ++ [CreateCall req]).

Definition client_RenameSender (r : http_Request)
  : MF (option http_Response * option error) :=
  fun log => (Done (adl_RenameSender FE log r), log ++ [RenameCall r]).

Definition Init (key : string) : MF (option error) :=
  '(res, err) <- client_GetFileStatus (path b key) ;;
  let err := mapADLv1Error (base FE) (fsr_Response res) err true in
  match err with
  | Some (ADLv1Err exn _) =>
      if (Exception exn =? "FileNotFoundException")%string then retF None
      else retF err
  | _ => retF err
  end.

Definition HeadBlob (key : string) : MF (result HeadBlobOutput) :=
  '(res, err) <- client_GetFileStatus (path b key) ;;
  match mapADLv1Error (base FE) (fsr_Response res) err false with
  | Some e => retF (Err e)
  | None =>
      f <- derefF (fsr_FileStatus res) ;;
      retF (Ok (mkHeadBlobOutput (adlv1FileStatus2BlobItem f key)
                  (Type_ f =? "DIRECTORY")%string))
  end.

Definition RenameBlob (param : RenameBlobInput) : MF (result unit) :=
  let '(r, err) :=
    adl_RenamePreparer FE (path b (Source param))
      (path b (Destination param)) in
  match mapADLv1Error (base FE) None err false with
  | Some e => retF (Err e)
  | None =>
      let params := URL_Query r in
      let params := Values_Add params "renameoptions" "OVERWRITE" in
      let r := with_query r params in
      '(resp, err) <- client_RenameSender r ;;
      match mapADLv1Error (base FE) resp err false with
      | Some e => retF (Err e)
      | None =>
          let '(res, err) := adl_RenameResponder FE resp in
          match mapADLv1Error (base FE) resp err false with
          | Some e => retF (Err e)
          | None =>
              ok <- derefF (OperationResult res) ;;
              if negb ok then retF (Err ENOENT) else retF (Ok tt)
          end
      end
  end.

Definition CopyBlob : MF (result unit) := retF (Err ENOTSUP).

Definition mkdir (dir : string) : MF (option error) :=
  '(res, err) <- client_Mkdirs (path b dir) (Some (int32 DirMode)) ;;
  match mapADLv1Error (base FE) (op_Response res) err true with
  | Some e => retF (Some e)
  | None =>
      ok <- derefF (OperationResult res) ;;
      if negb ok then retF (Some EEXIST) else retF None
  end.

Definition PutBlob (param : PutBlobInput) : MF (result unit) :=
  if DirBlob param then
    err <- mkdir (put_Key param) ;;
    match err with
    | Some e => retF (Err e)
    | None => retF (Ok tt)
    end
  else
    '(res, err) <- client_CreateFile
                     (CreateReq (path b (put_Key param)) (put_Body param)
                        (Some true) CLOSE None (Some (int32 (FileMode b)))) ;;
    match mapADLv1Error (base FE) res err false with
    | Some e => retF (Err e)
    | None => retF (Ok tt)
    end.

Definition MultipartExpire : MF (result unit) := retF (Err ENOTSUP).

Definition MakeBucket : MF (result unit) :=
  if (bucket b =? "")%string then retF (Err EINVAL)
  else
    err <- mkdir "" ;;
    match err with
    | Some e => retF (Err e)
    | None => retF (Ok tt)
    end.

End FileOps.

(** A file service that answers every status request with [status],
    every [Mkdirs] with [made], every create with success, and every
    rename with [renamed], which the responder decodes as [decoded]. *)
Definition example_file_env (status : FileStatusResult * option error)
  (made : FileOperationResult * option error)
  (renamed : option http_Response * option error)
  (decoded : FileOperationResult * option error) : FileEnv :=
  mkFileEnv (example_env [] not_found_listing always_ok)
    (fun _ _ => status)
    (fun _ _ _ => made)
    (fun _ _ => (Some http_ok, None))
    (fun src dst => (mkHttpRequest src [("destination", dst);
                                        ("op", "RENAME")] [], None))
    (fun _ _ => renamed)
    (fun _ => decoded).

(** ** The request inspector installed by [NewADLv1]

    [strconv.ParseInt] and the verb [%o] of [fmt] belong to the Go
    standard library.  They are modelled for a base from 2 to 36 and a
    bit size from 1 to 64; the detection of a base from a prefix
    (base 0) is left out, the inspector passes base 10. *)

Module strconv.

Inductive NumError := ErrSyntax | ErrRange.

Definition byte (c : ascii) : Z := Z.of_nat (nat_of_ascii c).

(** [lower(c)]: the byte with the bit [0x20] set. *)
Definition lower (c : Z) : Z := Z.lor c 32.

(** The digit a byte stands for, in any base. *)
Definition digit_value (c : Z) : option Z :=
  if (48 <=? c) && (c <=? 57) then Some (c - 48)
  else if (97 <=? lower c) && (lower c <=? 122) then Some (lower c - 97 + 10)
  else None.

(** The loop of [ParseUint] over the bytes of the string. *)
Fixpoint ParseUint_loop (s : string) (base cutoff maxVal n : Z)
  : Z * option NumError :=
  match s with
  | EmptyString => (n, None)
  | String c r =>
      match digit_value (byte c) with
      | None => (0, Some ErrSyntax)
      | Some d =>
          if d >=? base then (0, Some ErrSyntax)
          else if n >=? cutoff then (maxVal, Some ErrRange)
          else
            let n := uint64 (n * base) in
            let n1 := uint64 (n + d) in
            if (n1 <? n) || (n1 >? maxVal) then (maxVal, Some ErrRange)
            else ParseUint_loop r base cutoff maxVal n1
      end
  end.

Definition ParseUint (s : string) (base bitSize : Z) : Z * option NumError :=
  if (s =? "")%string then (0, Some ErrSyntax)
  else
    let cutoff := (2 ^ 64 - 1) / base + 1 in
    let maxVal := uint64 (uint64 (2 ^ bitSize) - 1) in
    ParseUint_loop s base cutoff maxVal 0.

Definition ParseInt (s : string) (base bitSize : Z) : Z * option NumError :=
  match s with
  | EmptyString => (0, Some ErrSyntax)
  | String c0 r =>
      let neg := Ascii.eqb c0 "-" in
      let s := if Ascii.eqb c0 "+" || neg then r else s in
      let '(un, err) := ParseUint s base bitSize in
      match err with
      | Some ErrSyntax => (0, err)
      | _ =>
          let cutoff := uint64 (2 ^ (bitSize - 1)) in
          if negb neg && (un >=? cutoff) then (int64 (cutoff - 1), Some ErrRange)
          else if neg && (un >? cutoff) then (int64 (- int64 cutoff), Some ErrRange)
          else
            let n := int64 un in
            (if neg then int64 (- n) else n, None)
      end
  end.

End strconv.

Module fmt.

Definition digit (d : Z) : ascii := ascii_of_nat (48 + Z.to_nat d).

(** The octal digits of [u], written from the right in front of
    [acc]; [fuel] bounds the number of digits. *)
Fixpoint octal (fuel : nat) (u : Z) (acc : string) : string :=
  match fuel with
  | O => acc
  | S k =>
      if u >=? 8 then octal k (Z.shiftr u 3) (String (digit (Z.land u 7)) acc)
      else String (digit u) acc
  end.

(** [fmt.Sprintf("0%o", v)] for an [int64]: a sign before the digits
    of the magnitude; 22 digits hold any 64-bit value. *)
Definition Sprintf_0o (v : Z) : string :=
  let digits :=
    if v <? 0 then ("-" ++ octal 22 (uint64 (- v)) "")%string
    else octal 22 v "" in
  ("0" ++ digits)%string.

End fmt.

(** [uuid.Nil], the value [NewV4] returns with an error. *)
Definition uuid_Nil : UUID := "00000000-0000-0000-0000-000000000000".

Definition ADL1_REQUEST_ID : string := "X-Ms-Request-Id".

Section Inspector.

Variable E : Env.

(** The preparer decorator [LogRequest]: the permission of the query
    is rewritten, a request id is added to the header, and the request
    goes on to the decorated preparer [p].  Logging is left out. *)
Definition LogRequest (p : http_Request -> http_Request * option error)
  (r : http_Request) : M (http_Request * option error) :=
  fun log =>
    let q := URL_Query r in
    let perm := Values_Get q "permission" in
    let r :=
      if negb (perm =? "")%string then
        match strconv.ParseInt perm 10 32 with
        | (perm, None) =>
            with_query r (Values_Set q "permission" (fmt.Sprintf_0o perm))
        | _ => r
        end
      else r in
    let u := match uuid_NewV4 E log with
             | inl u => u
             | inr _ => uuid_Nil
             end in
    let r :=
      mkHttpRequest (URL_Path r) (URL_Query r)
        (Values_Add (Header r) ADL1_REQUEST_ID (uuid_String E u)) in
    (Done (p r), log).

End Inspector.

(** * Properties *)

(** ** Strings *)

Lemma in_cutset_slash (c : ascii) :
  strings.in_cutset "/" c = Ascii.eqb c "/".
Proof. unfold strings.in_cutset; simpl. apply orb_false_r. Qed.

Lemma TrimLeft_slashes (s : string) :
  exists n, s = (slashes n ++ strings.TrimLeft s "/")%string.
Proof.
  induction s as [|c r [n IH]].
  - exists O. reflexivity.
  - simpl. rewrite in_cutset_slash.
    destruct (Ascii.eqb_spec c "/") as [->|Hc].
    + exists (S n). simpl. now rewrite <- IH.
    + exists O. reflexivity.
Qed.

Lemma TrimLeft_no_leading_slash (s : string) :
  strings.HasPrefix (strings.TrimLeft s "/") "/" = false.
Proof.
  induction s as [|c r IH]; [reflexivity|].
  simpl. rewrite in_cutset_slash.
  destruct (Ascii.eqb_spec c "/") as [->|Hc]; [exact IH|].
  simpl. destruct (Ascii.eqb_spec c "/"); [contradiction|reflexivity].
Qed.

Lemma TrimLeft_fixed (s : string) :
  strings.HasPrefix s "/" = false -> strings.TrimLeft s "/" = s.
Proof.
  destruct s as [|c r]; [reflexivity|].
  simpl. rewrite in_cutset_slash.
  destruct (Ascii.eqb c "/"); simpl; [discriminate|reflexivity].
Qed.

Lemma TrimLeft_idempotent (s : string) :
  strings.TrimLeft (strings.TrimLeft s "/") "/" = strings.TrimLeft s "/".
Proof. apply TrimLeft_fixed, TrimLeft_no_leading_slash. Qed.

(** ** Path mapper *)

(** C8. For every backend and key, [path] removes all leading
    delimiters from the key (the key is some number of ["/"] followed
    by the stripped key, which does not start with ["/"]); with a root
    prefix configured the result is root, ["/"], stripped key, except
    that an empty stripped key gives the root alone, and without a
    root prefix it is the stripped key.  With an empty root prefix
    [path] is idempotent. *)
Theorem path_mapping (b : ADLv1) (key : string) :
  (exists (n : nat) (stripped : string),
      key = (slashes n ++ stripped)%string
      /\ strings.HasPrefix stripped "/" = false
      /\ path b key =
           if (bucket b =? "")%string then stripped
           else if (stripped =? "")%string then bucket b
                else (bucket b ++ "/" ++ stripped)%string)
  /\ path (mkADLv1 (account b) "" (FileMode b))
       (path (mkADLv1 (account b) "" (FileMode b)) key)
     = path (mkADLv1 (account b) "" (FileMode b)) key.
Proof.
  split.
  - destruct (TrimLeft_slashes key) as [n Hn].
    exists n, (strings.TrimLeft key "/").
    split; [exact Hn|]. split; [apply TrimLeft_no_leading_slash|].
    unfold path.
    destruct (bucket b =? "")%string; simpl; [reflexivity|].
    destruct (strings.TrimLeft key "/" =? "")%string; reflexivity.
  - unfold path. simpl. apply TrimLeft_idempotent.
Qed.

(** ** Sorting with a total order *)

Section SortFacts.

Context {A : Type}.
Variable le : A -> A -> Prop.
Variable less : A -> A -> bool.

Hypothesis le_trans : forall x y z, le x y -> le y z -> le x z.
Hypothesis le_antisym : forall x y, le x y -> le y x -> x = y.
Hypothesis less_true : forall x y, less x y = true -> le x y.
Hypothesis less_false : forall x y, less x y = false -> le y x.

Lemma insert_perm (x : A) (l : list A) :
  Permutation (sort.insert less x l) (x :: l).
Proof.
  induction l as [|y l IH]; simpl; [reflexivity|].
  destruct (less y x); [|reflexivity].
  rewrite IH. apply perm_swap.
Qed.

Lemma Slice_perm (l : list A) : Permutation (sort.Slice l less) l.
Proof.
  induction l as [|x l IH]; simpl; [reflexivity|].
  rewrite insert_perm. now constructor.
Qed.

Lemma insert_sorted (x : A) (l : list A) :
  StronglySorted le l -> StronglySorted le (sort.insert less x l).
Proof.
  induction 1 as [|y l Hs IH Hall]; simpl.
  - repeat constructor.
  - destruct (less y x) eqn:Hyx.
    + constructor; [exact IH|].
      apply (Permutation_Forall (x := x :: l)).
      * symmetry. apply insert_perm.
      * constructor; [now apply less_true | exact Hall].
    + apply less_false in Hyx.
      constructor; [now constructor|].
      constructor; [exact Hyx|].
      rewrite Forall_forall in *. intros z Hz. eapply le_trans; eauto.
Qed.

Lemma Slice_sorted (l : list A) : StronglySorted le (sort.Slice l less).
Proof.
  induction l as [|x l IH]; simpl; [constructor|].
  now apply insert_sorted.
Qed.

(** A sorted arrangement of given elements is unique: the model of
    [sort.Slice] returns what any correct sorting algorithm returns. *)
Lemma sorted_perm_unique (l l' : list A) :
  StronglySorted le l -> StronglySorted le l' -> Permutation l l' -> l = l'.
Proof.
  intros Hl. revert l'.
  induction Hl as [|x l Hs IH Hall]; intros l' Hl' Hp.
  - apply Permutation_nil in Hp. now subst.
  - destruct Hl' as [|y l' Hs' Hall'].
    + symmetry in Hp. apply Permutation_nil in Hp. discriminate.
    + assert (x = y) as ->.
      { assert (Hx : In x (y :: l'))
          by (eapply Permutation_in; [exact Hp | now left]).
        assert (Hy : In y (x :: l))
          by (eapply Permutation_in; [symmetry; exact Hp | now left]).
        destruct Hx as [->|Hx]; [reflexivity|].
        destruct Hy as [->|Hy]; [reflexivity|].
        rewrite Forall_forall in Hall, Hall'.
        apply le_antisym; auto. }
      f_equal. apply IH; [exact Hs'|].
      now apply Permutation_cons_inv in Hp.
Qed.

Lemma Slice_unique (l l' : list A) :
  Permutation l l' -> StronglySorted le l' -> sort.Slice l less = l'.
Proof.
  intros Hp Hs. apply sorted_perm_unique; [apply Slice_sorted|exact Hs|].
  now rewrite Slice_perm.
Qed.

End SortFacts.

(** ** The deletion order *)

Lemma compare_le_trans (a b c : string) :
  String.compare a b <> Gt -> String.compare b c <> Gt ->
  String.compare a c <> Gt.
Proof.
  revert b c.
  induction a as [|x a IH]; intros [|y b] [|z c]; simpl; try congruence.
  unfold Ascii.compare.
  destruct (N.compare_spec (N_of_ascii x) (N_of_ascii y));
    destruct (N.compare_spec (N_of_ascii y) (N_of_ascii z));
    destruct (N.compare_spec (N_of_ascii x) (N_of_ascii z));
    try congruence; try lia; eauto.
Qed.

Lemma Compare_le (a b : string) :
  strings.Compare a b <= 0 <-> String.compare a b <> Gt.
Proof.
  unfold strings.Compare.
  destruct (String.compare a b); split; intros; try congruence; lia.
Qed.

Lemma Compare_lt (a b : string) :
  (strings.Compare a b <? 0) = true <-> String.compare a b = Lt.
Proof.
  unfold strings.Compare.
  destruct (String.compare a b); cbn; split; intros; congruence.
Qed.

Lemma key_le_trans (x y z : string) : key_le x y -> key_le y z -> key_le x z.
Proof.
  unfold key_le. rewrite !Compare_le.
  intros [H1|[H1 C1]] [H2|[H2 C2]]; try (left; lia).
  right. split; [lia|]. eapply compare_le_trans; eauto.
Qed.

Lemma key_le_antisym (x y : string) : key_le x y -> key_le y x -> x = y.
Proof.
  unfold key_le. rewrite !Compare_le.
  intros [H1|[H1 C1]] [H2|[H2 C2]]; try lia.
  apply String.compare_eq_iff.
  rewrite String.compare_antisym in C2.
  destruct (String.compare x y); simpl in *; congruence.
Qed.

Lemma less_key_le (x y : string) : less x y = true -> key_le x y.
Proof.
  unfold less, key_le.
  destruct (depth x =? depth y) eqn:Hd; simpl.
  - apply Z.eqb_eq in Hd. rewrite Compare_lt, Compare_le.
    intros H. right. split; [exact Hd|congruence].
  - rewrite Z.ltb_lt. now left.
Qed.

Lemma not_less_key_le (x y : string) : less x y = false -> key_le y x.
Proof.
  unfold less, key_le.
  destruct (depth x =? depth y) eqn:Hd; simpl.
  - apply Z.eqb_eq in Hd. rewrite Compare_le.
    intros H. right. split; [lia|].
    rewrite String.compare_antisym.
    destruct (String.compare x y) eqn:Hc; simpl; try congruence.
    apply Compare_lt in Hc. congruence.
  - apply Z.eqb_neq in Hd. rewrite Z.ltb_ge. intros H. left. lia.
Qed.

Lemma sort_keys_perm (items : list string) :
  Permutation (sort.Slice items less) items.
Proof. apply Slice_perm. Qed.

Lemma sort_keys_sorted (items : list string) :
  StronglySorted key_le (sort.Slice items less).
Proof.
  apply Slice_sorted;
    first [exact key_le_trans | exact less_key_le | exact not_less_key_le].
Qed.

Lemma sort_keys_unique (items sorted : list string) :
  Permutation items sorted -> StronglySorted key_le sorted ->
  sort.Slice items less = sorted.
Proof.
  apply Slice_unique;
    first [exact key_le_trans | exact key_le_antisym
          | exact less_key_le | exact not_less_key_le].
Qed.

Section Deletion.

Variable E : Env.
Variable b : ADLv1.

Local Abbreviation delete_request := (delete_request b).
Local Abbreviation all_deleted := (all_deleted E b).

Lemma DeleteBlob_log (key : string) (log : list Request) :
  snd (DeleteBlob E b key log) = log ++ [delete_request key].
Proof.
  unfold DeleteBlob, bind, client_Delete, delete_request. simpl.
  destruct (adl_Delete E log _) as [res err]. simpl.
  destruct (mapADLv1Error E (op_Response res) err false); [reflexivity|].
  destruct (OperationResult res) as [[|]|]; reflexivity.
Qed.

Lemma all_deleted_nil (log : list Request) : all_deleted log [].
Proof. intros [|x before] k after H; discriminate. Qed.

Lemma all_deleted_cons (log : list Request) (k : string) (keys : list string) :
  fst (DeleteBlob E b k log) = Done (Ok tt) ->
  all_deleted (log ++ [delete_request k]) keys ->
  all_deleted log (k :: keys).
Proof.
  intros Hk Hrest [|x before] k' after Heq; simpl in Heq.
  - injection Heq as <- _. simpl. now rewrite app_nil_r.
  - injection Heq as <- Heq. simpl.
    specialize (Hrest before k' after Heq).
    now rewrite <- app_assoc in Hrest.
Qed.

Lemma delete_each_run (keys : list string) (log : list Request) :
  (all_deleted log keys
   /\ delete_each E b keys log = (Done (Ok tt), log ++ map delete_request keys))
  \/ (exists before k after,
         keys = before ++ k :: after
         /\ all_deleted log before
         /\ fst (DeleteBlob E b k (log ++ map delete_request before))
            <> Done (Ok tt)
         /\ delete_each E b keys log
            = (fst (DeleteBlob E b k (log ++ map delete_request before)),
               log ++ map delete_request (before ++ [k]))).
Proof.
  revert log. induction keys as [|k keys IH]; intros log.
  - left. split; [apply all_deleted_nil|]. simpl. now rewrite app_nil_r.
  - pose proof (DeleteBlob_log k log) as Hlog.
    destruct (DeleteBlob E b k log) as [r log1] eqn:Hrun. simpl in Hlog.
    subst log1.
    assert (Hfail : r <> Done (Ok tt) ->
                    delete_each E b (k :: keys) log
                    = (r, log ++ [delete_request k])).
    { intros Hr. simpl. unfold bind. rewrite Hrun.
      destruct r as [[[]|e]|msg|]; try reflexivity. now elim Hr. }
    destruct r as [[[]|e]|msg|].
    + destruct (IH (log ++ [delete_request k]))
        as [[Hall Heq]|(before & k' & after & Hkeys & Hall & Hne & Heq)].
      * left. split.
        -- apply all_deleted_cons; [now rewrite Hrun|exact Hall].
        -- simpl. unfold bind. rewrite Hrun, Heq. simpl.
           now rewrite <- app_assoc.
      * right. exists (k :: before), k', after.
        simpl. rewrite <- !app_assoc in *. simpl in *.
        repeat split.
        -- now rewrite Hkeys.
        -- apply all_deleted_cons; [now rewrite Hrun|exact Hall].
        -- exact Hne.
        -- unfold bind. rewrite Hrun. exact Heq.
    + right. exists [], k, keys. simpl. rewrite app_nil_r, Hrun. simpl.
      repeat split; [apply all_deleted_nil|discriminate|].
      apply Hfail. discriminate.
    + right. exists [], k, keys. simpl. rewrite app_nil_r, Hrun. simpl.
      repeat split; [apply all_deleted_nil|discriminate|].
      apply Hfail. discriminate.
    + right. exists [], k, keys. simpl. rewrite app_nil_r, Hrun. simpl.
      repeat split; [apply all_deleted_nil|discriminate|].
      apply Hfail. discriminate.
Qed.

End Deletion.




(** ** Fixed-width arithmetic *)

Lemma uint64_idem (z : Z) : uint64 (uint64 z) = uint64 z.
Proof. unfold uint64. apply Z.mod_mod. lia. Qed.

Lemma uint64_add_l (x y : Z) : uint64 (uint64 x + y) = uint64 (x + y).
Proof. unfold uint64. apply Zplus_mod_idemp_l. Qed.

Lemma uint64_sub_l (x y : Z) : uint64 (uint64 x - y) = uint64 (x - y).
Proof. unfold uint64. apply Zminus_mod_idemp_l. Qed.

Lemma uint64_small (z : Z) : 0 <= z < 2 ^ 64 -> uint64 z = z.
Proof. unfold uint64. apply Z.mod_small. Qed.

Lemma int64_small (z : Z) : - 2 ^ 63 <= z < 2 ^ 63 -> int64 z = z.
Proof. unfold int64. intros H. rewrite Z.mod_small; lia. Qed.

Lemma partial_sum_S (k : nat) (s : Z) (sizes : list Z) :
  partial_sum (S k) (s :: sizes) = s + partial_sum k sizes.
Proof. reflexivity. Qed.

Lemma partial_sum_nonneg (k : nat) (sizes : list Z) :
  Forall (fun s => 0 <= s) sizes -> 0 <= partial_sum k sizes.
Proof.
  intros H. revert k.
  induction H as [|s sizes Hs _ IH]; intros [|k]; unfold partial_sum;
    simpl; try lia.
  specialize (IH k). unfold partial_sum in IH. lia.
Qed.

Lemma partial_sum_step (k : nat) (sizes : list Z) (s : Z) :
  nth_error sizes k = Some s ->
  partial_sum (S k) sizes = partial_sum k sizes + s.
Proof.
  revert k. induction sizes as [|x sizes IH]; intros [|k] H;
    try discriminate.
  - injection H as ->. unfold partial_sum. simpl. lia.
  - simpl in H. rewrite !partial_sum_S, (IH k H). lia.
Qed.

(** ** Multipart upload *)

Section Multipart.

Variable E : Env.
Variable b : ADLv1.

Lemma structured_error_inv (res : option http_Response) (err : option error)
  (exn : RemoteExceptionT) (resp : http_Response) :
  mapADLv1Error E res err true = Some (ADLv1Err exn resp) ->
  res = Some resp.
Proof.
  unfold mapADLv1Error. destruct res as [r|].
  - destruct ((StatusCode r <? 200) || (StatusCode r >=? 300));
      [|discriminate].
    destruct (json_Decode E (Body r)); [|discriminate].
    intros H. injection H as _ ->. reflexivity.
  - destruct err; discriminate.
Qed.

(** [uploadPart], evaluated symbolically on a handle whose upload id
    parses. *)
Lemma uploadPart_run (h : MultipartBlobCommitInput) (pn : Z) (body : string)
  (s offset : Z) (lease : UUID) (log : list Request) :
  uuid_FromString E (mc_UploadId h) = inl lease ->
  let req := data_append h lease body (int64 (uint64 (offset - s))) in
  let reply := adl_Append E log req in
  let c := mapADLv1Error E (fst reply) (snd reply) true in
  uploadPart E (mkAdd h pn body s) offset log =
    match c with
    | Some (ADLv1Err exn resp) =>
        if StatusCode resp =? 404 then (Done (Some EINVAL), log ++ [req])
        else if (StatusCode resp =? 400)
                && (Exception exn =? "BadOffsetException")%string
        then
          let preq := close_append h lease (int64 offset) in
          let preply := adl_Append E (log ++ [req]) preq in
          match mapADLv1Error E (fst preply) (snd preply) false with
          | None => (Done None, (log ++ [req]) ++ [preq])
          | Some _ =>
              (Done (mapADLv1Error E (Some resp) c false),
               (log ++ [req]) ++ [preq])
          end
        else (Done (mapADLv1Error E (Some resp) c false), log ++ [req])
    | _ => (Done c, log ++ [req])
    end.
Proof.
  intros Hparse req reply c. subst c reply req.
  unfold uploadPart, detectTransientError, data_append, close_append.
  simpl. rewrite Hparse.
  unfold bind, client_Append, ret. simpl.
  destruct (adl_Append E log _) as [res err]. simpl.
  destruct (mapADLv1Error E res err true) as [[code|exn resp|msg]|];
    try reflexivity.
  destruct (StatusCode resp =? 404); [reflexivity|].
  destruct ((StatusCode resp =? 400)
            && (Exception exn =? "BadOffsetException")%string);
    [|reflexivity].
  simpl.
  destruct (adl_Append E (log ++ _) _) as [pres perr]. simpl.
  destruct (mapADLv1Error E pres perr false); reflexivity.
Qed.

(** [MultipartBlobAdd] always leaves the handle advanced by the
    declared size, and its first request is the data append at the
    offset computed from the advanced size. *)
Lemma MultipartBlobAdd_run (h : MultipartBlobCommitInput)
  (d : ADLv1MultipartBlobCommitInput) (pn : Z) (body : string) (s : Z)
  (lease : UUID) (log : list Request) :
  backendData h = ADLv1Data d ->
  uuid_FromString E (mc_UploadId h) = inl lease ->
  exists (r : result unit) (more : list Request),
    MultipartBlobAdd E (mkAdd h pn body s) log
    = (Done (r, advance h s),
       log ++ data_append h lease body
                (int64 (uint64 (cumulative (advance h s) - s))) :: more).
Proof.
  intros Hd Hparse.
  unfold MultipartBlobAdd.
  cbn [Commit PartNumber add_Body add_Size]. rewrite Hd. unfold bind.
  pose proof (uploadPart_run (advance h s) pn body s
                (uint64 (Size d + s)) lease log Hparse) as Hrun.
  unfold advance, cumulative in *. rewrite Hd in *.
  cbn [Size backendData] in *.
  rewrite Hrun. clear Hrun.
  unfold data_append, close_append. cbn [mc_Key].
  destruct (adl_Append E log _) as [res err]. cbn [fst snd].
  destruct (mapADLv1Error E res err true) as [[code|exn resp|msg]|];
    try (eexists _, []; reflexivity).
  set (again := mapADLv1Error E (Some resp) _ false).
  destruct (StatusCode resp =? 404); [eexists _, []; reflexivity|].
  destruct ((StatusCode resp =? 400)
            && (Exception exn =? "BadOffsetException")%string).
  - cbv zeta. destruct (adl_Append E (log ++ _) _) as [pres perr].
    cbn [fst snd]. rewrite <- app_assoc.
    destruct (mapADLv1Error E pres perr false);
      [destruct again|]; eexists _, [_]; reflexivity.
  - destruct again; eexists _, []; reflexivity.
Qed.

Lemma sent_run {A} (m : M A) (log reqs : list Request) (a : A) :
  m log = (Done a, log ++ reqs) ->
  sent m log = (Done (a, reqs), log ++ reqs).
Proof.
  intros H. unfold sent. rewrite H. clear H. do 2 f_equal. f_equal.
  induction log as [|x log IH]; [reflexivity|exact IH].
Qed.

Lemma MultipartBlobBegin_handle (key : string) (log log1 : list Request)
  (h : MultipartBlobCommitInput) :
  MultipartBlobBegin E b key log = (Done (Ok h), log1) ->
  exists leaseId,
    h = mkCommit (path b key) (uuid_String E leaseId)
          (ADLv1Data (mkCommitData 0))
    /\ log1 = log ++ [CreateReq (path b key) "" (Some true) DATA
                        (Some leaseId) (Some (int32 (FileMode b)))].
Proof.
  unfold MultipartBlobBegin.
  destruct (uuid_NewV4 E log) as [leaseId|e]; [|discriminate].
  unfold bind, client_Create, ret. cbn [fst snd].
  destruct (adl_Create E log _) as [res err].
  destruct (mapADLv1Error E res err false); [discriminate|].
  intros H. injection H as <- <-. now exists leaseId.
Qed.

Lemma MultipartBlobCommit_log (h : MultipartBlobCommitInput)
  (d : ADLv1MultipartBlobCommitInput) (lease : UUID) (log : list Request) :
  backendData h = ADLv1Data d ->
  uuid_FromString E (mc_UploadId h) = inl lease ->
  snd (MultipartBlobCommit E h log)
  = log ++ [close_append h lease (int64 (Size d))].
Proof.
  intros Hd Hparse. unfold MultipartBlobCommit. rewrite Hd, Hparse.
  unfold bind, client_Append, ret, close_append. cbn [fst snd].
  destruct (adl_Append E log _) as [res err].
  destruct (mapADLv1Error E res err false) as [e|]; [|reflexivity].
  destruct (is_ENOENT (Some e)); reflexivity.
Qed.

(** The steps of [add_parts] on a handle with cumulative size [Size d]. *)
Lemma add_parts_run (parts : list (string * Z)) :
  forall (h : MultipartBlobCommitInput) (d : ADLv1MultipartBlobCommitInput)
         (lease : UUID) (log : list Request),
    backendData h = ADLv1Data d ->
    uuid_FromString E (mc_UploadId h) = inl lease ->
    exists steps log',
      add_parts E h parts log = (Done steps, log')
      /\ List.length steps = List.length parts
      /\ Forall (fun st => mc_Key (step_handle st) = mc_Key h
                           /\ mc_UploadId (step_handle st) = mc_UploadId h
                           /\ exists d', backendData (step_handle st)
                                         = ADLv1Data d') steps
      /\ forall k body s,
          nth_error parts k = Some (body, s) ->
          exists st more,
            nth_error steps k = Some st
            /\ cumulative (step_handle st)
               = uint64 (Size d + partial_sum (S k) (map snd parts))
            /\ step_requests st
               = data_append h lease body
                   (int64 (uint64 (cumulative (step_handle st) - s)))
                 :: more.
Proof.
  induction parts as [|[body0 s0] parts IH]; intros h d lease log Hd Hparse.
  - exists [], log. repeat split; [constructor|].
    intros [|k] body s H; discriminate.
  - destruct (MultipartBlobAdd_run h d 0 body0 s0 lease log Hd Hparse)
      as (r & more & Hadd).
    apply sent_run in Hadd.
    assert (Hd' : backendData (advance h s0)
                  = ADLv1Data (mkCommitData (uint64 (cumulative h + s0))))
      by reflexivity.
    destruct (IH (advance h s0) _ lease
                (log ++ data_append h lease body0
                          (int64 (uint64 (cumulative (advance h s0) - s0)))
                        :: more) Hd' Hparse)
      as (steps & log' & Hrun & Hlen & Hsame & Hsteps).
    eexists (mkAddStep r (advance h s0) _ :: steps), log'.
    split; [|split; [|split]].
    + cbn [add_parts]. unfold bind at 1. rewrite Hadd.
      unfold bind at 1. rewrite Hrun. reflexivity.
    + simpl. now rewrite Hlen.
    + constructor; [simpl; eauto|].
      eapply Forall_impl; [|exact Hsame]. simpl. tauto.
    + intros [|k] body s Hk; simpl in Hk.
      * injection Hk as <- <-. eexists _, more. split; [reflexivity|].
        cbn [step_handle step_requests map snd].
        split; [|reflexivity].
        unfold cumulative at 1. cbn [advance backendData Size].
        unfold cumulative. rewrite Hd. rewrite partial_sum_S.
        unfold partial_sum. simpl. f_equal. lia.
      * destruct (Hsteps k body s Hk) as (st & more' & Hst & Hcum & Hreq).
        exists st, more'. split; [exact Hst|]. split; [|exact Hreq].
        rewrite Hcum. cbn [Size map snd]. rewrite partial_sum_S.
        unfold cumulative. rewrite Hd.
        rewrite uint64_add_l. f_equal. lia.
Qed.

End Multipart.

Lemma last_nth_error {A} (l : list A) (d x : A) (n : nat) :
  List.length l = S n -> nth_error l n = Some x -> last l d = x.
Proof.
  revert n. induction l as [|y l IH]; intros n Hlen Hn; [discriminate|].
  destruct l as [|z l].
  - destruct n; [|discriminate]. simpl in Hn. now injection Hn.
  - destruct n as [|n]; [discriminate|].
    change (last (y :: z :: l) d) with (last (z :: l) d).
    apply (IH n); [simpl in *; lia|exact Hn].
Qed.

Lemma last_Forall {A} (P : A -> Prop) (l : list A) (d : A) :
  Forall P l -> P d -> P (last l d).
Proof.
  induction 1 as [|x l Hx Hl IH]; intros Hd; [exact Hd|].
  destruct l; [exact Hx|]. now apply IH.
Qed.

(** C1. After a successful [Begin] the cumulative size is 0.  The
    [k]-th [Add] leaves the cumulative size at [s1 + ... + sk]
    (computed in [uint64]), whatever the earlier calls returned, and
    its first request is the data append at offset (new cumulative
    size - declared size), computed in [uint64] and passed as [int64];
    the handle is advanced before that request is built.  While the
    sum stays below [2^63] these are the exact sum and the sum of the
    earlier sizes.  [Commit] sends a zero-length append with the close
    flag at the final cumulative size.  For the sizes 100 and 50 the
    cumulative size is 150, the second data append is at offset 100
    and the closing append at offset 150. *)
Theorem multipart_offsets (E : Env) (b : ADLv1) (key : string)
  (parts : list (string * Z)) (log log1 : list Request)
  (h : MultipartBlobCommitInput) :
  (forall u, uuid_FromString E (uuid_String E u) = inl u) ->
  MultipartBlobBegin E b key log = (Done (Ok h), log1) ->
  let sizes := map snd parts in
  exists lease steps log2,
    uuid_FromString E (mc_UploadId h) = inl lease
    /\ cumulative h = 0
    /\ add_parts E h parts log1 = (Done steps, log2)
    /\ (forall k body s,
           nth_error parts k = Some (body, s) ->
           exists st more,
             nth_error steps k = Some st
             /\ cumulative (step_handle st) = uint64 (partial_sum (S k) sizes)
             /\ step_requests st
                = data_append h lease body
                    (int64 (uint64 (cumulative (step_handle st) - s)))
                  :: more
             /\ (Forall (fun s => 0 <= s) sizes ->
                 partial_sum (S k) sizes < 2 ^ 63 ->
                 cumulative (step_handle st) = partial_sum (S k) sizes
                 /\ int64 (uint64 (cumulative (step_handle st) - s))
                    = partial_sum k sizes))
    /\ cumulative (handle_after h steps)
       = uint64 (partial_sum (List.length parts) sizes)
    /\ snd (MultipartBlobCommit E (handle_after h steps) log2)
       = log2 ++ [close_append h lease
                    (int64 (cumulative (handle_after h steps)))]
    /\ (sizes = [100; 50] ->
        cumulative (handle_after h steps) = 150
        /\ (exists st body more,
               nth_error steps 1 = Some st
               /\ step_requests st = data_append h lease body 100 :: more)
        /\ snd (MultipartBlobCommit E (handle_after h steps) log2)
           = log2 ++ [close_append h lease 150]).
Proof.
  intros Hround Hbegin sizes. subst sizes.
  destruct (MultipartBlobBegin_handle E b key log log1 h Hbegin)
    as (lease & Hh & _).
  assert (Hd : backendData h = ADLv1Data (mkCommitData 0))
    by (subst h; reflexivity).
  assert (Hparse : uuid_FromString E (mc_UploadId h) = inl lease)
    by (subst h; apply Hround).
  destruct (add_parts_run E parts h _ lease log1 Hd Hparse)
    as (steps & log2 & Hrun & Hlen & Hsame & Hsteps).
  cbn [Size] in Hsteps.
  assert (Hfinal : cumulative (handle_after h steps)
                   = uint64 (partial_sum (List.length parts) (map snd parts))).
  { destruct (List.length parts) as [|n] eqn:Hn.
    - destruct steps; [|discriminate].
      apply length_zero_iff_nil in Hn. subst parts.
      unfold handle_after, cumulative. simpl. now rewrite Hd.
    - destruct (nth_error parts n) as [[body s]|] eqn:Hnth.
      + destruct (Hsteps n body s Hnth) as (st & more & Hst & Hcum & _).
        unfold handle_after.
        rewrite (last_nth_error (map step_handle steps) h (step_handle st) n).
        * rewrite Hcum. reflexivity.
        * rewrite length_map. lia.
        * rewrite nth_error_map, Hst. reflexivity.
      + apply nth_error_None in Hnth. lia. }
  assert (Hcommit : snd (MultipartBlobCommit E (handle_after h steps) log2)
                    = log2 ++ [close_append h lease
                                 (int64 (cumulative (handle_after h steps)))]).
  { assert (Hlast : mc_Key (handle_after h steps) = mc_Key h
                    /\ mc_UploadId (handle_after h steps) = mc_UploadId h
                    /\ exists d', backendData (handle_after h steps)
                                  = ADLv1Data d').
    { unfold handle_after.
      apply (last_Forall
               (fun x => mc_Key x = mc_Key h
                         /\ mc_UploadId x = mc_UploadId h
                         /\ exists d', backendData x = ADLv1Data d')).
      - rewrite Forall_map. exact Hsame.
      - eauto. }
    destruct Hlast as (Hkey & Hid & d' & Hd').
    rewrite (MultipartBlobCommit_log E _ d' lease log2 Hd');
      [|now rewrite Hid].
    unfold close_append, cumulative. now rewrite Hkey, Hd'. }
  exists lease, steps, log2.
  split; [exact Hparse|]. split; [unfold cumulative; now rewrite Hd|].
  split; [exact Hrun|]. split; [|split; [exact Hfinal|split; [exact Hcommit|]]].
  - intros k body s Hk.
    destruct (Hsteps k body s Hk) as (st & more & Hst & Hcum & Hreq).
    exists st, more. rewrite Z.add_0_l in Hcum.
    split; [exact Hst|]. split; [exact Hcum|]. split; [exact Hreq|].
    intros Hpos Hbound.
    assert (Hs : nth_error (map snd parts) k = Some s)
      by (rewrite nth_error_map, Hk; reflexivity).
    pose proof (partial_sum_step k _ s Hs) as Hstep.
    pose proof (partial_sum_nonneg k _ Hpos) as Hk0.
    assert (0 <= s).
    { apply nth_error_In in Hs. rewrite Forall_forall in Hpos. auto. }
    pose proof (eq_refl : 2 ^ 63 = 9223372036854775808) as P63.
    pose proof (eq_refl : 2 ^ 64 = 18446744073709551616) as P64.
    rewrite Hcum. rewrite uint64_sub_l.
    rewrite !uint64_small by lia. split; [reflexivity|].
    rewrite int64_small by lia. lia.
  - intros Hsz.
    assert (Hparts : exists b1 b2, parts = [(b1, 100); (b2, 50)]).
    { destruct parts as [|[b1 s1] [|[b2 s2] [|]]];
        try discriminate.
      simpl in Hsz. injection Hsz as -> ->. eauto. }
    destruct Hparts as (b1 & b2 & Hparts).
    assert (H150 : cumulative (handle_after h steps) = 150).
    { rewrite Hfinal, Hsz, Hparts. reflexivity. }
    split; [exact H150|]. split.
    + destruct (Hsteps 1%nat b2 50) as (st & more & Hst & Hcum & Hreq);
        [now rewrite Hparts|].
      exists st, b2, more. split; [exact Hst|].
      rewrite Hreq, Hcum, Z.add_0_l, Hsz. reflexivity.
    + rewrite Hcommit, H150. reflexivity.
Qed.

Lemma multipart_offsets_witness :
  let E := example_env [] not_found_listing always_ok in
  (forall u, uuid_FromString E (uuid_String E u) = inl u)
  /\ MultipartBlobBegin E example_backend "f" []
     = (Done (Ok example_handle),
        [CreateReq "f" "" (Some true) DATA (Some "lease") (Some 420)])
  /\ exists steps log2,
      add_parts E example_handle [("part one", 100); ("part two", 50)]
        [CreateReq "f" "" (Some true) DATA (Some "lease") (Some 420)]
      = (Done steps, log2)
      /\ cumulative (handle_after example_handle steps) = 150.
Proof.
  intros E.
  assert (H1 : forall u, uuid_FromString E (uuid_String E u) = inl u)
    by (intros u; reflexivity).
  assert (H2 : MultipartBlobBegin E example_backend "f" []
               = (Done (Ok example_handle),
                  [CreateReq "f" "" (Some true) DATA (Some "lease")
                     (Some 420)]))
    by reflexivity.
  split; [exact H1|]. split; [exact H2|].
  destruct (multipart_offsets E example_backend "f"
              [("part one", 100); ("part two", 50)] [] _ example_handle
              H1 H2)
    as (lease & steps & log2 & _ & _ & Hrun & _ & _ & _ & Hex).
  exists steps, log2. split; [exact Hrun|]. apply Hex. reflexivity.
Defined.

(** C3. [Commit] sends exactly one request, the zero-length append
    with the close flag at the cumulative size.  When its reply is
    classified as not-found, [Commit] succeeds; any other error of the
    classifier is returned; no error means success. *)
Theorem commit_after_delete (E : Env) (h : MultipartBlobCommitInput)
  (d : ADLv1MultipartBlobCommitInput) (lease : UUID) (log : list Request) :
  backendData h = ADLv1Data d ->
  uuid_FromString E (mc_UploadId h) = inl lease ->
  let req := close_append h lease (int64 (Size d)) in
  let reply := adl_Append E log req in
  let c := mapADLv1Error E (fst reply) (snd reply) false in
  snd (MultipartBlobCommit E h log) = log ++ [req]
  /\ (c = Some ENOENT -> fst (MultipartBlobCommit E h log) = Done (Ok tt))
  /\ (forall e, c = Some e -> e <> ENOENT ->
                fst (MultipartBlobCommit E h log) = Done (Err e))
  /\ (c = None -> fst (MultipartBlobCommit E h log) = Done (Ok tt)).
Proof.
  intros Hd Hparse req reply c.
  split; [now apply MultipartBlobCommit_log|].
  subst c reply req.
  unfold MultipartBlobCommit. rewrite Hd, Hparse.
  unfold bind, client_Append, ret, close_append. cbn [fst snd].
  destruct (adl_Append E log _) as [res err]. cbn [fst snd].
  destruct (mapADLv1Error E res err false) as [e|].
  - split; [|split].
    + intros H. injection H as ->. reflexivity.
    + intros e' H Hne. injection H as <-.
      assert (Hno : is_ENOENT (Some e) = false).
      { destruct e as [code| |]; try reflexivity.
        simpl. apply Z.eqb_neq. intros ->. now apply Hne. }
      rewrite Hno. reflexivity.
    + discriminate.
  - split; [discriminate|]. split; [discriminate|reflexivity].
Qed.

Lemma commit_after_delete_witness :
  let E := example_env [] not_found_listing always_404 in
  backendData example_handle = ADLv1Data (mkCommitData 0)
  /\ uuid_FromString E (mc_UploadId example_handle) = inl "lease"
  /\ MultipartBlobCommit E example_handle []
     = (Done (Ok tt),
        [AppendReq "f" "" (Some 0) CLOSE (Some "lease") (Some "lease")]).
Proof.
  intros E. split; [reflexivity|]. split; [reflexivity|].
  destruct (commit_after_delete E example_handle (mkCommitData 0) "lease" []
              eq_refl eq_refl) as (Hlog & Hnf & _).
  specialize (Hnf eq_refl).
  destruct (MultipartBlobCommit E example_handle []) as [r l].
  simpl in Hlog, Hnf. now subst.
Defined.

(** C2 (corrected).  Let the reply to the data append of an [Add] be
    classified as a structured error whose exception is
    [BadOffsetException].  When the status of that reply is 400, the
    adapter sends one more request: a zero-length append with the
    close flag at the new cumulative size and with the same lease.
    If that probe is classified as no error, [Add] succeeds;
    otherwise [Add] returns the error that the status table gives for
    the reply to the original append ([EINVAL] where the table has no
    entry): not the structured error, and the reply to the probe
    plays no part in it.  When the status is not 400 no probe is
    sent, and [Add] returns [EINVAL] for status 404 and the error of
    the status table for any other status. *)
Theorem bad_offset_recovery (E : Env) (h : MultipartBlobCommitInput)
  (d : ADLv1MultipartBlobCommitInput) (lease : UUID) (pn : Z)
  (body : string) (s : Z) (log : list Request)
  (exn : RemoteExceptionT) (resp : http_Response) :
  backendData h = ADLv1Data d ->
  uuid_FromString E (mc_UploadId h) = inl lease ->
  let new := uint64 (Size d + s) in
  let req := data_append h lease body (int64 (uint64 (new - s))) in
  let reply := adl_Append E log req in
  mapADLv1Error E (fst reply) (snd reply) true = Some (ADLv1Err exn resp) ->
  Exception exn = "BadOffsetException" ->
  let probe := close_append h lease (int64 new) in
  let preply := adl_Append E (log ++ [req]) probe in
  let pc := mapADLv1Error E (fst preply) (snd preply) false in
  let table_error := match mapHttpError E (StatusCode resp) with
                     | Some e => e
                     | None => EINVAL
                     end in
  fst reply = Some resp
  /\ mapADLv1Error E (fst reply) (snd reply) false = Some table_error
  /\ (StatusCode resp = 400 ->
      snd (MultipartBlobAdd E (mkAdd h pn body s) log) = log ++ [req; probe]
      /\ (pc = None ->
          fst (MultipartBlobAdd E (mkAdd h pn body s) log)
          = Done (Ok tt, advance h s))
      /\ (pc <> None ->
          fst (MultipartBlobAdd E (mkAdd h pn body s) log)
          = Done (Err table_error, advance h s)))
  /\ (StatusCode resp <> 400 ->
      MultipartBlobAdd E (mkAdd h pn body s) log
      = (Done (Err (if StatusCode resp =? 404 then EINVAL else table_error),
               advance h s),
         log ++ [req])).
Proof.
  intros Hd Hparse new req reply Hc Hexn probe preply pc table_error.
  pose proof (structured_error_inv E _ _ _ _ Hc) as Hres.
  assert (Hagain : forall e,
             mapADLv1Error E (Some resp) e false = Some table_error).
  { intros e. unfold mapADLv1Error in Hc |- *. rewrite Hres in Hc.
    destruct ((StatusCode resp <? 200) || (StatusCode resp >=? 300));
      [|discriminate].
    subst table_error. destruct (mapHttpError E (StatusCode resp));
      reflexivity. }
  split; [exact Hres|].
  split; [rewrite Hres; apply Hagain|].
  unfold MultipartBlobAdd.
  cbn [Commit PartNumber add_Body add_Size]. rewrite Hd. unfold bind.
  pose proof (uploadPart_run E (advance h s) pn body s
                (uint64 (Size d + s)) lease log Hparse) as Hrun.
  unfold advance, cumulative in *. rewrite Hd in *.
  cbn [Size backendData] in *.
  rewrite Hrun. clear Hrun.
  change (data_append _ lease body _) with req.
  change (adl_Append E log req) with reply. rewrite Hc.
  rewrite Hexn, String.eqb_refl, andb_true_r.
  change (close_append _ lease _) with probe.
  change (adl_Append E (log ++ [req]) probe) with preply.
  fold pc. rewrite Hagain. split.
  - intros H400. rewrite H400. cbn [Z.eqb Pos.eqb]. rewrite <- app_assoc.
    destruct pc as [e|]; cbn [fst snd app].
    + split; [reflexivity|]. split; [discriminate|reflexivity].
    + split; [reflexivity|]. split; [reflexivity|].
      intros H. now elim H.
  - intros Hne. apply Z.eqb_neq in Hne. rewrite Hne.
    destruct (StatusCode resp =? 404); reflexivity.
Qed.

Lemma bad_offset_recovery_witness :
  let E := example_env [] not_found_listing bad_offset_then_ok in
  MultipartBlobAdd E (mkAdd example_handle 1 "data" 100) []
  = (Done (Ok tt, advance example_handle 100),
     [AppendReq "f" "data" (Some 0) DATA (Some "lease") (Some "lease");
      AppendReq "f" "" (Some 100) CLOSE (Some "lease") (Some "lease")]).
Proof.
  intros E.
  destruct (bad_offset_recovery E example_handle (mkCommitData 0) "lease" 1
              "data" 100 []
              (mkRemoteException "BadOffsetException" "" "")
              (http_status 400 "BadOffsetException")
              eq_refl eq_refl eq_refl eq_refl)
    as (_ & _ & H400 & _).
  destruct (H400 eq_refl) as (Hlog & Hok & _).
  specialize (Hok eq_refl).
  destruct (MultipartBlobAdd E (mkAdd example_handle 1 "data" 100) [])
    as [r l].
  simpl in Hlog, Hok. now subst.
Defined.

(** C2, against the claim as written.  Every append, the probe
    included, is refused with status 400 and a body that decodes to
    [BadOffsetException].  The original classified error is the
    structured error carrying that exception; [Add] sends the data
    append and the probe and returns what the status table has for
    400 ([EINVAL] where it has nothing), which is another error.
    With status 409 and the same exception the classified error is
    again a structured [BadOffsetException], yet no probe is sent. *)
Theorem bad_offset_error_is_not_returned :
  (forall table : Z -> option error,
      let E := example_env_with table [] not_found_listing
                 (always_refused 400 "BadOffsetException") in
      let data := AppendReq "f" "data" (Some 0) DATA (Some "lease")
                    (Some "lease") in
      let probe := AppendReq "f" "" (Some 100) CLOSE (Some "lease")
                     (Some "lease") in
      let original :=
        ADLv1Err (mkRemoteException "BadOffsetException" "" "")
          (http_status 400 "BadOffsetException") in
      (let reply := adl_Append E [] data in
       mapADLv1Error E (fst reply) (snd reply) true) = Some original
      /\ MultipartBlobAdd E (mkAdd example_handle 1 "data" 100) []
         = (Done (Err (match table 400 with
                       | Some e => e
                       | None => EINVAL
                       end),
                  advance example_handle 100),
            [data; probe]))
  /\ (let E := example_env [] not_found_listing
                 (always_refused 400 "BadOffsetException") in
      let original :=
        ADLv1Err (mkRemoteException "BadOffsetException" "" "")
          (http_status 400 "BadOffsetException") in
      fst (MultipartBlobAdd E (mkAdd example_handle 1 "data" 100) [])
      = Done (Err EINVAL, advance example_handle 100)
      /\ EINVAL <> original)
  /\ (let E := example_env [] not_found_listing
                 (always_refused 409 "BadOffsetException") in
      let data := AppendReq "f" "data" (Some 0) DATA (Some "lease")
                    (Some "lease") in
      (let reply := adl_Append E [] data in
       mapADLv1Error E (fst reply) (snd reply) true)
      = Some (ADLv1Err (mkRemoteException "BadOffsetException" "" "")
                (http_status 409 "BadOffsetException"))
      /\ MultipartBlobAdd E (mkAdd example_handle 1 "data" 100) []
         = (Done (Err EINVAL, advance example_handle 100), [data])).
Proof.
  split; [|split].
  - intros table. cbv zeta. split; [reflexivity|].
    vm_compute. destruct (table 400); reflexivity.
  - cbv zeta. split; [reflexivity|discriminate].
  - cbv zeta. split; reflexivity.
Qed.

(** ** Listing *)

Section Listing.

Variable E : Env.
Variable b : ADLv1.

(** One call of [appendToListResults], step by step. *)
Lemma appendToListResults_unfold (fuel : nat) (p : string) (recursive : bool)
  (startAfter : string) (maxKeys : option Z)
  (prefixes : list BlobPrefixOutput) (items : list BlobItemOutput)
  (log : list Request) :
  appendToListResults E b (S fuel) p recursive startAfter maxKeys
    prefixes items log
  = let log1 := log ++ [list_request b p] in
    let reply := adl_ListFileStatus E log (path b p) in
    match mapADLv1Error E (fs_Response (fst reply)) (snd reply) false with
    | Some e =>
        (Done (mkListRet emptyFileStatusesResult [] [] (Some e) maxKeys),
         log1)
    | None =>
        match FileStatus (fst reply) with
        | None => (Panicked "nil pointer dereference", log1)
        | Some entries =>
            if negb (p =? "")%string && single_empty_suffix entries then
              (Done (mkListRet (fst reply) prefixes
                       (if negb (strings.HasSuffix p "/") then
                          items ++ [adlv1FileStatus2BlobItem
                                      (hd (mkFileStatus "" "" 0 0) entries) p]
                        else items)
                       None maxKeys),
               log1)
            else
              match
                list_loop (appendToListResults E b fuel)
                  (strings.TrimRight p "/") recursive entries
                  (mkLoopVars (fst (own_rows p recursive prefixes items))
                     (snd (own_rows p recursive prefixes items)) None
                     (spend maxKeys (List.length entries)))
                  log1
              with
              | (Done v, log2) =>
                  (Done (mkListRet (fst reply) (lv_prefixes v) (lv_items v)
                           None (lv_maxKeys v)),
                   log2)
              | (Panicked msg, log2) => (Panicked msg, log2)
              | (OutOfFuel, log2) => (OutOfFuel, log2)
              end
        end
    end.
Proof.
  cbn [appendToListResults]. unfold bind at 1.
  unfold client_ListFileStatus, list_request. cbv zeta.
  destruct (adl_ListFileStatus E log (path b p)) as [res err].
  cbn [fst snd].
  destruct (mapADLv1Error E (fs_Response res) err false); [reflexivity|].
  unfold bind at 1.
  destruct (FileStatus res) as [entries|]; [|reflexivity].
  cbn [deref ret].
  destruct (negb (p =? "")%string && single_empty_suffix entries);
    [reflexivity|].
  unfold own_rows, spend.
  destruct (negb (p =? "")%string && negb recursive);
    [destruct (strings.HasSuffix p "/")|]; reflexivity.
Qed.

(** One turn of the loop over the entries. *)
Lemma list_loop_cons
  (self : string -> bool -> string -> option Z -> list BlobPrefixOutput ->
          list BlobItemOutput -> M ListRet)
  (dir : string) (recursive : bool) (i : FileStatusProperties)
  (rest : list FileStatusProperties) (v : LoopVars) (log : list Request) :
  list_loop self dir recursive (i :: rest) v log
  = let key := join_key dir (PathSuffix i) in
    if (Type_ i =? "DIRECTORY")%string then
      if recursive then
        match
          self key recursive "" (lv_maxKeys v) (lv_prefixes v)
            (lv_items v ++ [adlv1FileStatus2BlobItem i (key ++ "/")%string])
            log
        with
        | (Done r, log1) =>
            list_loop self dir recursive rest
              (mkLoopVars (lr_prefixes r) (lr_items r) (lr_err r)
                 (lr_maxKeys r))
              log1
        | (Panicked msg, log1) => (Panicked msg, log1)
        | (OutOfFuel, log1) => (OutOfFuel, log1)
        end
      else
        list_loop self dir recursive rest
          (mkLoopVars (lv_prefixes v ++ [mkPrefix (key ++ "/")%string])
             (lv_items v) (lv_err v) (lv_maxKeys v))
          log
    else
      list_loop self dir recursive rest
        (mkLoopVars (lv_prefixes v)
           (lv_items v ++ [adlv1FileStatus2BlobItem i key])
           (lv_err v) (lv_maxKeys v))
        log.
Proof.
  cbn [list_loop]. unfold join_key. cbv zeta.
  destruct (Type_ i =? "DIRECTORY")%string; [|reflexivity].
  destruct recursive; reflexivity.
Qed.

(** Without recursion the loop over the entries sends nothing and
    leaves the budget and the error variable alone. *)
Lemma list_loop_delimited
  (self : string -> bool -> string -> option Z -> list BlobPrefixOutput ->
          list BlobItemOutput -> M ListRet)
  (dir : string) (entries : list FileStatusProperties) :
  forall (v : LoopVars) (log : list Request),
  exists v',
    list_loop self dir false entries v log = (Done v', log)
    /\ lv_maxKeys v' = lv_maxKeys v
    /\ lv_err v' = lv_err v.
Proof.
  induction entries as [|i rest IH]; intros v log.
  - exists v. repeat split.
  - rewrite list_loop_cons. cbv zeta.
    destruct (Type_ i =? "DIRECTORY")%string;
      match goal with
      | |- context [list_loop self dir false rest ?v0 log] =>
          destruct (IH v0 log) as (v' & Hrun & Hmk & Herr)
      end;
      exists v'; repeat split; assumption.
Qed.

(** A delimited listing sends exactly one request, which carries no
    listing marker, and returns. *)
Lemma appendToListResults_delimited (fuel : nat) (p startAfter : string)
  (maxKeys : option Z) (prefixes : list BlobPrefixOutput)
  (items : list BlobItemOutput) (log : list Request) :
  snd (appendToListResults E b (S fuel) p false startAfter maxKeys
         prefixes items log)
  = log ++ [list_request b p]
  /\ fst (appendToListResults E b (S fuel) p false startAfter maxKeys
            prefixes items log) <> OutOfFuel.
Proof.
  rewrite appendToListResults_unfold. cbv zeta.
  destruct (mapADLv1Error E _ _ false);
    [split; [reflexivity|discriminate]|].
  destruct (FileStatus _) as [entries|];
    [|split; [reflexivity|discriminate]].
  destruct (negb (p =? "")%string && single_empty_suffix entries);
    [split; [reflexivity|discriminate]|].
  match goal with
  | |- context [list_loop ?self ?dir false entries ?v ?l] =>
      destruct (list_loop_delimited self dir entries v l)
        as (v' & Hrun & _)
  end.
  rewrite Hrun. split; [reflexivity|discriminate].
Qed.

(** What [ListBlobs] makes of the return of [appendToListResults]. *)
Lemma ListBlobs_run (fuel : nat) (param : ListBlobsInput) (recursive : bool)
  (log : list Request) :
  (in_Delimiter param = Some "/" /\ recursive = false)
  \/ (in_Delimiter param = None /\ in_ContinuationToken param = None
      /\ in_StartAfter param = None /\ recursive = true) ->
  ListBlobs E b fuel param log
  = match
      appendToListResults E b fuel (nilStr (in_Prefix param)) recursive
        (nilStr (match in_StartAfter param with
                 | Some _ => in_StartAfter param
                 | None => in_ContinuationToken param
                 end))
        (in_MaxKeys param) [] [] log
    with
    | (Done r, log') =>
        (Done
           (match lr_err r with
            | Some e =>
                if is_ENOENT (Some e)
                then Ok (mkListBlobsOutput (lr_prefixes r) (lr_items r) false)
                else Err e
            | None => Ok (mkListBlobsOutput (lr_prefixes r) (lr_items r) false)
            end,
            lr_maxKeys r),
         log')
    | (Panicked msg, log') => (Panicked msg, log')
    | (OutOfFuel, log') => (OutOfFuel, log')
    end.
Proof.
  intros [[Hd ->]|(Hd & Hct & Hsa & ->)]; unfold ListBlobs;
    rewrite Hd; try rewrite Hct, Hsa; cbn [String.eqb Ascii.eqb Bool.eqb negb];
    unfold bind;
    destruct (appendToListResults E b fuel _ _ _ _ _ _ log)
      as [[r|msg|] log']; try reflexivity;
    destruct (lr_err r) as [e|]; try reflexivity;
    destruct (is_ENOENT (Some e)); reflexivity.
Qed.

End Listing.

(** C10. A listing with delimiter ["/"] sends exactly one request, a
    directory listing of the mapped prefix whose marker arguments are
    empty, and it returns (one unit of recursion fuel is enough).  Two
    such listings that differ only in [ContinuationToken] and
    [StartAfter], started in the same state of the remote side, return
    the same result and leave the same log. *)
Theorem listing_ignores_markers (E : Env) (b : ADLv1) (fuel : nat)
  (prefix : option string) (maxKeys : option Z)
  (token after token' after' : option string) (log : list Request) :
  ListBlobs E b (S fuel)
    (mkListBlobsInput prefix (Some "/") maxKeys token after) log
  = ListBlobs E b (S fuel)
      (mkListBlobsInput prefix (Some "/") maxKeys token' after') log
  /\ snd (ListBlobs E b (S fuel)
            (mkListBlobsInput prefix (Some "/") maxKeys token after) log)
     = log ++ [ListFileStatusReq (path b (nilStr prefix)) None "" ""]
  /\ fst (ListBlobs E b (S fuel)
            (mkListBlobsInput prefix (Some "/") maxKeys token after) log)
     <> OutOfFuel.
Proof.
  rewrite !(ListBlobs_run E b (S fuel) _ false log) by (left; split; reflexivity).
  cbn [in_Prefix in_MaxKeys in_StartAfter in_ContinuationToken].
  split; [reflexivity|].
  destruct (appendToListResults_delimited E b fuel (nilStr prefix)
              (nilStr (match after with Some _ => after | None => token end))
              maxKeys [] [] log) as [Hlog Hfuel].
  destruct (appendToListResults E b (S fuel) _ false _ maxKeys [] [] log)
    as [[r|msg|] log'] eqn:Hrun; cbn [fst snd] in *.
  - split; [exact Hlog|discriminate].
  - split; [exact Hlog|discriminate].
  - now elim Hfuel.
Qed.

Lemma string_length_append (x y : string) :
  String.length (x ++ y) = (String.length x + String.length y)%nat.
Proof. induction x as [|c x IH]; simpl; [reflexivity|now rewrite IH]. Qed.

Lemma HasSuffix_append (x y : string) :
  y <> "" -> strings.HasSuffix (x ++ y) "/" = strings.HasSuffix y "/".
Proof.
  intros Hy. induction x as [|c x IH]; [reflexivity|].
  cbn [append strings.HasSuffix]. rewrite IH.
  replace (String c (x ++ y) =? "/")%string with false; [reflexivity|].
  symmetry. apply String.eqb_neq. intros H. injection H as _ H.
  destruct x; simpl in H; [contradiction|discriminate].
Qed.

Lemma TrimRight_keeps (s : string) :
  strings.HasSuffix s "/" = false -> strings.TrimRight s "/" = s.
Proof.
  induction s as [|c s IH]; [reflexivity|].
  cbn [strings.HasSuffix strings.TrimRight]. intros H.
  apply orb_false_iff in H. destruct H as [Hc Hs].
  rewrite (IH Hs). destruct s as [|c' s']; [|reflexivity].
  rewrite in_cutset_slash.
  destruct (Ascii.eqb_spec c "/") as [->|_]; [discriminate|reflexivity].
Qed.

Lemma join_key_no_suffix (dir name : string) :
  name <> "" -> strings.HasSuffix name "/" = false ->
  strings.HasSuffix (join_key dir name) "/" = false.
Proof.
  intros Hne Hs. unfold join_key.
  destruct (negb (dir =? "")%string); [|exact Hs].
  rewrite HasSuffix_append by discriminate.
  change ("/" ++ name)%string with (String "/" name).
  cbn [strings.HasSuffix]. rewrite Hs, orb_false_r.
  apply String.eqb_neq. intros H. injection H as H. contradiction.
Qed.

(** C5. A listing with delimiter ["/"] of a prefix [d] whose remote
    listing succeeds with exactly a leaf [a] and a directory [b], in
    either order, sends that one listing request and no other.  Its
    prefix rows are the row of [b] (key of [b], then ["/"]) preceded,
    when [d] is not empty and has no trailing ["/"], by the row
    [d ++ "/"] of the prefix itself; its item rows are the row of [a]
    preceded, when [d] ends in ["/"], by the row of [d] itself.  Keys
    are joined to [d] without its trailing delimiters.  The row of [b]
    occurs exactly once among the prefixes and the row of [a] exactly
    once among the items. *)
Theorem delimited_listing_rows (E : Env) (b : ADLv1) (fuel : nat)
  (prefix : option string) (maxKeys : option Z)
  (token after : option string) (log : list Request)
  (resp : option http_Response) (err : option error)
  (es : list FileStatusProperties) (ea eb : FileStatusProperties) :
  let d := nilStr prefix in
  adl_ListFileStatus E log (path b d) = (mkFileStatuses resp (Some es), err) ->
  mapADLv1Error E resp err false = None ->
  es = [ea; eb] \/ es = [eb; ea] ->
  Type_ ea <> "DIRECTORY" ->
  Type_ eb = "DIRECTORY" ->
  PathSuffix ea <> "" ->
  strings.HasSuffix (PathSuffix ea) "/" = false ->
  let dir := strings.TrimRight d "/" in
  let row_a := adlv1FileStatus2BlobItem ea (join_key dir (PathSuffix ea)) in
  let row_b := mkPrefix (join_key dir (PathSuffix eb) ++ "/")%string in
  exists out,
    ListBlobs E b (S fuel)
      (mkListBlobsInput prefix (Some "/") maxKeys token after) log
    = (Done (Ok out, spend maxKeys 2),
       log ++ [ListFileStatusReq (path b d) None "" ""])
    /\ Prefixes out
       = (if (d =? "")%string || strings.HasSuffix d "/" then []
          else [mkPrefix (d ++ "/")%string]) ++ [row_b]
    /\ Items out
       = (if negb (d =? "")%string && strings.HasSuffix d "/"
          then [mkItem d None 0] else []) ++ [row_a]
    /\ count_prefix (Prefix row_b) (Prefixes out) = 1%nat
    /\ count_item (item_Key row_a) (Items out) = 1%nat
    /\ IsTruncated out = false.
Proof.
  intros d Hreply Hclass Hes Hta Htb Hne Hsuf dir row_a row_b.
  apply String.eqb_neq in Hta. apply String.eqb_eq in Htb.
  rewrite (ListBlobs_run E b (S fuel) _ false log)
    by (left; split; reflexivity).
  cbn [in_Prefix in_MaxKeys in_StartAfter in_ContinuationToken].
  fold d. rewrite appendToListResults_unfold. cbv zeta.
  rewrite Hreply. cbn [fst snd fs_Response FileStatus]. rewrite Hclass.
  assert (Hsingle : single_empty_suffix es = false)
    by (destruct Hes; subst es; reflexivity).
  assert (Hlen : List.length es = 2%nat)
    by (destruct Hes; subst es; reflexivity).
  rewrite Hsingle, andb_false_r, Hlen. fold dir.
  assert (Hloop : forall v l,
             list_loop (appendToListResults E b fuel) dir false es v l
             = (Done (mkLoopVars (lv_prefixes v ++ [row_b])
                        (lv_items v ++ [row_a]) (lv_err v) (lv_maxKeys v)),
                l)).
  { intros v l. destruct Hes; subst es; rewrite !list_loop_cons; cbv zeta;
      rewrite ?Hta, ?Htb; cbn [list_loop ret lv_prefixes lv_items lv_err
                                lv_maxKeys];
      rewrite ?Hta, ?Htb; reflexivity. }
  rewrite Hloop. cbn [lv_prefixes lv_items lv_err lv_maxKeys lr_err].
  eexists. split; [reflexivity|].
  cbn [Prefixes Items IsTruncated lr_prefixes lr_items].
  unfold own_rows. cbn [negb andb].
  rewrite andb_true_r.
  assert (Hkey_a : strings.HasSuffix (item_Key row_a) "/" = false)
    by (apply join_key_no_suffix; assumption).
  destruct (d =? "")%string eqn:Hd; cbn [negb orb andb fst snd app].
  - unfold count_prefix, count_item. cbn [filter].
    rewrite !String.eqb_refl. repeat split; reflexivity.
  - destruct (strings.HasSuffix d "/") eqn:Hds; cbn [fst snd app].
    + unfold count_prefix, count_item. cbn [filter item_Key].
      rewrite !String.eqb_refl.
      replace (d =? item_Key row_a)%string with false;
        [repeat split; reflexivity|].
      symmetry. apply String.eqb_neq. intros Heq.
      rewrite <- Heq in Hkey_a. congruence.
    + unfold count_prefix, count_item. cbn [filter Prefix].
      rewrite !String.eqb_refl.
      replace (d ++ "/" =? Prefix row_b)%string with false;
        [repeat split; reflexivity|].
      symmetry. apply String.eqb_neq. intros Heq.
      apply (f_equal String.length) in Heq. revert Heq.
      unfold row_b, dir, join_key. cbn [Prefix].
      rewrite (TrimRight_keeps d Hds), Hd. cbn [negb].
      rewrite !string_length_append. simpl. lia.
Qed.

(** C5, as stated, at a concrete input.  Listing ["d"] with delimiter
    ["/"] returns two prefix rows, ["d/"] for the prefix itself and
    ["d/b/"]; listing ["d/"] returns two item rows, ["d/"] for the
    directory object itself and ["d/a"].  In neither case are the
    rows of the children the only rows of the result. *)
Lemma delimited_listing_own_row :
  let E := example_env example_dirs not_found_listing always_ok in
  ListBlobs E example_backend 1
    (mkListBlobsInput (Some "d") (Some "/") None None None) []
  = (Done (Ok (mkListBlobsOutput [mkPrefix "d/"; mkPrefix "d/b/"]
                 [mkItem "d/a" (Some (mkTime 0 0)) 0] false),
           None),
     [ListFileStatusReq "d" None "" ""])
  /\ ListBlobs E example_backend 1
       (mkListBlobsInput (Some "d/") (Some "/") None None None) []
     = (Done (Ok (mkListBlobsOutput [mkPrefix "d/b/"]
                    [mkItem "d/" None 0;
                     mkItem "d/a" (Some (mkTime 0 0)) 0] false),
              None),
        [ListFileStatusReq "d/" None "" ""]).
Proof. split; reflexivity. Qed.

Lemma delimited_listing_rows_witness :
  ListBlobs (example_env example_dirs not_found_listing always_ok)
    example_backend 1
    (mkListBlobsInput (Some "d") (Some "/") None None None) []
  = (Done (Ok (mkListBlobsOutput [mkPrefix "d/"; mkPrefix "d/b/"]
                 [mkItem "d/a" (Some (mkTime 0 0)) 0] false),
           None),
     [ListFileStatusReq "d" None "" ""]).
Proof.
  destruct (delimited_listing_rows
              (example_env example_dirs not_found_listing always_ok)
              example_backend 0 (Some "d") None None None []
              (Some http_ok) None [file_entry "a"; dir_entry "b"]
              (file_entry "a") (dir_entry "b")
              eq_refl eq_refl (or_introl eq_refl)
              ltac:(discriminate) eq_refl ltac:(discriminate) eq_refl)
    as (out & Hrun & Hp & Hi & _ & _ & Ht).
  rewrite Hrun. destruct out as [pf it tr]. simpl in Hp, Hi, Ht.
  subst. reflexivity.
Defined.

(** ** The key budget *)

Lemma uint32_sub_r (x y : Z) : uint32 (x - uint32 y) = uint32 (x - y).
Proof. unfold uint32. apply Zminus_mod_idemp_r. Qed.

Lemma uint32_sub_l (x y : Z) : uint32 (uint32 x - y) = uint32 (x - y).
Proof. unfold uint32. apply Zminus_mod_idemp_l. Qed.

Lemma spend_shift (maxKeys : option Z) (n : nat) :
  spend maxKeys n = shift (Z.of_nat n) maxKeys.
Proof. destruct maxKeys; simpl; [now rewrite uint32_sub_r|reflexivity]. Qed.

Lemma shift_shift (k1 k2 : Z) (maxKeys : option Z) :
  shift k2 (shift k1 maxKeys) = shift (k1 + k2) maxKeys.
Proof.
  destruct maxKeys as [m|]; simpl; [|reflexivity].
  rewrite uint32_sub_l. do 2 f_equal. lia.
Qed.

Lemma shift_0 (maxKeys : option Z) :
  budget_ok maxKeys -> shift 0 maxKeys = maxKeys.
Proof.
  destruct maxKeys as [m|]; simpl; [|reflexivity].
  intros H. unfold uint32. rewrite Z.sub_0_r, Z.mod_small; auto.
Qed.

Lemma shift_ok (k : Z) (maxKeys : option Z) : budget_ok (shift k maxKeys).
Proof.
  destruct maxKeys as [m|]; simpl; [|exact I].
  unfold uint32. apply Z.mod_pos_bound. reflexivity.
Qed.

Section Budget.

Variable E : Env.
Variable b : ADLv1.



End Budget.

(** ** Recursive listing when a nested directory listing fails *)

(** The top-level treatment of not-found: whatever the mode, when the
    listing of the queried prefix itself is classified as not-found,
    [ListBlobs] returns an empty result and no error, having sent that
    one request. *)
Lemma top_level_not_found (E : Env) (b : ADLv1) (fuel : nat)
  (param : ListBlobsInput) (recursive : bool) (log : list Request) :
  (in_Delimiter param = Some "/" /\ recursive = false)
  \/ (in_Delimiter param = None /\ in_ContinuationToken param = None
      /\ in_StartAfter param = None /\ recursive = true) ->
  (let reply := adl_ListFileStatus E log (path b (nilStr (in_Prefix param))) in
   mapADLv1Error E (fs_Response (fst reply)) (snd reply) false
   = Some ENOENT) ->
  ListBlobs E b (S fuel) param log
  = (Done (Ok (mkListBlobsOutput [] [] false), in_MaxKeys param),
     log ++ [list_request b (nilStr (in_Prefix param))]).
Proof.
  intros Hmode Hnf. cbv zeta in Hnf.
  rewrite (ListBlobs_run E b (S fuel) param recursive log Hmode).
  rewrite appendToListResults_unfold. cbv zeta. rewrite Hnf. reflexivity.
Qed.

(** C6, at a failing input.  The root holds a directory ["x"] and a
    leaf ["y"]; the listing of the root succeeds, the listing of ["x"]
    issued by the recursion fails with status 500, which every status
    table classifies as some error.  The error is dropped, the rows
    gathered so far are lost with it, and the listing returns the row
    of ["y"] alone: the directory ["x"] that was met has no row
    ["x/"] in the result. *)
Theorem recursive_listing_loses_rows (table : Z -> option error) :
  let E := example_env_with table root_with_lost_dir server_error_listing
             always_ok in
  let first := [ListFileStatusReq "" None "" ""] in
  listed E example_backend [] "" = Some [dir_entry "x"; file_entry "y"]
  /\ (let reply := adl_ListFileStatus E first "x" in
      mapADLv1Error E (fs_Response (fst reply)) (snd reply) false)
     <> None
  /\ exists out,
      ListBlobs E example_backend 2 list_everything []
      = (Done (Ok out, None), first ++ [ListFileStatusReq "x" None "" ""])
      /\ Prefixes out = []
      /\ Items out = [mkItem "y" (Some (mkTime 0 0)) 0]
      /\ count_item "x/" (Items out) = 0%nat.
Proof.
  intros E first. subst E first. split; [reflexivity|]. split.
  - vm_compute. destruct (table 500); discriminate.
  - exists (mkListBlobsOutput [] [mkItem "y" (Some (mkTime 0 0)) 0] false).
    split; [|repeat split].
    vm_compute. destruct (table 500); reflexivity.
Qed.

(** C7, at a failing input.  The root holds the directory ["x"] only;
    the listing of the root succeeds, the listing of ["x"] issued by
    the recursion is classified as not-found.  The whole listing
    returns an empty result and no error: a not-found met during the
    recursion is turned into an empty result as well. *)
Theorem nested_not_found_is_swallowed :
  let E := example_env root_with_only_lost_dir not_found_listing always_ok in
  let first := [ListFileStatusReq "" None "" ""] in
  listed E example_backend [] "" = Some [dir_entry "x"]
  /\ (let reply := adl_ListFileStatus E first "x" in
      mapADLv1Error E (fs_Response (fst reply)) (snd reply) false)
     = Some ENOENT
  /\ ListBlobs E example_backend 2 list_everything []
     = (Done (Ok (mkListBlobsOutput [] [] false), None),
        first ++ [ListFileStatusReq "x" None "" ""]).
Proof.
  intros E first. split; [reflexivity|]. split; reflexivity.
Qed.

(** ** Recursive listing when every directory listing succeeds *)

Lemma listed_Some (E : Env) (b : ADLv1) (log : list Request) (key : string)
  (es : list FileStatusProperties) :
  listed E b log key = Some es ->
  mapADLv1Error E
    (fs_Response (fst (adl_ListFileStatus E log (path b key))))
    (snd (adl_ListFileStatus E log (path b key))) false = None
  /\ FileStatus (fst (adl_ListFileStatus E log (path b key))) = Some es.
Proof.
  unfold listed. cbv zeta.
  destruct (mapADLv1Error E _ _ false); [discriminate|]. auto.
Qed.

(** Along a traversal without failures the recursive listing returns,
    leaves the prefixes as they were, appends exactly the rows of the
    traversal to the items (one row per leaf, and per directory entry
    its own row followed by the rows of its subtree), and charges the
    entries fetched by its directory calls to the budget. *)
Lemma walk_rows (E : Env) (b : ADLv1) :
  (forall n log key rows fetched log',
      walk E b n log key rows fetched log' ->
      0 <= fetched
      /\ forall startAfter maxKeys prefixes items,
          budget_ok maxKeys ->
          exists res,
            appendToListResults E b n key true startAfter maxKeys prefixes
              items log
            = (Done (mkListRet res prefixes (items ++ rows) None
                       (shift fetched maxKeys)),
               log'))
  /\ (forall n log dir es rows fetched log',
         walk_entries E b n log dir es rows fetched log' ->
         0 <= fetched
         /\ forall v,
             budget_ok (lv_maxKeys v) ->
             exists v',
               list_loop (appendToListResults E b n) dir true es v log
               = (Done v', log')
               /\ lv_prefixes v' = lv_prefixes v
               /\ lv_items v' = lv_items v ++ rows
               /\ lv_maxKeys v' = shift fetched (lv_maxKeys v)).
Proof.
  apply walk_mutind.
  - intros n log key es Hes Hfile. split; [lia|].
    intros sa mk pf it Hok.
    apply listed_Some in Hes. destruct Hes as [Hclass Hentries].
    rewrite appendToListResults_unfold. cbv zeta.
    rewrite Hclass, Hentries, Hfile, (shift_0 mk Hok).
    destruct (negb (strings.HasSuffix key "/")); eexists;
      [reflexivity|now rewrite app_nil_r].
  - intros n log key es rows fetched log' Hes Hfile _ [Hpos IH].
    split; [lia|]. intros sa mk pf it Hok.
    apply listed_Some in Hes. destruct Hes as [Hclass Hentries].
    rewrite appendToListResults_unfold. cbv zeta.
    rewrite Hclass, Hentries, Hfile.
    unfold own_rows. rewrite andb_false_r. cbn [fst snd].
    destruct (IH (mkLoopVars pf it None (spend mk (List.length es))))
      as (v' & Hrun & Hpf & Hit & Hmk).
    { cbn [lv_maxKeys]. rewrite spend_shift. apply shift_ok. }
    rewrite Hrun. cbn [lv_prefixes lv_items lv_maxKeys] in Hpf, Hit, Hmk.
    rewrite Hpf, Hit, Hmk, spend_shift, shift_shift. eexists. reflexivity.
  - intros n log dir. split; [lia|]. intros v Hok. exists v.
    cbn [list_loop ret]. rewrite app_nil_r, (shift_0 _ Hok). auto.
  - intros n log dir i rest rows fetched log' Hty _ [Hpos IH].
    split; [exact Hpos|]. intros v Hok.
    apply String.eqb_neq in Hty.
    rewrite list_loop_cons. cbv zeta. rewrite Hty.
    destruct (IH (mkLoopVars (lv_prefixes v)
                    (lv_items v
                     ++ [adlv1FileStatus2BlobItem i
                           (join_key dir (PathSuffix i))])
                    (lv_err v) (lv_maxKeys v)) Hok)
      as (v' & Hrun & Hpf & Hit & Hmk).
    exists v'. split; [exact Hrun|]. split; [exact Hpf|].
    split; [|exact Hmk].
    rewrite Hit. cbn [lv_items]. now rewrite <- app_assoc.
  - intros n log dir i rest sub fetched1 log1 rows fetched2 log' Hty
      _ [Hpos1 IHsub] _ [Hpos2 IHrest].
    split; [lia|]. intros v Hok.
    apply String.eqb_eq in Hty.
    rewrite list_loop_cons. cbv zeta. rewrite Hty.
    destruct (IHsub "" (lv_maxKeys v) (lv_prefixes v)
                (lv_items v
                 ++ [adlv1FileStatus2BlobItem i
                       (join_key dir (PathSuffix i) ++ "/")%string]) Hok)
      as (res & Hsub).
    rewrite Hsub. cbn [lr_prefixes lr_items lr_err lr_maxKeys].
    destruct (IHrest (mkLoopVars (lv_prefixes v)
                        ((lv_items v
                          ++ [adlv1FileStatus2BlobItem i
                                (join_key dir (PathSuffix i) ++ "/")%string])
                         ++ sub)
                        None (shift fetched1 (lv_maxKeys v))))
      as (v' & Hrun & Hpf & Hit & Hmk).
    { apply shift_ok. }
    exists v'. split; [exact Hrun|]. split; [exact Hpf|].
    cbn [lv_items lv_maxKeys] in Hit, Hmk. split.
    + rewrite Hit, <- !app_assoc. reflexivity.
    + now rewrite Hmk, shift_shift.
Qed.


Example small_tree_walk :
  walk (example_env small_tree not_found_listing always_ok) example_backend
    2 [] ""
    [mkItem "x/" (Some (mkTime 0 0)) 0; mkItem "x/z" (Some (mkTime 0 0)) 0;
     mkItem "y" (Some (mkTime 0 0)) 0]
    3
    [ListFileStatusReq "" None "" ""; ListFileStatusReq "x" None "" ""].
Proof.
  apply (walk_dir _ _ 1 [] "" [dir_entry "x"; file_entry "y"] _ 1 _);
    [reflexivity|reflexivity|].
  apply (walk_subdir _ _ 1 _ "" (dir_entry "x") [file_entry "y"]
           [mkItem "x/z" (Some (mkTime 0 0)) 0] 1
           [ListFileStatusReq "" None "" ""; ListFileStatusReq "x" None "" ""]
           [mkItem "y" (Some (mkTime 0 0)) 0] 0).
  - reflexivity.
  - apply (walk_dir _ _ 0 _ "x" [file_entry "z"] _ 0 _);
      [reflexivity|reflexivity|].
    apply (walk_leaf _ _ 0 _ "x" (file_entry "z") [] [] 0).
    + discriminate.
    + apply walk_nil.
  - apply (walk_leaf _ _ 1 _ "" (file_entry "y") [] [] 0).
    + discriminate.
    + apply walk_nil.
Qed.

(** ** The key budget is never enforced *)



(** ** Concrete runs *)

Example Split_examples :
  strings.Split "a/b/c" "/" = ["a"; "b"; "c"]
  /\ strings.Split "" "/" = [""]
  /\ strings.Split "a//b" "/" = ["a"; ""; "b"]
  /\ strings.Split "xabyab" "ab" = ["x"; "y"; ""]
  /\ strings.Split "ab" "" = ["a"; "b"].
Proof. repeat split. Qed.

Example Trim_examples :
  strings.TrimRight "a/b//" "/" = "a/b"
  /\ strings.TrimLeft "//a/b/" "/" = "a/b/"
  /\ strings.TrimRight "///" "/" = ""
  /\ strings.HasSuffix "a/" "/" = true
  /\ strings.HasSuffix "" "/" = false.
Proof. repeat split. Qed.

Example depth_examples :
  depth "a" = 1 /\ depth "a/b/" = 2 /\ depth "a/b/c" = 3 /\ depth "" = 1.
Proof. repeat split. Qed.

Example path_examples :
  path (mkADLv1 "acct" "root" 420) "/a/b" = "root/a/b"
  /\ path (mkADLv1 "acct" "root" 420) "//" = "root"
  /\ path (mkADLv1 "acct" "" 420) "/a/b" = "a/b".
Proof. repeat split. Qed.

Example DeleteBlobs_example :
  DeleteBlobs (example_env [] not_found_listing always_ok) example_backend
    ["a"; "a/b/c"; "a/b"] []
  = (Done (Ok tt),
     [DeleteReq "a/b/c" (Some false); DeleteReq "a/b" (Some false);
      DeleteReq "a" (Some false)]).
Proof. reflexivity. Qed.

Example adlv1LastModified_example :
  adlv1LastModified 1500000001234 = mkTime 1500000001 1234.
Proof. reflexivity. Qed.

(** * Further properties *)

(** ** Keys and paths *)

Lemma TrimRight_all_slashes (n : nat) : strings.TrimRight (slashes n) "/" = "".
Proof. induction n as [|n IH]; [reflexivity|]. simpl. now rewrite IH. Qed.

Lemma TrimRight_slashes (s : string) (n : nat) :
  strings.TrimRight (s ++ slashes n) "/" = strings.TrimRight s "/".
Proof.
  induction s as [|c s IH]; [apply TrimRight_all_slashes|].
  cbn [append strings.TrimRight]. now rewrite IH.
Qed.

Lemma TrimRight_decompose (s : string) :
  exists n, s = (strings.TrimRight s "/" ++ slashes n)%string.
Proof.
  induction s as [|c s [n IH]]; [now exists O|].
  cbn [strings.TrimRight].
  destruct (strings.TrimRight s "/") as [|c' t] eqn:Ht.
  - rewrite in_cutset_slash.
    destruct (Ascii.eqb_spec c "/") as [->|_].
    + exists (S n). simpl in *. now rewrite <- IH.
    + exists n. simpl in *. now rewrite <- IH.
  - exists n. simpl in *. now rewrite <- IH.
Qed.

Lemma TrimRight_app (x y : string) :
  strings.TrimRight y "/" <> "" ->
  strings.TrimRight (x ++ y) "/" = (x ++ strings.TrimRight y "/")%string.
Proof.
  intros Hy. induction x as [|c x IH]; [reflexivity|].
  cbn [append strings.TrimRight]. rewrite IH.
  destruct (x ++ strings.TrimRight y "/")%string eqn:Hxy; [|reflexivity].
  destruct x; simpl in Hxy; [contradiction|discriminate].
Qed.

Lemma append_inj_l (x y z : string) : (x ++ y = x ++ z)%string -> y = z.
Proof.
  induction x as [|c x IH]; simpl; [auto|].
  intros H. injection H as H. auto.
Qed.

Lemma append_empty_r (x : string) : (x ++ "")%string = x.
Proof. induction x as [|c x IH]; simpl; [reflexivity|now rewrite IH]. Qed.

Lemma TrimLeft_slashes_app (n : nat) (s : string) :
  strings.TrimLeft (slashes n ++ s) "/" = strings.TrimLeft s "/".
Proof. induction n as [|n IH]; [reflexivity|]. simpl. exact IH. Qed.

Lemma HasPrefix_append (x y : string) : strings.HasPrefix (x ++ y) x = true.
Proof.
  induction x as [|c x IH]; [reflexivity|].
  simpl. now rewrite Ascii.eqb_refl, IH.
Qed.

(** X1.  Two keys are mapped to the same remote path exactly when
    they are equal up to leading delimiters; leading delimiters never
    matter; the mapped path starts with the root prefix; and it does
    not start with a delimiter unless the root prefix does. *)
Theorem path_collisions (b : ADLv1) (k1 k2 : string) :
  (path b k1 = path b k2 <->
   strings.TrimLeft k1 "/" = strings.TrimLeft k2 "/")
  /\ (forall n, path b (slashes n ++ k1) = path b k1)
  /\ strings.HasPrefix (path b k1) (bucket b) = true
  /\ strings.HasPrefix (path b k1) "/" = strings.HasPrefix (bucket b) "/".
Proof.
  unfold path.
  destruct (String.eqb_spec (bucket b) "") as [Hb|Hb]; cbn [negb].
  - rewrite Hb. split; [tauto|]. split.
    + intros n. apply TrimLeft_slashes_app.
    + split; [reflexivity|]. apply TrimLeft_no_leading_slash.
  - split; [|split; [|split]].
    + split; [|now intros ->].
      destruct (String.eqb_spec (strings.TrimLeft k1 "/") "") as [H1|H1];
        destruct (String.eqb_spec (strings.TrimLeft k2 "/") "") as [H2|H2];
        cbn [negb]; intros H.
      * congruence.
      * apply (f_equal String.length) in H.
        rewrite !string_length_append in H. simpl in H. lia.
      * apply (f_equal String.length) in H.
        rewrite !string_length_append in H. simpl in H. lia.
      * apply append_inj_l in H. simpl in H. now injection H.
    + intros n. now rewrite TrimLeft_slashes_app.
    + destruct (negb (strings.TrimLeft k1 "/" =? "")%string).
      * apply HasPrefix_append.
      * rewrite <- (append_empty_r (bucket b)) at 1. apply HasPrefix_append.
    + destruct (bucket b) as [|c r]; [contradiction|].
      destruct (negb (strings.TrimLeft k1 "/" =? "")%string); reflexivity.
Qed.

(** ** Deletion *)

(** X2.  [DeleteBlob] ignores trailing delimiters of the
    key: with any number of them appended it sends the same single
    request, for the mapped key without them and with the recursive
    flag off, and returns the same result. *)
Theorem DeleteBlob_trailing_delimiters (E : Env) (b : ADLv1) (key : string)
  (n : nat) (log : list Request) :
  DeleteBlob E b (key ++ slashes n) log = DeleteBlob E b key log
  /\ snd (DeleteBlob E b key log)
     = log ++ [DeleteReq (path b (strings.TrimRight key "/")) (Some false)].
Proof.
  split; [|apply DeleteBlob_log].
  unfold DeleteBlob. now rewrite TrimRight_slashes.
Qed.

(** X3.  The batch delete does not depend on the
    order in which the caller lists the keys: two arrangements of the
    same keys send the same requests and return the same result. *)
Theorem DeleteBlobs_order_irrelevant (E : Env) (b : ADLv1)
  (items items' : list string) (log : list Request) :
  Permutation items items' ->
  DeleteBlobs E b items log = DeleteBlobs E b items' log.
Proof.
  intros Hp. unfold DeleteBlobs. f_equal.
  apply sort_keys_unique; [|apply sort_keys_sorted].
  rewrite Hp. symmetry. apply sort_keys_perm.
Qed.

Lemma DeleteBlobs_order_irrelevant_witness :
  DeleteBlobs (example_env [] not_found_listing always_ok) example_backend
    ["a"; "a/b"] []
  = DeleteBlobs (example_env [] not_found_listing always_ok) example_backend
      ["a/b"; "a"] [].
Proof.
  apply DeleteBlobs_order_irrelevant. apply perm_swap.
Defined.

Lemma split_go_length (s : string) (cur : list ascii) :
  List.length (strings.split_go s "/" O cur) = S (count_slash s).
Proof.
  revert cur. induction s as [|c s IH]; intros cur; [reflexivity|].
  cbn [strings.split_go strings.HasPrefix count_slash].
  destruct (Ascii.eqb c "/"); cbn [andb]; simpl; now rewrite IH.
Qed.

Lemma depth_count (key : string) :
  depth key = Z.of_nat (S (count_slash (strings.TrimRight key "/"))).
Proof. unfold depth, strings.Split. now rewrite split_go_length. Qed.

Lemma count_slash_app (x y : string) :
  count_slash (x ++ y) = (count_slash x + count_slash y)%nat.
Proof.
  induction x as [|c x IH]; [reflexivity|]. simpl. rewrite IH. lia.
Qed.

Lemma count_slash_TrimRight (s : string) :
  (count_slash (strings.TrimRight s "/") <= count_slash s)%nat.
Proof.
  destruct (TrimRight_decompose s) as [n Hn].
  rewrite Hn at 2. rewrite count_slash_app. lia.
Qed.

(** A key below another one is deeper. *)
Lemma depth_child (x r : string) :
  strings.TrimRight r "/" <> "" ->
  depth x < depth (x ++ "/" ++ r).
Proof.
  intros Hr. rewrite !depth_count.
  assert (Hne : strings.TrimRight ("/" ++ r) "/" <> "").
  { change ("/" ++ r)%string with (String "/" r). cbn [strings.TrimRight].
    destruct (strings.TrimRight r "/"); [contradiction|discriminate]. }
  rewrite (TrimRight_app x _ Hne), count_slash_app.
  change ("/" ++ r)%string with (String "/" r). cbn [strings.TrimRight].
  destruct (strings.TrimRight r "/") as [|c t] eqn:Ht; [contradiction|].
  pose proof (count_slash_TrimRight x). simpl. lia.
Qed.

Lemma sorted_app_le {A} (R : A -> A -> Prop) (l1 l2 : list A) (x y : A) :
  StronglySorted R (l1 ++ y :: l2) -> In x l1 -> R x y.
Proof.
  induction l1 as [|z l1 IH]; intros Hs Hx; [contradiction|].
  simpl in Hs. inversion Hs as [|? ? Hs' Hall]; subst.
  destruct Hx as [->|Hx]; [|now apply IH].
  rewrite Forall_forall in Hall. apply Hall, in_or_app. right. now left.
Qed.

(** X4.  Whatever the input order, a key below
    another key of the batch ([x], a delimiter, and a remainder that
    is not made of delimiters only) comes before it in the order of
    deletion; when the batch succeeds, the requests were sent in that
    order. *)
Theorem DeleteBlobs_children_first (E : Env) (b : ADLv1)
  (items : list string) (x r : string) (log : list Request) :
  strings.TrimRight r "/" <> "" ->
  In x items ->
  In (x ++ "/" ++ r)%string items ->
  exists l1 l2 l3,
    sort.Slice items less = l1 ++ (x ++ "/" ++ r)%string :: l2 ++ x :: l3
    /\ (fst (DeleteBlobs E b items log) = Done (Ok tt) ->
        snd (DeleteBlobs E b items log)
        = log ++ map (delete_request b)
                   (l1 ++ (x ++ "/" ++ r)%string :: l2 ++ x :: l3)).
Proof.
  intros Hr Hx Hy. pose proof (depth_child x r Hr) as Hdepth.
  remember (x ++ "/" ++ r)%string as y eqn:Hy0. clear Hy0 Hr.
  pose proof (sort_keys_sorted items) as Hsorted.
  assert (Hx' : In x (sort.Slice items less))
    by (eapply Permutation_in; [symmetry; apply sort_keys_perm|exact Hx]).
  assert (Hy' : In y (sort.Slice items less))
    by (eapply Permutation_in; [symmetry; apply sort_keys_perm|exact Hy]).
  destruct (in_split _ _ Hy') as (l1 & rest & Hsplit).
  assert (Hrest : In x rest).
  { rewrite Hsplit in Hx'. apply in_app_or in Hx'.
    destruct Hx' as [Hin|[Heq|Hin]]; [|subst; lia|exact Hin].
    rewrite Hsplit in Hsorted.
    pose proof (sorted_app_le key_le l1 rest x y Hsorted Hin) as Hle.
    unfold key_le in Hle. lia. }
  destruct (in_split _ _ Hrest) as (l2 & l3 & Hsplit2).
  exists l1, l2, l3. subst rest. split; [exact Hsplit|].
  intros Hok. rewrite <- Hsplit.
  destruct (delete_each_run E b (sort.Slice items less) log)
    as [[_ Hrun]|(before & k & after & _ & _ & Hne & Hrun)].
  - unfold DeleteBlobs. now rewrite Hrun.
  - unfold DeleteBlobs in Hok. rewrite Hrun in Hok. simpl in Hok.
    contradiction.
Qed.

Lemma DeleteBlobs_children_first_witness :
  exists l1 l2 l3,
    sort.Slice ["dir"; "other"; "dir/sub/leaf"] less
    = l1 ++ "dir/sub/leaf" :: l2 ++ "dir" :: l3.
Proof.
  destruct (DeleteBlobs_children_first
              (example_env [] not_found_listing always_ok) example_backend
              ["dir"; "other"; "dir/sub/leaf"] "dir" "sub/leaf" [])
    as (l1 & l2 & l3 & H & _).
  - discriminate.
  - now left.
  - right. right. now left.
  - exists l1, l2, l3. exact H.
Defined.

(** X5.  Without a root prefix [RemoveBucket] fails with
    [EINVAL] and sends nothing.  With one it is the deletion of the
    empty key: one non-recursive delete of the root prefix itself,
    with the results of [DeleteBlob]. *)
Theorem RemoveBucket_is_delete_root (E : Env) (b : ADLv1)
  (log : list Request) :
  (bucket b = "" -> RemoveBucket E b log = (Done (Err EINVAL), log))
  /\ (bucket b <> "" ->
      RemoveBucket E b log = DeleteBlob E b "" log
      /\ snd (RemoveBucket E b log) = log ++ [DeleteReq (bucket b) (Some false)]).
Proof.
  unfold RemoveBucket. split.
  - intros ->. reflexivity.
  - intros Hb. apply String.eqb_neq in Hb. rewrite Hb.
    split; [reflexivity|].
    change (snd (DeleteBlob E b "" log)
            = log ++ [DeleteReq (bucket b) (Some false)]).
    rewrite DeleteBlob_log. unfold delete_request, path. simpl.
    now rewrite Hb.
Qed.

(** ** Listing: refusals, errors and files *)

(** X6.  A listing without delimiter that carries a
    continuation token or a start-after marker, and a listing with a
    delimiter other than ["/"], are refused with [ENOTSUP]: nothing is
    sent and the budget is left as it was. *)
Theorem ListBlobs_unsupported (E : Env) (b : ADLv1) (fuel : nat)
  (prefix delimiter : option string) (maxKeys : option Z)
  (token after : option string) (log : list Request) :
  (delimiter = None /\ (token <> None \/ after <> None))
  \/ (exists d, delimiter = Some d /\ d <> "/") ->
  ListBlobs E b fuel (mkListBlobsInput prefix delimiter maxKeys token after)
    log
  = (Done (Err ENOTSUP, maxKeys), log).
Proof.
  intros [[-> Hmark]|(d & -> & Hd)]; unfold ListBlobs;
    cbn [in_Delimiter in_ContinuationToken in_StartAfter in_MaxKeys].
  - destruct token, after; try reflexivity. destruct Hmark; congruence.
  - apply String.eqb_neq in Hd. now rewrite Hd.
Qed.

Lemma ListBlobs_unsupported_witness :
  ListBlobs (example_env small_tree not_found_listing always_ok)
    example_backend 5
    (mkListBlobsInput None None (Some 10) (Some "token") None) []
  = (Done (Err ENOTSUP, Some 10), [])
  /\ ListBlobs (example_env small_tree not_found_listing always_ok)
       example_backend 5
       (mkListBlobsInput None (Some ",") (Some 10) None None) []
     = (Done (Err ENOTSUP, Some 10), []).
Proof.
  split; apply ListBlobs_unsupported.
  - left. split; [reflexivity|]. left. discriminate.
  - right. exists ",". split; [reflexivity|discriminate].
Defined.

(** X7.  When the listing of a non-empty prefix succeeds with
    a single entry whose path suffix is empty, the prefix names a
    file: in either mode the result has no prefix row and one item
    row, keyed by the prefix as the caller wrote it, unless the prefix
    ends in the delimiter, in which case the result is empty.  One
    request is sent and the budget is not charged. *)
Theorem listing_a_file (E : Env) (b : ADLv1) (fuel : nat)
  (param : ListBlobsInput) (recursive : bool) (log : list Request)
  (resp : option http_Response) (err : option error)
  (f : FileStatusProperties) :
  (in_Delimiter param = Some "/" /\ recursive = false)
  \/ (in_Delimiter param = None /\ in_ContinuationToken param = None
      /\ in_StartAfter param = None /\ recursive = true) ->
  nilStr (in_Prefix param) <> "" ->
  adl_ListFileStatus E log (path b (nilStr (in_Prefix param)))
  = (mkFileStatuses resp (Some [f]), err) ->
  mapADLv1Error E resp err false = None ->
  PathSuffix f = "" ->
  ListBlobs E b (S fuel) param log
  = (Done (Ok (mkListBlobsOutput []
                 (if strings.HasSuffix (nilStr (in_Prefix param)) "/"
                  then []
                  else [adlv1FileStatus2BlobItem f
                          (nilStr (in_Prefix param))])
                 false),
           in_MaxKeys param),
     log ++ [ListFileStatusReq (path b (nilStr (in_Prefix param))) None "" ""]).
Proof.
  intros Hmode Hp Hreply Hclass Hsuffix.
  rewrite (ListBlobs_run E b (S fuel) param recursive log Hmode).
  rewrite appendToListResults_unfold. cbv zeta.
  rewrite Hreply. cbn [fst snd fs_Response FileStatus]. rewrite Hclass.
  apply String.eqb_neq in Hp. rewrite Hp.
  cbn [negb andb single_empty_suffix]. rewrite Hsuffix. cbn [String.eqb].
  cbn [lr_err lr_prefixes lr_items lr_maxKeys hd].
  destruct (strings.HasSuffix (nilStr (in_Prefix param)) "/"); reflexivity.
Qed.

Lemma listing_a_file_witness :
  ListBlobs (example_env [("f", [file_entry ""])] not_found_listing always_ok)
    example_backend 1
    (mkListBlobsInput (Some "f") (Some "/") (Some 7) None None) []
  = (Done (Ok (mkListBlobsOutput [] [mkItem "f" (Some (mkTime 0 0)) 0] false),
           Some 7),
     [ListFileStatusReq "f" None "" ""]).
Proof.
  apply (listing_a_file
           (example_env [("f", [file_entry ""])] not_found_listing always_ok)
           example_backend 0
           (mkListBlobsInput (Some "f") (Some "/") (Some 7) None None) false
           [] (Some http_ok) None (file_entry "")).
  - left. split; reflexivity.
  - discriminate.
  - reflexivity.
  - reflexivity.
  - reflexivity.
Defined.

(** X8.  When the listing of the queried prefix itself
    is classified as an error, one request has been sent, the budget
    is untouched, and the listing returns that error, except for
    not-found, which gives an empty result. *)
Theorem listing_top_level_error (E : Env) (b : ADLv1) (fuel : nat)
  (param : ListBlobsInput) (recursive : bool) (log : list Request)
  (e : error) :
  (in_Delimiter param = Some "/" /\ recursive = false)
  \/ (in_Delimiter param = None /\ in_ContinuationToken param = None
      /\ in_StartAfter param = None /\ recursive = true) ->
  (let reply := adl_ListFileStatus E log (path b (nilStr (in_Prefix param))) in
   mapADLv1Error E (fs_Response (fst reply)) (snd reply) false) = Some e ->
  ListBlobs E b (S fuel) param log
  = (Done (if is_ENOENT (Some e)
           then Ok (mkListBlobsOutput [] [] false)
           else Err e,
           in_MaxKeys param),
     log ++ [ListFileStatusReq (path b (nilStr (in_Prefix param))) None "" ""]).
Proof.
  intros Hmode Hclass. cbv zeta in Hclass.
  rewrite (ListBlobs_run E b (S fuel) param recursive log Hmode).
  rewrite appendToListResults_unfold. cbv zeta. rewrite Hclass.
  reflexivity.
Qed.

Lemma listing_top_level_error_witness :
  ListBlobs (example_env [] server_error_listing always_ok) example_backend 1
    (mkListBlobsInput (Some "d") (Some "/") (Some 7) None None) []
  = (Done (Err EAGAIN, Some 7), [ListFileStatusReq "d" None "" ""]).
Proof.
  apply (listing_top_level_error
           (example_env [] server_error_listing always_ok) example_backend 0
           (mkListBlobsInput (Some "d") (Some "/") (Some 7) None None) false
           [] EAGAIN).
  - left. split; reflexivity.
  - reflexivity.
Defined.

(** ** Listing: the rows of a delimited listing *)

Lemma list_loop_delimited_rows
  (self : string -> bool -> string -> option Z -> list BlobPrefixOutput ->
          list BlobItemOutput -> M ListRet)
  (dir : string) (entries : list FileStatusProperties) :
  forall (v : LoopVars) (log : list Request),
    list_loop self dir false entries v log
    = (Done (mkLoopVars
               (lv_prefixes v
                ++ map (fun i => mkPrefix
                                   (join_key dir (PathSuffix i) ++ "/")%string)
                     (filter is_directory entries))
               (lv_items v
                ++ map (fun i => adlv1FileStatus2BlobItem i
                                   (join_key dir (PathSuffix i)))
                     (filter (fun i => negb (is_directory i)) entries))
               (lv_err v) (lv_maxKeys v)),
       log).
Proof.
  induction entries as [|i rest IH]; intros v log.
  - cbn [list_loop filter map ret]. rewrite !app_nil_r. now destruct v.
  - rewrite list_loop_cons. cbv zeta. cbn [filter].
    change (Type_ i =? "DIRECTORY")%string with (is_directory i).
    destruct (is_directory i); cbn [negb map];
      rewrite IH; cbn [lv_prefixes lv_items lv_err lv_maxKeys];
      rewrite <- ?app_assoc; reflexivity.
Qed.

(** X9.  A listing with delimiter ["/"] whose directory
    call succeeds (and does not answer for a file) returns one row per
    entry, in the order of the remote listing: a prefix row, ending in
    the delimiter, for each directory entry and an item row for every
    other entry, after the row of the queried prefix itself when that
    is not empty.  The budget is charged the number of entries. *)
Theorem delimited_listing_partition (E : Env) (b : ADLv1) (fuel : nat)
  (prefix : option string) (maxKeys : option Z)
  (token after : option string) (log : list Request)
  (resp : option http_Response) (err : option error)
  (es : list FileStatusProperties) :
  let d := nilStr prefix in
  let dir := strings.TrimRight d "/" in
  adl_ListFileStatus E log (path b d) = (mkFileStatuses resp (Some es), err) ->
  mapADLv1Error E resp err false = None ->
  negb (d =? "")%string && single_empty_suffix es = false ->
  exists out,
    ListBlobs E b (S fuel)
      (mkListBlobsInput prefix (Some "/") maxKeys token after) log
    = (Done (Ok out, spend maxKeys (List.length es)),
       log ++ [ListFileStatusReq (path b d) None "" ""])
    /\ Prefixes out
       = (if (d =? "")%string || strings.HasSuffix d "/" then []
          else [mkPrefix (d ++ "/")%string])
         ++ map (fun i => mkPrefix (join_key dir (PathSuffix i) ++ "/")%string)
              (filter is_directory es)
    /\ Items out
       = (if negb (d =? "")%string && strings.HasSuffix d "/"
          then [mkItem d None 0] else [])
         ++ map (fun i => adlv1FileStatus2BlobItem i
                            (join_key dir (PathSuffix i)))
              (filter (fun i => negb (is_directory i)) es)
    /\ (List.length (Prefixes out) + List.length (Items out)
        = List.length es + (if (d =? "")%string then 0 else 1))%nat.
Proof.
  intros d dir Hreply Hclass Hfile.
  rewrite (ListBlobs_run E b (S fuel) _ false log)
    by (left; split; reflexivity).
  cbn [in_Prefix in_MaxKeys in_StartAfter in_ContinuationToken].
  fold d. rewrite appendToListResults_unfold. cbv zeta.
  rewrite Hreply. cbn [fst snd fs_Response FileStatus].
  rewrite Hclass, Hfile. fold dir.
  rewrite list_loop_delimited_rows.
  cbn [lv_prefixes lv_items lv_err lv_maxKeys lr_err lr_prefixes lr_items
       lr_maxKeys].
  eexists. split; [reflexivity|]. cbn [Prefixes Items].
  unfold own_rows. cbn [negb]. rewrite andb_true_r.
  assert (Hcount : (List.length (filter is_directory es)
                    + List.length
                        (filter (fun i => negb (is_directory i)) es)
                    = List.length es)%nat).
  { clear. induction es as [|i es IH]; [reflexivity|].
    cbn [filter]. destruct (is_directory i); simpl; lia. }
  destruct (d =? "")%string; cbn [negb orb andb fst snd app].
  - split; [reflexivity|]. split; [reflexivity|].
    rewrite !length_map. lia.
  - destruct (strings.HasSuffix d "/"); cbn [fst snd app].
    + split; [reflexivity|]. split; [reflexivity|].
      cbn [List.length]. rewrite !length_map. lia.
    + split; [reflexivity|]. split; [reflexivity|].
      cbn [List.length]. rewrite !length_map. lia.
Qed.

Lemma delimited_listing_partition_witness :
  exists out,
    ListBlobs (example_env small_tree not_found_listing always_ok)
      example_backend 1
      (mkListBlobsInput None (Some "/") (Some 10) None None) []
    = (Done (Ok out, Some 8), [ListFileStatusReq "" None "" ""])
    /\ Prefixes out = [mkPrefix "x/"]
    /\ Items out = [mkItem "y" (Some (mkTime 0 0)) 0].
Proof.
  destruct (delimited_listing_partition
              (example_env small_tree not_found_listing always_ok)
              example_backend 0 None (Some 10) None None []
              (Some http_ok) None [dir_entry "x"; file_entry "y"]
              eq_refl eq_refl eq_refl)
    as (out & Hrun & Hp & Hi & _).
  exists out. split; [exact Hrun|]. split; [exact Hp|exact Hi].
Defined.

(** ** Listing: what holds for every remote *)

Section ListingInvariants.

Variable E : Env.
Variable b : ADLv1.

Lemma list_loop_recursive_prefixes
  (self : string -> bool -> string -> option Z -> list BlobPrefixOutput ->
          list BlobItemOutput -> M ListRet) :
  (forall p sa mk pf it log r log',
      self p true sa mk pf it log = (Done r, log') ->
      lr_prefixes r = pf \/ lr_prefixes r = []) ->
  forall entries dir v log v' log',
    list_loop self dir true entries v log = (Done v', log') ->
    lv_prefixes v' = lv_prefixes v \/ lv_prefixes v' = [].
Proof.
  intros Hself. induction entries as [|i rest IH]; intros dir v log v' log'.
  - cbn [list_loop ret]. intros H. injection H as <- _. now left.
  - rewrite list_loop_cons. cbv zeta.
    destruct (Type_ i =? "DIRECTORY")%string.
    + destruct (self _ true "" _ _ _ log) as [[r|msg|] log1] eqn:Hcall;
        try discriminate.
      intros Hrest. apply IH in Hrest. cbn [lv_prefixes] in Hrest.
      apply Hself in Hcall. destruct Hrest as [Heq | Heq]; rewrite Heq; [exact Hcall|now right].
    + intros Hrest. apply IH in Hrest. exact Hrest.
Qed.

Lemma appendToListResults_recursive_prefixes (fuel : nat) :
  forall p sa mk pf it log r log',
    appendToListResults E b fuel p true sa mk pf it log = (Done r, log') ->
    lr_prefixes r = pf \/ lr_prefixes r = [].
Proof.
  induction fuel as [|fuel IH]; intros p sa mk pf it log r log';
    [discriminate|].
  rewrite appendToListResults_unfold. cbv zeta.
  destruct (mapADLv1Error E _ _ false).
  { intros H. injection H as <- _. now right. }
  destruct (FileStatus _) as [entries|]; [|discriminate].
  destruct (negb (p =? "")%string && single_empty_suffix entries).
  { intros H. injection H as <- _. now left. }
  destruct (list_loop _ _ true entries _ _) as [[v|msg|] log2] eqn:Hloop;
    try discriminate.
  intros H. injection H as <- _. cbn [lr_prefixes].
  apply (list_loop_recursive_prefixes _ IH) in Hloop.
  unfold own_rows in Hloop. rewrite andb_false_r in Hloop. exact Hloop.
Qed.

Lemma HasPrefix_refl (x : string) : strings.HasPrefix x x = true.
Proof.
  induction x as [|c x IH]; [reflexivity|].
  simpl. now rewrite Ascii.eqb_refl.
Qed.

Lemma HasPrefix_trans (x y z : string) :
  strings.HasPrefix x y = true -> strings.HasPrefix y z = true ->
  strings.HasPrefix x z = true.
Proof.
  revert x y. induction z as [|c z IH]; intros x y Hxy Hyz; [reflexivity|].
  destruct y as [|d y]; [discriminate|].
  destruct x as [|e x]; [discriminate|].
  cbn [strings.HasPrefix] in *.
  apply andb_true_iff in Hxy. destruct Hxy as [Hed Hxy].
  apply andb_true_iff in Hyz. destruct Hyz as [Hdc Hyz].
  apply Ascii.eqb_eq in Hed. apply Ascii.eqb_eq in Hdc. subst.
  rewrite Ascii.eqb_refl. cbn [andb]. eapply IH; eauto.
Qed.

Lemma HasPrefix_of_empty (q : string) :
  strings.HasPrefix "" q = true -> q = "".
Proof. destruct q; [reflexivity|discriminate]. Qed.

Lemma HasPrefix_TrimRight (s : string) :
  strings.HasPrefix s (strings.TrimRight s "/") = true.
Proof.
  destruct (TrimRight_decompose s) as [n Hn].
  rewrite Hn at 1. apply HasPrefix_append.
Qed.

Lemma TrimRight_idempotent (s : string) :
  strings.TrimRight (strings.TrimRight s "/") "/" = strings.TrimRight s "/".
Proof.
  destruct (TrimRight_decompose s) as [n Hn].
  rewrite Hn at 2. now rewrite TrimRight_slashes.
Qed.

(** Trimming a key built on a trimmed directory keeps the directory. *)
Lemma TrimRight_keeps_dir (dir y : string) :
  strings.TrimRight dir "/" = dir ->
  strings.HasPrefix (strings.TrimRight (dir ++ y) "/") dir = true.
Proof.
  intros Hdir.
  destruct (strings.TrimRight y "/") as [|c t] eqn:Hy.
  - destruct (TrimRight_decompose y) as [n Hn]. rewrite Hy in Hn.
    simpl in Hn. rewrite Hn, TrimRight_slashes, Hdir. apply HasPrefix_refl.
  - rewrite TrimRight_app by (rewrite Hy; discriminate).
    apply HasPrefix_append.
Qed.

Lemma join_key_under (q dir name : string) :
  under q dir -> under q (join_key dir name).
Proof.
  unfold under, join_key. intros Hq.
  destruct (String.eqb_spec dir "") as [->|Hne]; cbn [negb].
  - apply HasPrefix_of_empty in Hq. now subst.
  - eapply HasPrefix_trans; [apply HasPrefix_append|exact Hq].
Qed.

Lemma join_key_TrimRight_under (q dir name : string) :
  strings.TrimRight dir "/" = dir ->
  under q dir -> under q (strings.TrimRight (join_key dir name) "/").
Proof.
  unfold under, join_key. intros Hdir Hq.
  destruct (String.eqb_spec dir "") as [->|Hne]; cbn [negb].
  - apply HasPrefix_of_empty in Hq. now subst.
  - eapply HasPrefix_trans; [now apply TrimRight_keeps_dir|exact Hq].
Qed.

Lemma list_loop_under (q : string)
  (self : string -> bool -> string -> option Z -> list BlobPrefixOutput ->
          list BlobItemOutput -> M ListRet) :
  (forall p recursive sa mk pf it log r log',
      under q (strings.TrimRight p "/") ->
      Forall (fun x => under q (Prefix x)) pf ->
      Forall (fun x => under q (item_Key x)) it ->
      self p recursive sa mk pf it log = (Done r, log') ->
      Forall (fun x => under q (Prefix x)) (lr_prefixes r)
      /\ Forall (fun x => under q (item_Key x)) (lr_items r)) ->
  forall entries dir recursive v log v' log',
    strings.TrimRight dir "/" = dir ->
    under q dir ->
    Forall (fun x => under q (Prefix x)) (lv_prefixes v) ->
    Forall (fun x => under q (item_Key x)) (lv_items v) ->
    list_loop self dir recursive entries v log = (Done v', log') ->
    Forall (fun x => under q (Prefix x)) (lv_prefixes v')
    /\ Forall (fun x => under q (item_Key x)) (lv_items v').
Proof.
  intros Hself.
  induction entries as [|i rest IH];
    intros dir recursive v log v' log' Hdir Hq Hpf Hit.
  - cbn [list_loop ret]. intros H. injection H as <- _. auto.
  - rewrite list_loop_cons. cbv zeta.
    assert (Hkey : under q (join_key dir (PathSuffix i)))
      by now apply join_key_under.
    assert (Hkey' : under q (join_key dir (PathSuffix i) ++ "/")%string)
      by (eapply HasPrefix_trans; [apply HasPrefix_append|exact Hkey]).
    destruct (Type_ i =? "DIRECTORY")%string; [destruct recursive|].
    + destruct (self _ true "" _ _ _ log) as [[r|msg|] log1] eqn:Hcall;
        try discriminate.
      apply Hself in Hcall.
      * destruct Hcall as [Hpf1 Hit1]. now apply IH.
      * now apply join_key_TrimRight_under.
      * exact Hpf.
      * apply Forall_app. split; [exact Hit|]. now repeat constructor.
    + apply IH; auto. cbn [lv_prefixes].
      apply Forall_app. split; [exact Hpf|]. now repeat constructor.
    + apply IH; auto. cbn [lv_items].
      apply Forall_app. split; [exact Hit|]. now repeat constructor.
Qed.

Lemma appendToListResults_under (q : string) (fuel : nat) :
  forall p recursive sa mk pf it log r log',
    under q (strings.TrimRight p "/") ->
    Forall (fun x => under q (Prefix x)) pf ->
    Forall (fun x => under q (item_Key x)) it ->
    appendToListResults E b fuel p recursive sa mk pf it log = (Done r, log') ->
    Forall (fun x => under q (Prefix x)) (lr_prefixes r)
    /\ Forall (fun x => under q (item_Key x)) (lr_items r).
Proof.
  induction fuel as [|fuel IH];
    intros p recursive sa mk pf it log r log' Hq Hpf Hit; [discriminate|].
  assert (Hp : under q p)
    by (eapply HasPrefix_trans; [apply HasPrefix_TrimRight|exact Hq]).
  assert (Hp' : under q (p ++ "/")%string)
    by (eapply HasPrefix_trans; [apply HasPrefix_append|exact Hp]).
  rewrite appendToListResults_unfold. cbv zeta.
  destruct (mapADLv1Error E _ _ false).
  { intros H. injection H as <- _. split; constructor. }
  destruct (FileStatus _) as [entries|]; [|discriminate].
  destruct (negb (p =? "")%string && single_empty_suffix entries).
  { intros H. injection H as <- _. cbn [lr_prefixes lr_items].
    split; [exact Hpf|].
    destruct (negb (strings.HasSuffix p "/")); [|exact Hit].
    apply Forall_app. split; [exact Hit|]. now repeat constructor. }
  destruct (list_loop _ _ recursive entries _ _) as [[v|msg|] log2] eqn:Hloop;
    try discriminate.
  intros H. injection H as <- _. cbn [lr_prefixes lr_items].
  apply (list_loop_under q _ IH) in Hloop; auto.
  - apply TrimRight_idempotent.
  - cbn [lv_prefixes]. unfold own_rows.
    destruct (negb (p =? "")%string && negb recursive); [|exact Hpf].
    destruct (strings.HasSuffix p "/"); [exact Hpf|].
    apply Forall_app. split; [exact Hpf|]. now repeat constructor.
  - cbn [lv_items]. unfold own_rows.
    destruct (negb (p =? "")%string && negb recursive); [|exact Hit].
    destruct (strings.HasSuffix p "/"); [|exact Hit].
    apply Forall_app. split; [exact Hit|]. now repeat constructor.
Qed.

End ListingInvariants.

(** X10.  Whatever the remote side answers, a listing
    without delimiter that returns a result returns no prefix rows. *)
Theorem flat_listing_has_no_prefixes (E : Env) (b : ADLv1) (fuel : nat)
  (prefix : option string) (maxKeys maxKeys' : option Z)
  (token after : option string) (log log' : list Request)
  (out : ListBlobsOutput) :
  ListBlobs E b fuel (mkListBlobsInput prefix None maxKeys token after) log
  = (Done (Ok out, maxKeys'), log') ->
  Prefixes out = [].
Proof.
  destruct token as [t|], after as [a|]; try (cbn; discriminate).
  rewrite (ListBlobs_run E b fuel _ true log)
    by (right; repeat split; reflexivity).
  cbn [in_Prefix in_MaxKeys in_StartAfter in_ContinuationToken].
  destruct (appendToListResults E b fuel _ true _ _ [] [] log)
    as [[r|msg|] log1] eqn:Hrun; try discriminate.
  apply appendToListResults_recursive_prefixes in Hrun.
  assert (Hnil : lr_prefixes r = []) by (destruct Hrun; assumption).
  destruct (lr_err r) as [e|];
    [destruct (is_ENOENT (Some e)); [|discriminate]|];
    intros H; injection H as <- _ _; exact Hnil.
Qed.

Lemma flat_listing_has_no_prefixes_witness :
  Prefixes (mkListBlobsOutput []
              [mkItem "x/" (Some (mkTime 0 0)) 0;
               mkItem "x/z" (Some (mkTime 0 0)) 0;
               mkItem "y" (Some (mkTime 0 0)) 0] false) = [].
Proof.
  apply (flat_listing_has_no_prefixes
           (example_env small_tree not_found_listing always_ok)
           example_backend 2 None None None None None []
           [ListFileStatusReq "" None "" ""; ListFileStatusReq "x" None "" ""]).
  reflexivity.
Defined.

(** X11.  Whatever the remote side answers and in
    either mode, every key of a returned result, prefix rows and item
    rows alike, starts with the queried prefix stripped of its
    trailing delimiters. *)
Theorem listing_keys_under_prefix (E : Env) (b : ADLv1) (fuel : nat)
  (param : ListBlobsInput) (maxKeys' : option Z) (log log' : list Request)
  (out : ListBlobsOutput) :
  ListBlobs E b fuel param log = (Done (Ok out, maxKeys'), log') ->
  let q := strings.TrimRight (nilStr (in_Prefix param)) "/" in
  Forall (fun x => strings.HasPrefix (Prefix x) q = true) (Prefixes out)
  /\ Forall (fun x => strings.HasPrefix (item_Key x) q = true) (Items out).
Proof.
  intros Hrun q.
  assert (Hmode : exists recursive,
             (in_Delimiter param = Some "/" /\ recursive = false)
             \/ (in_Delimiter param = None
                 /\ in_ContinuationToken param = None
                 /\ in_StartAfter param = None /\ recursive = true)).
  { destruct param as [pfx dl mk tk af]. cbn [in_Delimiter
      in_ContinuationToken in_StartAfter].
    destruct dl as [d|].
    - destruct (String.eqb_spec d "/") as [->|Hd]; [exists false; auto|].
      exfalso. apply String.eqb_neq in Hd. unfold ListBlobs in Hrun.
      cbn [in_Delimiter in_ContinuationToken in_StartAfter in_MaxKeys]
        in Hrun.
      rewrite Hd in Hrun. discriminate.
    - destruct tk as [t|]; [|destruct af as [a|]].
      + exfalso. unfold ListBlobs in Hrun.
        cbn [in_Delimiter in_ContinuationToken in_StartAfter in_MaxKeys]
          in Hrun.
        discriminate.
      + exfalso. unfold ListBlobs in Hrun.
        cbn [in_Delimiter in_ContinuationToken in_StartAfter in_MaxKeys]
          in Hrun.
        discriminate.
      + exists true. right. auto. }
  destruct Hmode as [recursive Hmode].
  rewrite (ListBlobs_run E b fuel param recursive log Hmode) in Hrun.
  destruct (appendToListResults E b fuel _ recursive _ _ [] [] log)
    as [[r|msg|] log1] eqn:Hcall; try discriminate.
  apply (appendToListResults_under E b q) in Hcall;
    [|apply HasPrefix_refl|constructor|constructor].
  destruct Hcall as [Hpf Hit].
  destruct (lr_err r) as [e|];
    [destruct (is_ENOENT (Some e)); [|discriminate]|];
    injection Hrun as <- _ _; split; assumption.
Qed.

Lemma listing_keys_under_prefix_witness :
  Forall (fun x => strings.HasPrefix (Prefix x) "d" = true)
    [mkPrefix "d/b/"]
  /\ Forall (fun x => strings.HasPrefix (item_Key x) "d" = true)
       [mkItem "d/" None 0; mkItem "d/a" (Some (mkTime 0 0)) 0].
Proof.
  apply (listing_keys_under_prefix
           (example_env example_dirs not_found_listing always_ok)
           example_backend 1
           (mkListBlobsInput (Some "d/") (Some "/") None None None) None []
           [ListFileStatusReq "d/" None "" ""]
           (mkListBlobsOutput [mkPrefix "d/b/"]
              [mkItem "d/" None 0; mkItem "d/a" (Some (mkTime 0 0)) 0]
              false)).
  reflexivity.
Defined.

(** ** Listing: a traversal without failures *)

Lemma walk_more_fuel (E : Env) (b : ADLv1) :
  (forall n log key rows fetched log',
      walk E b n log key rows fetched log' ->
      walk E b (S n) log key rows fetched log')
  /\ (forall n log dir es rows fetched log',
         walk_entries E b n log dir es rows fetched log' ->
         walk_entries E b (S n) log dir es rows fetched log').
Proof.
  apply walk_mutind; intros.
  - now apply walk_file.
  - eapply walk_dir; eauto.
  - apply walk_nil.
  - now apply walk_leaf.
  - eapply walk_subdir; eauto.
Qed.

Lemma walk_fuel_le (E : Env) (b : ADLv1) (n m : nat) log key rows fetched
  log' :
  (n <= m)%nat ->
  walk E b n log key rows fetched log' ->
  walk E b m log key rows fetched log'.
Proof.
  induction 1 as [|m Hle IH]; [auto|].
  intros H. apply (proj1 (walk_more_fuel E b)). auto.
Qed.

(** X12.  When every directory listing of the traversal
    succeeds, a listing without delimiter returns no prefix rows and
    exactly the item rows of the depth-first traversal, in its order:
    one row per leaf, and for each directory entry its own row, keyed
    with a trailing delimiter, followed by the rows of its subtree.
    It sends the listing requests of the traversal and no other, and
    the result is the same for every recursion bound that covers the
    depth of the tree. *)
Theorem flat_listing_rows (E : Env) (b : ADLv1) (n fuel : nat)
  (prefix : option string) (maxKeys : option Z) (log log' : list Request)
  (rows : list BlobItemOutput) (fetched : Z) :
  walk E b n log (nilStr prefix) rows fetched log' ->
  (n <= fuel)%nat ->
  budget_ok maxKeys ->
  ListBlobs E b fuel (mkListBlobsInput prefix None maxKeys None None) log
  = (Done (Ok (mkListBlobsOutput [] rows false), shift fetched maxKeys),
     log').
Proof.
  intros Hwalk Hle Hok.
  apply (walk_fuel_le E b n fuel) in Hwalk; [|exact Hle].
  destruct (proj1 (walk_rows E b) _ _ _ _ _ _ Hwalk) as [_ Hrows].
  destruct (Hrows "" maxKeys [] [] Hok) as (res & Hrun).
  rewrite (ListBlobs_run E b fuel _ true log)
    by (right; repeat split; reflexivity).
  cbn [in_Prefix in_MaxKeys in_StartAfter in_ContinuationToken nilStr].
  rewrite Hrun. reflexivity.
Qed.

Lemma flat_listing_rows_witness :
  ListBlobs (example_env small_tree not_found_listing always_ok)
    example_backend 7 (mkListBlobsInput None None None None None) []
  = (Done (Ok (mkListBlobsOutput []
                 [mkItem "x/" (Some (mkTime 0 0)) 0;
                  mkItem "x/z" (Some (mkTime 0 0)) 0;
                  mkItem "y" (Some (mkTime 0 0)) 0] false),
           None),
     [ListFileStatusReq "" None "" ""; ListFileStatusReq "x" None "" ""]).
Proof.
  apply (flat_listing_rows
           (example_env small_tree not_found_listing always_ok)
           example_backend 2 7 None None [] _ _ 3 small_tree_walk).
  - repeat constructor.
  - exact I.
Defined.

(** ** Multipart upload: failures and the lease *)

(** The one request of [Abort]. *)
Lemma MultipartBlobAbort_log (E : Env) (h : MultipartBlobCommitInput)
  (lease : UUID) (log : list Request) :
  uuid_FromString E (mc_UploadId h) = inl lease ->
  snd (MultipartBlobAbort E h log)
  = log ++ [AppendReq (mc_Key h) "" None CLOSE (Some lease) (Some lease)].
Proof.
  intros Hparse. unfold MultipartBlobAbort. rewrite Hparse.
  unfold bind, client_Append, ret. cbn [fst snd].
  destruct (adl_Append E log _) as [res err].
  destruct (mapADLv1Error E res err false); reflexivity.
Qed.

(** X13.  [Abort] does not look at the commit data, so it never
    panics.  When the upload id parses it sends one request, a
    zero-length append with the close flag, no offset, and the lease
    as both ids; it returns whatever error the classifier gives,
    not-found included (unlike [Commit]).  When the upload id does not
    parse it returns that error and sends nothing. *)
Theorem abort_releases_lease (E : Env) (h : MultipartBlobCommitInput)
  (log : list Request) :
  (forall msg, fst (MultipartBlobAbort E h log) <> Panicked msg)
  /\ (forall e, uuid_FromString E (mc_UploadId h) = inr e ->
                MultipartBlobAbort E h log = (Done (Err e), log))
  /\ (forall lease,
         uuid_FromString E (mc_UploadId h) = inl lease ->
         let req := AppendReq (mc_Key h) "" None CLOSE (Some lease)
                      (Some lease) in
         let reply := adl_Append E log req in
         snd (MultipartBlobAbort E h log) = log ++ [req]
         /\ fst (MultipartBlobAbort E h log)
            = Done (match mapADLv1Error E (fst reply) (snd reply) false with
                    | Some e => Err e
                    | None => Ok tt
                    end)).
Proof.
  unfold MultipartBlobAbort.
  destruct (uuid_FromString E (mc_UploadId h)) as [lease|e].
  - unfold bind, client_Append, ret. cbn [fst snd].
    destruct (adl_Append E log _) as [res err] eqn:Hreply.
    split; [|split].
    + intros msg. destruct (mapADLv1Error E res err false); discriminate.
    + discriminate.
    + intros lease' Hl. injection Hl as <-. cbv zeta. rewrite Hreply.
      cbn [fst snd].
      destruct (mapADLv1Error E res err false); split; reflexivity.
  - split; [discriminate|]. split; [|discriminate].
    intros e' He. now injection He as <-.
Qed.

(** X14.  On a handle of this backend whose upload id
    parses, [Add] returns as follows, the handle being advanced by the
    declared size in every case.  No error from the classifier:
    success.  A structured error with status 404: [EINVAL].  An error
    that is not structured (no response, undecodable body): that
    error.  A structured error with a status other than 404 that is
    not a bad-offset 400: the error of the status table for the same
    response.  In all these cases exactly one request is sent. *)
Theorem add_failures (E : Env) (h : MultipartBlobCommitInput)
  (d : ADLv1MultipartBlobCommitInput) (lease : UUID) (pn : Z)
  (body : string) (s : Z) (log : list Request) :
  backendData h = ADLv1Data d ->
  uuid_FromString E (mc_UploadId h) = inl lease ->
  let req := data_append h lease body
               (int64 (uint64 (uint64 (Size d + s) - s))) in
  let reply := adl_Append E log req in
  let c := mapADLv1Error E (fst reply) (snd reply) true in
  let run := MultipartBlobAdd E (mkAdd h pn body s) log in
  (c = None -> run = (Done (Ok tt, advance h s), log ++ [req]))
  /\ (forall exn resp,
         c = Some (ADLv1Err exn resp) -> StatusCode resp = 404 ->
         run = (Done (Err EINVAL, advance h s), log ++ [req]))
  /\ (forall e,
         c = Some e -> (forall exn resp, e <> ADLv1Err exn resp) ->
         run = (Done (Err e, advance h s), log ++ [req]))
  /\ (forall exn resp,
         c = Some (ADLv1Err exn resp) ->
         StatusCode resp <> 404 ->
         StatusCode resp <> 400 \/ Exception exn <> "BadOffsetException" ->
         exists e0,
           mapADLv1Error E (fst reply) (snd reply) false = Some e0
           /\ run = (Done (Err e0, advance h s), log ++ [req])).
Proof.
  intros Hd Hparse req reply c run. subst run.
  unfold MultipartBlobAdd.
  cbn [Commit PartNumber add_Body add_Size]. rewrite Hd. unfold bind.
  pose proof (uploadPart_run E (advance h s) pn body s
                (uint64 (Size d + s)) lease log Hparse) as Hrun.
  unfold advance, cumulative in *. rewrite Hd in *.
  cbn [Size backendData] in *.
  rewrite Hrun. clear Hrun.
  change (data_append _ lease body _) with req.
  change (adl_Append E log req) with reply. fold c.
  split; [|split; [|split]].
  - intros ->. reflexivity.
  - intros exn resp -> H404. rewrite H404. reflexivity.
  - intros e -> Hns. destruct e as [code|exn resp|msg]; try reflexivity.
    now elim (Hns exn resp).
  - intros exn resp Hc H404 Hbad.
    assert (Hagain : forall e,
               mapADLv1Error E (Some resp) e false
               = mapADLv1Error E (fst reply) (snd reply) false).
    { intros e. apply structured_error_inv in Hc. now rewrite Hc. }
    assert (Hsome : exists e0,
               mapADLv1Error E (fst reply) (snd reply) false = Some e0).
    { assert (Hst : (StatusCode resp <? 200) || (StatusCode resp >=? 300)
                    = true).
      { pose proof (structured_error_inv E _ _ _ _ Hc) as Hres.
        unfold c, mapADLv1Error in Hc. rewrite Hres in Hc.
        destruct ((StatusCode resp <? 200) || (StatusCode resp >=? 300));
          [reflexivity|discriminate]. }
      rewrite <- (Hagain None). unfold mapADLv1Error. rewrite Hst.
      destruct (mapHttpError E (StatusCode resp)); eauto. }
    destruct Hsome as [e0 He0]. exists e0. split; [exact He0|].
    rewrite Hc. apply Z.eqb_neq in H404. rewrite H404.
    assert (Hprobe : (StatusCode resp =? 400)
                     && (Exception exn =? "BadOffsetException")%string
                     = false).
    { apply andb_false_iff. destruct Hbad as [H|H].
      - left. now apply Z.eqb_neq.
      - right. now apply String.eqb_neq. }
    rewrite Hprobe, Hagain, He0. reflexivity.
Qed.

Lemma add_failures_witness :
  MultipartBlobAdd
    (example_env [] not_found_listing (always_refused 404 "Gone"))
    (mkAdd example_handle 1 "data" 100) []
  = (Done (Err EINVAL, advance example_handle 100),
     [AppendReq "f" "data" (Some 0) DATA (Some "lease") (Some "lease")])
  /\ MultipartBlobAdd
       (example_env [] not_found_listing (always_refused 500 "Busy"))
       (mkAdd example_handle 1 "data" 100) []
     = (Done (Err EAGAIN, advance example_handle 100),
        [AppendReq "f" "data" (Some 0) DATA (Some "lease") (Some "lease")]).
Proof.
  split.
  - destruct (add_failures
                (example_env [] not_found_listing (always_refused 404 "Gone"))
                example_handle (mkCommitData 0) "lease" 1 "data" 100 []
                eq_refl eq_refl) as (_ & H404 & _).
    apply (H404 (mkRemoteException "Gone" "" "") (http_status 404 "Gone"));
      reflexivity.
  - destruct (add_failures
                (example_env [] not_found_listing (always_refused 500 "Busy"))
                example_handle (mkCommitData 0) "lease" 1 "data" 100 []
                eq_refl eq_refl) as (_ & _ & _ & Hother).
    destruct (Hother (mkRemoteException "Busy" "" "")
                (http_status 500 "Busy") eq_refl)
      as (e0 & He0 & Hrun).
    + discriminate.
    + left. discriminate.
    + injection He0 as <-. exact Hrun.
Defined.

(** The requests of one [Add] on a handle whose upload id parses: one
    or two appends to the handle's path, all under the lease. *)
Lemma MultipartBlobAdd_requests (E : Env) (h : MultipartBlobCommitInput)
  (d : ADLv1MultipartBlobCommitInput) (pn : Z) (body : string) (s : Z)
  (lease : UUID) (log : list Request) :
  backendData h = ADLv1Data d ->
  uuid_FromString E (mc_UploadId h) = inl lease ->
  exists (r : result unit) (reqs : list Request),
    MultipartBlobAdd E (mkAdd h pn body s) log
    = (Done (r, advance h s), log ++ reqs)
    /\ Forall (lease_append (mc_Key h) lease) reqs
    /\ (1 <= List.length reqs <= 2)%nat.
Proof.
  intros Hd Hparse.
  destruct (MultipartBlobAdd_run E h d pn body s lease log Hd Hparse)
    as (r & more & Hrun).
  pose proof Hrun as Hshape.
  unfold MultipartBlobAdd in Hshape.
  cbn [Commit PartNumber add_Body add_Size] in Hshape. rewrite Hd in Hshape.
  unfold bind in Hshape.
  pose proof (uploadPart_run E (advance h s) pn body s
                (uint64 (Size d + s)) lease log Hparse) as Hup.
  unfold advance, cumulative in Hup, Hshape. rewrite Hd in Hup, Hshape.
  cbn [Size backendData] in Hup, Hshape.
  rewrite Hup in Hshape. clear Hup.
  unfold data_append, close_append in Hshape. cbn [mc_Key] in Hshape.
  assert (Hone : forall o, lease_append (mc_Key h) lease
                             (AppendReq (mc_Key h) body o DATA (Some lease)
                                (Some lease)))
    by (intros o; repeat split).
  assert (Hclose : forall o, lease_append (mc_Key h) lease
                               (AppendReq (mc_Key h) "" o CLOSE (Some lease)
                                  (Some lease)))
    by (intros o; repeat split).
  assert (Hmore : more = []
                  \/ exists o, more = [AppendReq (mc_Key h) "" o CLOSE
                                         (Some lease) (Some lease)]).
  { revert Hshape.
    destruct (adl_Append E log _) as [res err]. cbn [fst snd].
    set (first := AppendReq (mc_Key h) body _ DATA _ _).
    assert (Hnil : forall (x y : outcome (result unit
                                          * MultipartBlobCommitInput)),
               (x, log ++ [first]) = (y, log ++ first :: more) ->
               more = []).
    { intros x y H. injection H as _ H. apply app_inv_head in H.
      now injection H. }
    assert (Htwo : forall (x y : outcome (result unit
                                          * MultipartBlobCommitInput)) q,
               (x, (log ++ [first]) ++ [q]) = (y, log ++ first :: more) ->
               more = [q]).
    { intros x y q H. injection H as _ H. rewrite <- app_assoc in H.
      apply app_inv_head in H. now injection H. }
    destruct (mapADLv1Error E res err true) as [[code|exn resp|msg]|];
      try (intros H; left; eapply Hnil; exact H).
    set (again := mapADLv1Error E (Some resp) _ false).
    destruct (StatusCode resp =? 404);
      [intros H; left; eapply Hnil; exact H|].
    destruct ((StatusCode resp =? 400)
              && (Exception exn =? "BadOffsetException")%string).
    - cbv zeta. destruct (adl_Append E (log ++ _) _) as [pres perr].
      cbn [fst snd].
      destruct (mapADLv1Error E pres perr false); [destruct again|];
        intros H; right; eexists; eapply Htwo; exact H.
    - destruct again; intros H; left; eapply Hnil; exact H. }
  exists r, (data_append h lease body
               (int64 (uint64 (cumulative (advance h s) - s))) :: more).
  split; [exact Hrun|].
  destruct Hmore as [->|[o ->]].
  - split; [repeat constructor; apply Hone|simpl; lia].
  - split; [|simpl; lia].
    constructor; [apply Hone|]. constructor; [apply Hclose|constructor].
Qed.

(** The requests of a run of [Add]s: appends to the handle's path under
    the lease, at least one and at most two per part; the step of each
    [Add] records the requests it sent. *)
Lemma add_parts_requests (E : Env) (parts : list (string * Z)) :
  forall (h : MultipartBlobCommitInput) (d : ADLv1MultipartBlobCommitInput)
         (lease : UUID) (log : list Request),
    backendData h = ADLv1Data d ->
    uuid_FromString E (mc_UploadId h) = inl lease ->
    exists steps appends,
      add_parts E h parts log = (Done steps, log ++ appends)
      /\ Forall (lease_append (mc_Key h) lease) appends
      /\ (List.length parts <= List.length appends
          <= 2 * List.length parts)%nat
      /\ List.length steps = List.length parts
      /\ appends = List.concat (map step_requests steps)
      /\ Forall (fun st =>
                   (1 <= List.length (step_requests st) <= 2)%nat
                   /\ Forall (lease_append (mc_Key h) lease)
                        (step_requests st)) steps.
Proof.
  induction parts as [|[body0 s0] parts IH]; intros h d lease log Hd Hparse.
  - exists [], []. rewrite app_nil_r. repeat split; constructor.
  - destruct (MultipartBlobAdd_requests E h d 0 body0 s0 lease log Hd Hparse)
      as (r & reqs & Hadd & Hall & Hlen).
    apply sent_run in Hadd.
    assert (Hd' : backendData (advance h s0)
                  = ADLv1Data (mkCommitData (uint64 (cumulative h + s0))))
      by reflexivity.
    destruct (IH (advance h s0) _ lease (log ++ reqs) Hd' Hparse)
      as (steps & appends & Hrun & Hall' & Hlen' & Hsteps & Hcat & Heach).
    exists (mkAddStep r (advance h s0) reqs :: steps), (reqs ++ appends).
    split; [|split; [|split; [|split; [|split]]]].
    + cbn [add_parts]. unfold bind at 1. rewrite Hadd.
      unfold bind at 1. rewrite Hrun. rewrite app_assoc. reflexivity.
    + apply Forall_app. split; [exact Hall|exact Hall'].
    + rewrite length_app. simpl. lia.
    + simpl. now rewrite Hsteps.
    + cbn [map List.concat step_requests]. now rewrite Hcat.
    + constructor; [cbn [step_requests]; split; assumption|exact Heach].
Qed.

(** X15.  After a successful [Begin] for [key], the request sent
    was a create of the mapped path with overwrite, under a fresh
    lease and with the backend's file mode.  Every request of the
    [Add]s that follow, of [Commit] and of [Abort] is an append to that
    same path carrying that lease as lease id and as session id; each
    [Add] sends one or two of them, [Commit] and [Abort] one each.
    The requests of the [k]-th [Add] are those recorded in the [k]-th
    step, and the log after the [Add]s is the log after [Begin]
    followed by the requests of the steps in order. *)
Theorem session_requests_carry_lease (E : Env) (b : ADLv1) (key : string)
  (parts : list (string * Z)) (log log1 : list Request)
  (h : MultipartBlobCommitInput) :
  (forall u, uuid_FromString E (uuid_String E u) = inl u) ->
  MultipartBlobBegin E b key log = (Done (Ok h), log1) ->
  exists lease steps appends,
    log1 = log ++ [CreateReq (path b key) "" (Some true) DATA (Some lease)
                     (Some (int32 (FileMode b)))]
    /\ add_parts E h parts log1 = (Done steps, log1 ++ appends)
    /\ Forall (lease_append (path b key) lease) appends
    /\ (List.length parts <= List.length appends
        <= 2 * List.length parts)%nat
    /\ (forall log2, exists r,
           snd (MultipartBlobCommit E (handle_after h steps) log2)
           = log2 ++ [r]
           /\ lease_append (path b key) lease r)
    /\ (forall log2, exists r,
           snd (MultipartBlobAbort E (handle_after h steps) log2)
           = log2 ++ [r]
           /\ lease_append (path b key) lease r)
    /\ appends = List.concat (map step_requests steps)
    /\ (forall k body s,
           nth_error parts k = Some (body, s) ->
           exists st,
             nth_error steps k = Some st
             /\ (1 <= List.length (step_requests st) <= 2)%nat
             /\ Forall (lease_append (path b key) lease)
                  (step_requests st)).
Proof.
  intros Hround Hbegin.
  destruct (MultipartBlobBegin_handle E b key log log1 h Hbegin)
    as (lease & Hh & Hlog1).
  assert (Hd : backendData h = ADLv1Data (mkCommitData 0))
    by (subst h; reflexivity).
  assert (Hparse : uuid_FromString E (mc_UploadId h) = inl lease)
    by (subst h; apply Hround).
  assert (Hkey : mc_Key h = path b key) by (subst h; reflexivity).
  destruct (add_parts_requests E parts h _ lease log1 Hd Hparse)
    as (steps & appends & Hrun & Hall & Hlen & Hsteps & Hcat & Heach).
  destruct (add_parts_run E parts h _ lease log1 Hd Hparse)
    as (steps' & log2' & Hrun' & _ & Hsame & _).
  rewrite Hrun in Hrun'. injection Hrun' as <- _.
  assert (Hnth : forall k body s,
             nth_error parts k = Some (body, s) ->
             exists st,
               nth_error steps k = Some st
               /\ (1 <= List.length (step_requests st) <= 2)%nat
               /\ Forall (lease_append (path b key) lease)
                    (step_requests st)).
  { intros k body s Hk.
    assert (Hlt : (k < List.length steps)%nat).
    { rewrite Hsteps. apply nth_error_Some. rewrite Hk. discriminate. }
    destruct (nth_error steps k) as [st|] eqn:Hst;
      [|apply nth_error_None in Hst; lia].
    exists st. split; [reflexivity|].
    rewrite Forall_forall in Heach.
    destruct (Heach st (nth_error_In _ _ Hst)) as [Hone Hlease].
    split; [exact Hone|]. now rewrite <- Hkey. }
  assert (Hlast : mc_Key (handle_after h steps) = mc_Key h
                  /\ mc_UploadId (handle_after h steps) = mc_UploadId h
                  /\ exists d', backendData (handle_after h steps)
                                = ADLv1Data d').
  { unfold handle_after.
    apply (last_Forall
             (fun x => mc_Key x = mc_Key h
                       /\ mc_UploadId x = mc_UploadId h
                       /\ exists d', backendData x = ADLv1Data d')).
    - apply Forall_map. exact Hsame.
    - repeat split. eauto. }
  destruct Hlast as (Hk & Hu & d' & Hd').
  rewrite <- Hu in Hparse.
  exists lease, steps, appends.
  split; [exact Hlog1|]. split; [exact Hrun|].
  split; [now rewrite <- Hkey|]. split; [exact Hlen|]. split.
  - intros log2. eexists. split.
    + apply (MultipartBlobCommit_log E _ d' lease log2 Hd' Hparse).
    + unfold close_append. rewrite Hk, Hkey. repeat split.
  - split; [|split; [exact Hcat|exact Hnth]].
    intros log2. eexists. split.
    + apply (MultipartBlobAbort_log E _ lease log2 Hparse).
    + rewrite Hk, Hkey. repeat split.
Qed.

Lemma session_requests_carry_lease_witness :
  let E := example_env [] not_found_listing bad_offset_then_ok in
  (forall u, uuid_FromString E (uuid_String E u) = inl u)
  /\ MultipartBlobBegin E example_backend "/f" []
     = (Done (Ok example_handle),
        [CreateReq "f" "" (Some true) DATA (Some "lease") (Some 420)])
  /\ exists steps,
      add_parts E example_handle [("part one", 100); ("part two", 50)]
        [CreateReq "f" "" (Some true) DATA (Some "lease") (Some 420)]
      = (Done steps,
         [CreateReq "f" "" (Some true) DATA (Some "lease") (Some 420);
          AppendReq "f" "part one" (Some 0) DATA (Some "lease")
            (Some "lease");
          AppendReq "f" "" (Some 100) CLOSE (Some "lease") (Some "lease");
          AppendReq "f" "part two" (Some 100) DATA (Some "lease")
            (Some "lease");
          AppendReq "f" "" (Some 150) CLOSE (Some "lease") (Some "lease")]).
Proof.
  intros E.
  assert (H1 : forall u, uuid_FromString E (uuid_String E u) = inl u)
    by (intros u; reflexivity).
  assert (H2 : MultipartBlobBegin E example_backend "/f" []
               = (Done (Ok example_handle),
                  [CreateReq "f" "" (Some true) DATA (Some "lease")
                     (Some 420)]))
    by reflexivity.
  split; [exact H1|]. split; [exact H2|].
  destruct (session_requests_carry_lease E example_backend "/f"
              [("part one", 100); ("part two", 50)] [] _ example_handle
              H1 H2)
    as (lease & steps & appends & _ & Hrun & _).
  exists steps. rewrite Hrun. f_equal.
  assert (Hsnd : snd (add_parts E example_handle
                        [("part one", 100); ("part two", 50)]
                        [CreateReq "f" "" (Some true) DATA (Some "lease")
                           (Some 420)])
                 = [CreateReq "f" "" (Some true) DATA (Some "lease")
                      (Some 420)] ++ appends)
    by (rewrite Hrun; reflexivity).
  rewrite <- Hsnd. subst E. vm_compute. reflexivity.
Defined.

(** X16.  On a handle of this backend, [Add] returns with the
    handle advanced by the declared size whether or not the part was
    stored.  When the upload id does not parse nothing is sent and the
    size is added all the same.  Calling [Add] again with the same
    part therefore sends its data one declared size further than the
    first attempt did. *)
Theorem add_advances_whatever_happens (E : Env)
  (h : MultipartBlobCommitInput) (d : ADLv1MultipartBlobCommitInput)
  (pn : Z) (body : string) (s : Z) (log : list Request) :
  backendData h = ADLv1Data d ->
  exists (r1 : result unit) (reqs1 : list Request),
    MultipartBlobAdd E (mkAdd h pn body s) log
    = (Done (r1, advance h s), log ++ reqs1)
    /\ (forall e, uuid_FromString E (mc_UploadId h) = inr e ->
                  r1 = Err e /\ reqs1 = [])
    /\ (forall lease,
           uuid_FromString E (mc_UploadId h) = inl lease ->
           (exists more1,
               reqs1 = data_append h lease body (int64 (uint64 (Size d)))
                       :: more1)
           /\ exists r2 more2,
               MultipartBlobAdd E (mkAdd (advance h s) pn body s)
                 (log ++ reqs1)
               = (Done (r2, advance (advance h s) s),
                  (log ++ reqs1)
                  ++ data_append h lease body (int64 (uint64 (Size d + s)))
                  :: more2)).
Proof.
  intros Hd.
  destruct (uuid_FromString E (mc_UploadId h)) as [lease|e] eqn:Hparse.
  - destruct (MultipartBlobAdd_run E h d pn body s lease log Hd Hparse)
      as (r1 & more1 & Hrun1).
    assert (Hcum : cumulative (advance h s) = uint64 (Size d + s))
      by (unfold advance, cumulative; rewrite Hd; reflexivity).
    exists r1, (data_append h lease body (int64 (uint64 (Size d))) :: more1).
    split; [|split].
    + rewrite Hrun1, Hcum, uint64_sub_l.
      replace (Size d + s - s) with (Size d) by lia. reflexivity.
    + discriminate.
    + intros lease' Hl. injection Hl as <-. split; [eauto|].
      destruct (MultipartBlobAdd_run E (advance h s)
                  (mkCommitData (uint64 (cumulative h + s))) pn body s lease
                  (log ++ data_append h lease body (int64 (uint64 (Size d)))
                          :: more1) eq_refl Hparse)
        as (r2 & more2 & Hrun2).
      exists r2, more2. rewrite Hrun2. do 2 f_equal.
      unfold data_append. cbn [advance mc_Key].
      unfold cumulative at 1. cbn [advance backendData Size].
      rewrite Hcum, uint64_sub_l.
      replace (uint64 (Size d + s) + s - s) with (uint64 (Size d + s))
        by lia.
      rewrite uint64_idem. reflexivity.
  - exists (Err e), []. rewrite app_nil_r. split; [|split].
    + unfold MultipartBlobAdd.
      cbn [Commit PartNumber add_Body add_Size]. rewrite Hd.
      unfold bind, uploadPart. cbn [Commit mc_UploadId]. rewrite Hparse.
      unfold ret, advance, cumulative. rewrite Hd. reflexivity.
    + intros e' He. injection He as <-. now split.
    + discriminate.
Qed.

Lemma add_advances_whatever_happens_witness :
  exists r1 r2 more2,
    MultipartBlobAdd
      (example_env [] not_found_listing (always_refused 500 "Busy"))
      (mkAdd example_handle 1 "data" 100) []
    = (Done (r1, advance example_handle 100),
       [AppendReq "f" "data" (Some 0) DATA (Some "lease") (Some "lease")])
    /\ MultipartBlobAdd
         (example_env [] not_found_listing (always_refused 500 "Busy"))
         (mkAdd (advance example_handle 100) 1 "data" 100)
         [AppendReq "f" "data" (Some 0) DATA (Some "lease") (Some "lease")]
       = (Done (r2, advance (advance example_handle 100) 100),
          AppendReq "f" "data" (Some 0) DATA (Some "lease") (Some "lease")
          :: AppendReq "f" "data" (Some 100) DATA (Some "lease")
               (Some "lease") :: more2).
Proof.
  destruct (add_advances_whatever_happens
              (example_env [] not_found_listing (always_refused 500 "Busy"))
              example_handle (mkCommitData 0) 1 "data" 100 [] eq_refl)
    as (r1 & reqs1 & Hrun1 & _ & Hsecond).
  destruct (Hsecond "lease" eq_refl) as (_ & r2 & more2 & Hrun2).
  assert (Hreqs : reqs1 = [AppendReq "f" "data" (Some 0) DATA (Some "lease")
                             (Some "lease")]).
  { assert (H : snd (MultipartBlobAdd
                       (example_env [] not_found_listing
                          (always_refused 500 "Busy"))
                       (mkAdd example_handle 1 "data" 100) [])
                = [] ++ reqs1) by (rewrite Hrun1; reflexivity).
    simpl in H. rewrite <- H. vm_compute. reflexivity. }
  subst reqs1. exists r1, r2, more2. split; [exact Hrun1|exact Hrun2].
Defined.

(** ** The error classifier and the modification time *)

(** X17.  The classifier returns no error exactly when there
    is neither a response nor a transport error, or when the response
    has a 2xx status.  Once a response is there the transport error is
    not looked at.  Asked for the raw error it returns [EAGAIN] or the
    structured error built from that very response; asked for the
    mapped error it returns what the status table has for the status,
    or [EINVAL] where the table has nothing. *)
Theorem mapADLv1Error_cases (E : Env) (res : option http_Response)
  (err : option error) (raw : bool) :
  (mapADLv1Error E res err raw = None
   <-> (res = None /\ err = None)
       \/ exists r, res = Some r /\ 200 <= StatusCode r < 300)
  /\ (forall r err', res = Some r ->
        mapADLv1Error E res err' raw = mapADLv1Error E res err raw)
  /\ (forall e, mapADLv1Error E res err true = Some e ->
        e = EAGAIN \/ exists exn r, res = Some r /\ e = ADLv1Err exn r
                                    /\ json_Decode E (Body r) = Some exn)
  /\ (forall e r, res = Some r ->
        mapADLv1Error E res err false = Some e ->
        mapHttpError E (StatusCode r) = Some e
        \/ (mapHttpError E (StatusCode r) = None /\ e = EINVAL)).
Proof.
  unfold mapADLv1Error. split; [|split; [|split]].
  - destruct res as [r|].
    + destruct ((StatusCode r <? 200) || (StatusCode r >=? 300)) eqn:Hst.
      * split.
        -- destruct raw; [destruct (json_Decode E (Body r))
                         |destruct (mapHttpError E (StatusCode r))];
             discriminate.
        -- intros [[H _]|(r' & H & Hr)]; [discriminate|].
           injection H as <-. apply orb_true_iff in Hst.
           destruct Hst as [H|H]; [apply Z.ltb_lt in H|apply Z.geb_le in H];
             lia.
      * split; [|reflexivity]. intros _. right. exists r.
        split; [reflexivity|]. apply orb_false_iff in Hst.
        destruct Hst as [H1 H2]. apply Z.ltb_ge in H1.
        rewrite Z.geb_leb in H2. apply Z.leb_gt in H2. lia.
    + destruct err; split; try discriminate.
      * intros [[_ H]|(r & H & _)]; discriminate.
      * intros _. now left.
      * reflexivity.
  - intros r err' ->. reflexivity.
  - intros e. destruct res as [r|].
    + destruct ((StatusCode r <? 200) || (StatusCode r >=? 300));
        [|discriminate].
      destruct (json_Decode E (Body r)) as [exn|] eqn:Hdec; intros H;
        injection H as <-; [right; eauto|now left].
    + destruct err; [|discriminate]. intros H. injection H as <-. now left.
  - intros e r ->.
    destruct ((StatusCode r <? 200) || (StatusCode r >=? 300));
      [|discriminate].
    destruct (mapHttpError E (StatusCode r)); intros H; injection H as <-;
      [now left|now right].
Qed.

(** X18.  For a modification time of [t >= 0] milliseconds the
    result has [t / 1000] whole seconds and [t mod 1000000]
    nanoseconds, which is less than a millisecond.  The conversion
    keeps the order of modification times: a later [t] gives a later
    instant. *)
Theorem adlv1LastModified_monotone (t1 t2 : Z) :
  0 <= t1 -> t1 < t2 ->
  adlv1LastModified t1 = mkTime (t1 / 1000) (t1 mod 1000000)
  /\ 0 <= nsec (adlv1LastModified t1) < 1000000
  /\ time_lt (adlv1LastModified t1) (adlv1LastModified t2).
Proof.
  intros H1 H12.
  assert (Hshape : forall t, 0 <= t ->
             adlv1LastModified t = mkTime (t / 1000) (t mod 1000000)).
  { intros t Ht. unfold adlv1LastModified.
    rewrite Z.quot_div_nonneg, Z.rem_mod_nonneg by lia.
    pose proof (Z.mod_pos_bound t 1000000 ltac:(lia)) as Hb.
    unfold time_Unix.
    destruct (t mod 1000000 <? 0) eqn:Hneg; [apply Z.ltb_lt in Hneg; lia|].
    destruct (t mod 1000000 >=? 1000000000) eqn:Hbig;
      [apply Z.geb_le in Hbig; lia|].
    reflexivity. }
  rewrite (Hshape t1 H1), (Hshape t2 ltac:(lia)).
  pose proof (Z.mod_pos_bound t1 1000000 ltac:(lia)) as Hb1.
  split; [reflexivity|]. split; [exact Hb1|].
  unfold time_lt. cbn [sec nsec].
  pose proof (Z.div_le_mono t1 t2 1000 ltac:(lia) ltac:(lia)) as Hle.
  destruct (Z.eq_dec (t1 / 1000) (t2 / 1000)) as [Heq|Hne]; [|left; lia].
  right. split; [exact Heq|].
  assert (HQ : t1 / 1000000 = t2 / 1000000).
  { change 1000000 with (1000 * 1000).
    rewrite <- !Z.div_div by lia. now rewrite Heq. }
  rewrite (Z.mod_eq t1 1000000), (Z.mod_eq t2 1000000) by lia.
  rewrite HQ. lia.
Qed.

Lemma adlv1LastModified_monotone_witness :
  adlv1LastModified 1500000001999 = mkTime 1500000001 1999
  /\ time_lt (adlv1LastModified 1500000001999)
       (adlv1LastModified 1500000002000).
Proof.
  destruct (adlv1LastModified_monotone 1500000001999 1500000002000
              ltac:(lia) ltac:(lia)) as (Hshape & _ & Hlt).
  split; [exact Hshape|exact Hlt].
Defined.

(** ** Construction of the backend *)

Lemma Index_dot (s : string) :
  (has_byte "." s = false /\ strings.Index s "." = -1)
  \/ (exists a r, s = (a ++ "." ++ r)%string
                  /\ has_byte "." a = false
                  /\ strings.Index s "." = Z.of_nat (String.length a)).
Proof.
  induction s as [|c s IH].
  - left. split; reflexivity.
  - cbn [strings.Index strings.HasPrefix has_byte].
    destruct (Ascii.eqb c ".") eqn:Hc.
    + right. exists "", s. apply Ascii.eqb_eq in Hc. subst c.
      repeat split.
    + cbn [andb orb]. destruct IH as [[Hno Hidx]|(a & r & Hs & Hno & Hidx)].
      * left. rewrite Hidx. split; [exact Hno|reflexivity].
      * right. exists (String c a), r. rewrite Hidx. subst s.
        split; [reflexivity|]. split.
        -- cbn [has_byte]. now rewrite Hc.
        -- destruct (Z.of_nat (String.length a) <? 0) eqn:Hneg;
             [apply Z.ltb_lt in Hneg; lia|].
           cbn [String.length]. lia.
Qed.

Lemma take_app (a r : string) :
  strings.take (String.length a) (a ++ r) = a.
Proof. induction a as [|c a IH]; [now destruct r|simpl; now rewrite IH]. Qed.

Lemma drop_app (a r : string) :
  strings.drop (String.length a) (a ++ r) = r.
Proof. induction a as [|c a IH]; [now destruct r|exact IH]. Qed.

Lemma has_byte_app (c : ascii) (a r : string) :
  has_byte c (a ++ r) = has_byte c a || has_byte c r.
Proof.
  induction a as [|d a IH]; [reflexivity|].
  simpl. rewrite IH. now rewrite orb_assoc.
Qed.

Lemma SplitN_dot (s : string) :
  strings.SplitN s "." 2
  = match strings.Index s "." with
    | Z.neg _ => [s]
    | m => [strings.take (Z.to_nat m) s; strings.drop (Z.to_nat m + 1) s]
    end.
Proof.
  unfold strings.SplitN. cbn [Z.eqb Z.ltb Z.compare].
  destruct s as [|c s]; [reflexivity|].
  assert (Hn : (2 >? Z.of_nat (String.length (String c s)) + 1) = false).
  { rewrite Z.gtb_ltb. apply Z.ltb_ge. cbn [String.length]. lia. }
  rewrite Hn. change (Z.to_nat (2 - 1)) with 1%nat.
  cbn [strings.genSplit String.length].
  destruct (strings.Index (String c s) ".") as [|m|m] eqn:Hidx;
    reflexivity.
Qed.

(** The two ways [NewADLv1] can go. *)
Lemma NewADLv1_cases (bucket0 : string) (mode : Z) (endpoint : string) :
  (has_byte "." endpoint = false
   /\ NewADLv1 bucket0 mode endpoint
      = Err (OtherError ("Invalid endpoint: " ++ endpoint)%string))
  \/ (exists a r,
         endpoint = (a ++ "." ++ r)%string
         /\ has_byte "." a = false
         /\ NewADLv1 bucket0 mode endpoint
            = Ok (mkADLv1 a bucket0 mode, r)).
Proof.
  unfold NewADLv1. rewrite SplitN_dot.
  destruct (Index_dot endpoint) as [[Hno Hidx]|(a & r & Hs & Hno & Hidx)];
    rewrite Hidx.
  - left. split; [exact Hno|reflexivity].
  - right. exists a, r. split; [exact Hs|]. split; [exact Hno|].
    assert (Hcut : match Z.of_nat (String.length a) with
                   | Z.neg _ => [endpoint]
                   | m => [strings.take (Z.to_nat m) endpoint;
                           strings.drop (Z.to_nat m + 1) endpoint]
                   end = [a; r]).
    { assert (Ht : strings.take (String.length a) endpoint = a)
        by (subst endpoint; apply take_app).
      assert (Hd : strings.drop (String.length a + 1) endpoint = r).
      { subst endpoint.
        replace (String.length a + 1)%nat
          with (String.length (a ++ "."))%nat
          by (rewrite string_length_append; reflexivity).
        replace (a ++ "." ++ r)%string with ((a ++ ".") ++ r)%string;
          [apply drop_app|].
        clear. induction a as [|c a IH]; [reflexivity|].
        simpl. now rewrite IH. }
      destruct (Z.of_nat (String.length a)) as [|m|m] eqn:Hm;
        [| |lia].
      - assert (Hz : String.length a = 0%nat) by lia.
        rewrite Hz in Ht, Hd. cbn [Z.to_nat]. now rewrite Ht, Hd.
      - assert (Hz : Z.to_nat (Z.pos m) = String.length a) by lia.
        cbv zeta. rewrite Hz. now rewrite Ht, Hd. }
    rewrite Hcut. reflexivity.
Qed.

(** X19.  [NewADLv1] cuts the endpoint at its first dot: it
    fails exactly when the endpoint has no dot; otherwise the account
    is what precedes the first dot (so it has no dot), the DNS suffix
    is all that follows, account, dot and suffix give the endpoint
    back, and bucket and file mode are the ones passed in. *)
Theorem NewADLv1_endpoint (bucket0 : string) (mode : Z) (endpoint : string) :
  (has_byte "." endpoint = false
   <-> NewADLv1 bucket0 mode endpoint
       = Err (OtherError ("Invalid endpoint: " ++ endpoint)%string))
  /\ (has_byte "." endpoint = true
      <-> exists b suffix, NewADLv1 bucket0 mode endpoint = Ok (b, suffix))
  /\ (forall b suffix,
         NewADLv1 bucket0 mode endpoint = Ok (b, suffix) ->
         endpoint = (account b ++ "." ++ suffix)%string
         /\ has_byte "." (account b) = false
         /\ bucket b = bucket0 /\ FileMode b = mode).
Proof.
  destruct (NewADLv1_cases bucket0 mode endpoint)
    as [[Hno Hrun]|(a & r & Hs & Hno & Hrun)]; rewrite Hrun.
  - rewrite Hno. split; [|split].
    + split; reflexivity.
    + split; [discriminate|]. intros (b & suffix & H). discriminate.
    + discriminate.
  - assert (Hyes : has_byte "." endpoint = true).
    { subst endpoint. rewrite has_byte_app. apply orb_true_iff. now right. }
    rewrite Hyes. split; [|split].
    + split; discriminate.
    + split; [eauto|reflexivity].
    + intros b suffix H. injection H as <- <-. cbn [account bucket FileMode].
      repeat split; assumption.
Qed.

Lemma HasPrefix_before_dot (p a r : string) :
  has_byte "." p = false ->
  strings.HasPrefix (a ++ "." ++ r) p = true ->
  strings.HasPrefix a p = true.
Proof.
  revert a. induction p as [|c p IH]; intros a Hp H; [reflexivity|].
  cbn [has_byte] in Hp. apply orb_false_iff in Hp. destruct Hp as [Hc Hp].
  destruct a as [|d a].
  - change ("" ++ "." ++ r)%string with (String "." r) in H.
    cbn [strings.HasPrefix] in H. apply andb_true_iff in H.
    destruct H as [H _]. apply Ascii.eqb_eq in H. subst c.
    discriminate.
  - change (String d a ++ "." ++ r)%string
      with (String d (a ++ "." ++ r)) in H.
    cbn [strings.HasPrefix] in *. apply andb_true_iff in H.
    destruct H as [Hd H]. rewrite Hd. cbn [andb]. now apply IH.
Qed.

(** X20.  The scheme is not cut off the endpoint: for an endpoint
    that [IsADLv1Endpoint] accepts, the account [NewADLv1] stores still
    starts with ["adl://"]. *)
Theorem endpoint_scheme_stays_in_account (bucket0 : string) (mode : Z)
  (endpoint : string) (b : ADLv1) (suffix : string) :
  IsADLv1Endpoint endpoint = true ->
  NewADLv1 bucket0 mode endpoint = Ok (b, suffix) ->
  IsADLv1Endpoint (account b) = true.
Proof.
  intros Hscheme Hnew.
  destruct (NewADLv1_cases bucket0 mode endpoint)
    as [[_ Hrun]|(a & r & Hs & Hno & Hrun)]; rewrite Hrun in Hnew;
    [discriminate|].
  injection Hnew as <- _. cbn [account]. unfold IsADLv1Endpoint in *.
  subst endpoint. apply (HasPrefix_before_dot "adl://" a r);
    [reflexivity|exact Hscheme].
Qed.

Lemma endpoint_scheme_stays_in_account_witness :
  NewADLv1 "data" 420 "adl://lake.azuredatalakestore.net"
  = Ok (mkADLv1 "adl://lake" "data" 420, "azuredatalakestore.net")
  /\ IsADLv1Endpoint "adl://lake" = true.
Proof.
  split; [reflexivity|].
  apply (endpoint_scheme_stays_in_account "data" 420
           "adl://lake.azuredatalakestore.net"
           (mkADLv1 "adl://lake" "data" 420) "azuredatalakestore.net");
    reflexivity.
Defined.

(** ** Single files and directories *)

(** X21.  [Init] sends one status request for the mapped key and
    never panics.  It succeeds exactly when there is neither a
    response nor a transport error, when the status is 2xx, or when
    the body of a failed response decodes to an exception named
    [FileNotFoundException], whatever the status.  Every error it
    returns is [EAGAIN] or the structured error of that response,
    never an entry of the status table. *)
Theorem Init_tolerates_missing (FE : FileEnv) (b : ADLv1) (key : string)
  (log : list FileCall) :
  let reply := adl_GetFileStatus FE log (path b key) in
  let resp := fsr_Response (fst reply) in
  snd (Init FE b key log) = log ++ [GetFileStatusCall (path b key)]
  /\ (exists r, fst (Init FE b key log) = Done r)
  /\ (fst (Init FE b key log) = Done None
      <-> (resp = None /\ snd reply = None)
          \/ exists r, resp = Some r
                       /\ (200 <= StatusCode r < 300
                           \/ exists exn,
                               json_Decode (base FE) (Body r) = Some exn
                               /\ Exception exn = "FileNotFoundException"))
  /\ (forall e, fst (Init FE b key log) = Done (Some e) ->
        e = EAGAIN
        \/ exists exn r, resp = Some r /\ e = ADLv1Err exn r
                         /\ Exception exn <> "FileNotFoundException").
Proof.
  intros reply resp. subst resp reply.
  unfold Init, bindF, client_GetFileStatus, retF. cbn [fst snd].
  destruct (adl_GetFileStatus FE log (path b key)) as [res err].
  cbn [fst snd]. unfold mapADLv1Error.
  destruct (fsr_Response res) as [r|].
  - destruct ((StatusCode r <? 200) || (StatusCode r >=? 300)) eqn:Hst.
    + assert (Hout : ~ 200 <= StatusCode r < 300).
      { apply orb_true_iff in Hst.
        destruct Hst as [H|H]; [apply Z.ltb_lt in H|apply Z.geb_le in H];
          lia. }
      destruct (json_Decode (base FE) (Body r)) as [exn|] eqn:Hdec.
      * destruct (Exception exn =? "FileNotFoundException")%string eqn:Hex.
        -- apply String.eqb_eq in Hex.
           split; [reflexivity|]. split; [eexists; reflexivity|]. split.
           ++ split; [|reflexivity]. intros _. right. exists r.
              split; [reflexivity|]. right. eauto.
           ++ discriminate.
        -- apply String.eqb_neq in Hex.
           split; [reflexivity|]. split; [eexists; reflexivity|]. split.
           ++ split; [discriminate|].
              intros [[H _]|(r' & H & [Hr|(exn' & Hd & Hn)])];
                [discriminate|injection H as <-; lia|].
              injection H as <-. rewrite Hdec in Hd. injection Hd as <-.
              contradiction.
           ++ intros e H. injection H as <-. right. eauto.
      * split; [reflexivity|]. split; [eexists; reflexivity|]. split.
        -- split; [discriminate|].
           intros [[H _]|(r' & H & [Hr|(exn' & Hd & Hn)])];
             [discriminate|injection H as <-; lia|].
           injection H as <-. rewrite Hdec in Hd. discriminate.
        -- intros e H. injection H as <-. now left.
    + split; [reflexivity|]. split; [eexists; reflexivity|]. split.
      * split; [|reflexivity]. intros _. right. exists r.
        split; [reflexivity|]. left. apply orb_false_iff in Hst.
        destruct Hst as [H1 H2]. apply Z.ltb_ge in H1.
        rewrite Z.geb_leb in H2. apply Z.leb_gt in H2. lia.
      * discriminate.
  - destruct err as [e0|].
    + split; [reflexivity|]. split; [eexists; reflexivity|]. split.
      * split; [discriminate|].
        intros [[_ H]|(r & H & _)]; discriminate.
      * intros e H. injection H as <-. now left.
    + split; [reflexivity|]. split; [eexists; reflexivity|]. split.
      * split; [|reflexivity]. intros _. now left.
      * discriminate.
Qed.

(** X22.  [HeadBlob] sends one status request for the mapped key.
    A result carries the key as the caller gave it, the length as
    [uint64], and the directory flag of the status; it is returned
    only when the status is 2xx or no response and no error came back.
    A failed response gives the error of the status table, [EINVAL]
    where the table has none.  The transport error is not looked at
    once a response is there: a 2xx response without a decoded status
    ends in a nil dereference. *)
Theorem HeadBlob_outcomes (FE : FileEnv) (b : ADLv1) (key : string)
  (log : list FileCall) :
  let reply := adl_GetFileStatus FE log (path b key) in
  let resp := fsr_Response (fst reply) in
  let status := fsr_FileStatus (fst reply) in
  snd (HeadBlob FE b key log) = log ++ [GetFileStatusCall (path b key)]
  /\ (forall out,
         fst (HeadBlob FE b key log) = Done (Ok out) ->
         item_Key (head_Item out) = key
         /\ (exists f, status = Some f
                       /\ item_Size (head_Item out) = uint64 (Length f)
                       /\ item_LastModified (head_Item out)
                          = Some (adlv1LastModified (ModificationTime f))
                       /\ IsDirBlob out = is_directory f)
         /\ ((resp = None /\ snd reply = None)
             \/ exists r, resp = Some r /\ 200 <= StatusCode r < 300))
  /\ (forall r, resp = Some r -> ~ 200 <= StatusCode r < 300 ->
        fst (HeadBlob FE b key log)
        = Done (Err (match mapHttpError (base FE) (StatusCode r) with
                     | Some e => e
                     | None => EINVAL
                     end)))
  /\ (forall r, resp = Some r -> 200 <= StatusCode r < 300 ->
        status = None ->
        fst (HeadBlob FE b key log) = Panicked "nil pointer dereference").
Proof.
  intros reply resp status. subst status resp reply.
  unfold HeadBlob, bindF, client_GetFileStatus, retF. cbn [fst snd].
  destruct (adl_GetFileStatus FE log (path b key)) as [res err].
  cbn [fst snd]. unfold mapADLv1Error.
  destruct (fsr_Response res) as [r|].
  - destruct ((StatusCode r <? 200) || (StatusCode r >=? 300)) eqn:Hst.
    + assert (Hout : ~ 200 <= StatusCode r < 300).
      { apply orb_true_iff in Hst.
        destruct Hst as [H|H]; [apply Z.ltb_lt in H|apply Z.geb_le in H];
          lia. }
      split; [destruct (mapHttpError (base FE) (StatusCode r)); reflexivity|].
      split; [destruct (mapHttpError (base FE) (StatusCode r)); discriminate|].
      split.
      * intros r' H _. injection H as <-.
        destruct (mapHttpError (base FE) (StatusCode r)); reflexivity.
      * intros r' H Hin. injection H as <-. contradiction.
    + assert (Hin : 200 <= StatusCode r < 300).
      { apply orb_false_iff in Hst. destruct Hst as [H1 H2].
        apply Z.ltb_ge in H1. rewrite Z.geb_leb in H2.
        apply Z.leb_gt in H2. lia. }
      destruct (fsr_FileStatus res) as [f|]; cbn [derefF retF fst snd].
      * split; [reflexivity|]. split.
        -- intros out H. injection H as <-. cbn.
           split; [reflexivity|]. split; [eauto 6|]. right. eauto.
        -- split; [intros r' H; injection H as <-; contradiction|].
           discriminate.
      * split; [reflexivity|]. split; [discriminate|].
        split; [intros r' H; injection H as <-; contradiction|].
        reflexivity.
  - destruct err as [e0|].
    + split; [reflexivity|]. split; [discriminate|].
      split; discriminate.
    + destruct (fsr_FileStatus res) as [f|]; cbn [derefF retF fst snd].
      * split; [reflexivity|]. split.
        -- intros out H. injection H as <-. cbn.
           split; [reflexivity|]. split; [eauto 6|]. now left.
        -- split; discriminate.
      * split; [reflexivity|]. split; [discriminate|]. split; discriminate.
Qed.

(** X23.  A directory blob is made by one [Mkdirs] request for the
    mapped key with the directory mode; the body passed to [PutBlob]
    plays no part.  When the service answers that nothing was made the
    result is [EEXIST]; a failed response gives the structured error
    or [EAGAIN], not an entry of the status table.  [MakeBucket]
    refuses an empty bucket with [EINVAL] without sending anything,
    and is otherwise the directory blob of the empty key, whose path
    is the bucket.  A file blob is one create request with overwrite
    and the close flag, without a lease. *)
Theorem directory_blobs (FE : FileEnv) (b : ADLv1) (DirMode : Z)
  (key body : string) (log : list FileCall) :
  let put := PutBlob FE b DirMode (mkPutBlobInput key true body) log in
  let reply := adl_Mkdirs FE log (path b key) (Some (int32 DirMode)) in
  snd put = log ++ [MkdirsCall (path b key) (Some (int32 DirMode))]
  /\ (forall body', PutBlob FE b DirMode (mkPutBlobInput key true body') log
                    = put)
  /\ (mapADLv1Error (base FE) (op_Response (fst reply)) (snd reply) true
      = None ->
      fst put = match OperationResult (fst reply) with
                | Some true => Done (Ok tt)
                | Some false => Done (Err EEXIST)
                | None => Panicked "nil pointer dereference"
                end)
  /\ (forall e,
         mapADLv1Error (base FE) (op_Response (fst reply)) (snd reply) true
         = Some e ->
         fst put = Done (Err e))
  /\ ((bucket b = "" ->
       MakeBucket FE b DirMode log = (Done (Err EINVAL), log))
      /\ (bucket b <> "" ->
          MakeBucket FE b DirMode log
          = PutBlob FE b DirMode (mkPutBlobInput "" true body) log
          /\ path b "" = bucket b))
  /\ snd (PutBlob FE b DirMode (mkPutBlobInput key false body) log)
     = log ++ [CreateCall (CreateReq (path b key) body (Some true) CLOSE None
                             (Some (int32 (FileMode b))))].
Proof.
  intros put reply. subst put reply.
  unfold MakeBucket, PutBlob, mkdir, bindF, client_Mkdirs, client_CreateFile,
    retF.
  cbn [DirBlob put_Key put_Body fst snd].
  split; [|split; [|split; [|split; [|split]]]].
  - destruct (adl_Mkdirs FE log (path b key) _) as [res err]. cbn [fst snd].
    destruct (mapADLv1Error (base FE) (op_Response res) err true);
      [reflexivity|].
    destruct (OperationResult res) as [[|]|]; reflexivity.
  - reflexivity.
  - destruct (adl_Mkdirs FE log (path b key) _) as [res err]. cbn [fst snd].
    intros ->. destruct (OperationResult res) as [[|]|]; reflexivity.
  - destruct (adl_Mkdirs FE log (path b key) _) as [res err]. cbn [fst snd].
    intros e ->. reflexivity.
  - split.
    + intros ->. reflexivity.
    + intros Hne. apply String.eqb_neq in Hne. rewrite Hne.
      split; [reflexivity|]. unfold path. cbn [strings.TrimLeft].
      rewrite Hne. reflexivity.
  - destruct (adl_CreateFile FE log _) as [res err].
    destruct (mapADLv1Error (base FE) res err false); reflexivity.
Qed.

(** X24.  When the preparer fails, [RenameBlob] returns [EAGAIN]
    and sends nothing.  Otherwise it sends one request: the prepared
    one with [renameoptions=OVERWRITE] added to its query, built for
    the mapped source and destination.  A failed response gives the
    error of the status table.  After a 2xx response the error of the
    responder is never returned: the result is read off the decoded
    flag alone, [ENOENT] when it is false, and a nil dereference when
    the responder left it unset. *)
Theorem RenameBlob_outcomes (FE : FileEnv) (b : ADLv1)
  (param : RenameBlobInput) (log : list FileCall) :
  let prepared :=
    adl_RenamePreparer FE (path b (Source param))
      (path b (Destination param)) in
  let r := with_query (fst prepared)
             (URL_Query (fst prepared) ++ [("renameoptions", "OVERWRITE")]) in
  let reply := adl_RenameSender FE log r in
  let decoded := adl_RenameResponder FE (fst reply) in
  (snd prepared <> None ->
   RenameBlob FE b param log = (Done (Err EAGAIN), log))
  /\ (snd prepared = None ->
      snd (RenameBlob FE b param log) = log ++ [RenameCall r]
      /\ (forall resp,
             fst reply = Some resp -> ~ 200 <= StatusCode resp < 300 ->
             fst (RenameBlob FE b param log)
             = Done (Err (match mapHttpError (base FE) (StatusCode resp) with
                          | Some e => e
                          | None => EINVAL
                          end)))
      /\ (forall resp,
             fst reply = Some resp -> 200 <= StatusCode resp < 300 ->
             fst (RenameBlob FE b param log)
             = match OperationResult (fst decoded) with
               | Some true => Done (Ok tt)
               | Some false => Done (Err ENOENT)
               | None => Panicked "nil pointer dereference"
               end)).
Proof.
  intros prepared r reply decoded. subst decoded reply r prepared.
  unfold RenameBlob.
  destruct (adl_RenamePreparer FE _ _) as [r0 perr]. cbn [fst snd].
  destruct perr as [e0|]; cbn [mapADLv1Error].
  - split; [reflexivity|]. discriminate.
  - split; [intros H; now elim H|]. intros _.
    unfold bindF, client_RenameSender, retF. cbn [fst snd].
    destruct (adl_RenameSender FE log _) as [resp err]. cbn [fst snd].
    destruct (adl_RenameResponder FE resp) as [res rerr]. cbn [fst snd].
    unfold mapADLv1Error.
    destruct resp as [resp|].
    + destruct ((StatusCode resp <? 200) || (StatusCode resp >=? 300))
        eqn:Hst.
      * assert (Hout : ~ 200 <= StatusCode resp < 300).
        { apply orb_true_iff in Hst.
          destruct Hst as [H|H]; [apply Z.ltb_lt in H|apply Z.geb_le in H];
            lia. }
        split;
          [destruct (mapHttpError (base FE) (StatusCode resp)); reflexivity|].
        split.
        -- intros resp' H _. injection H as <-.
           destruct (mapHttpError (base FE) (StatusCode resp)); reflexivity.
        -- intros resp' H Hin. injection H as <-. contradiction.
      * assert (Hin : 200 <= StatusCode resp < 300).
        { apply orb_false_iff in Hst. destruct Hst as [H1 H2].
          apply Z.ltb_ge in H1. rewrite Z.geb_leb in H2.
          apply Z.leb_gt in H2. lia. }
        split; [destruct (OperationResult res) as [[|]|]; reflexivity|].
        split.
        -- intros resp' H Hout. injection H as <-. contradiction.
        -- intros resp' _ _.
           destruct (OperationResult res) as [[|]|]; reflexivity.
    + split; [|split; discriminate].
      destruct err; [reflexivity|]. destruct rerr; [reflexivity|].
      destruct (OperationResult res) as [[|]|]; reflexivity.
Qed.

Example rename_ignores_responder_error :
  RenameBlob
    (example_file_env (mkFileStatusResult None None, None)
       (mkOperationResult None None, None)
       (Some http_ok, None)
       (mkOperationResult (Some http_ok) (Some true),
        Some (OtherError "unexpected end of JSON input")))
    example_backend (mkRenameBlobInput "/a" "b") []
  = (Done (Ok tt),
     [RenameCall (mkHttpRequest "a" [("destination", "b"); ("op", "RENAME");
                                     ("renameoptions", "OVERWRITE")] [])]).
Proof. reflexivity. Qed.

(** ** The request inspector *)

Lemma Values_Get_Set_same (q : Values) (key value : string) :
  Values_Get (Values_Set q key value) key = value.
Proof.
  unfold Values_Set. induction q as [|[k x] q IH]; simpl.
  - now rewrite String.eqb_refl.
  - destruct (k =? key)%string eqn:Hk; simpl; [exact IH|].
    now rewrite Hk.
Qed.

Lemma Values_Get_Set_other (q : Values) (key value k' : string) :
  k' <> key ->
  Values_Get (Values_Set q key value) k' = Values_Get q k'.
Proof.
  intros Hne. unfold Values_Set. induction q as [|[k x] q IH]; simpl.
  - apply not_eq_sym in Hne. apply String.eqb_neq in Hne. now rewrite Hne.
  - destruct (k =? key)%string eqn:Hk; simpl.
    + apply String.eqb_eq in Hk. subst k.
      apply not_eq_sym in Hne. apply String.eqb_neq in Hne.
      now rewrite Hne.
    + now rewrite IH.
Qed.

Lemma digit_value_digit (d : Z) :
  0 <= d < 8 -> strconv.digit_value (strconv.byte (fmt.digit d)) = Some d.
Proof.
  intros H.
  assert (Hd : d = 0 \/ d = 1 \/ d = 2 \/ d = 3 \/ d = 4 \/ d = 5 \/ d = 6
               \/ d = 7) by lia.
  destruct Hd as [->|[->|[->|[->|[->|[->|[->| ->]]]]]]]; reflexivity.
Qed.

(** One step of the loop on an octal digit that fits. *)
Lemma ParseUint_loop_digit (d n maxVal : Z) (rest : string) :
  0 <= d < 8 -> 0 <= n -> n * 8 + d <= maxVal -> maxVal < 2 ^ 64 ->
  strconv.ParseUint_loop (String (fmt.digit d) rest) 8 (2 ^ 61) maxVal n
  = strconv.ParseUint_loop rest 8 (2 ^ 61) maxVal (n * 8 + d).
Proof.
  intros Hd Hn Hfit Hmax.
  pose proof (eq_refl : 2 ^ 64 = 18446744073709551616) as H64.
  pose proof (eq_refl : 2 ^ 61 = 2305843009213693952) as H61.
  cbn [strconv.ParseUint_loop]. rewrite digit_value_digit by exact Hd.
  assert (H1 : (d >=? 8) = false) by (rewrite Z.geb_leb; apply Z.leb_gt; lia).
  assert (H2 : (n >=? 2 ^ 61) = false)
    by (rewrite Z.geb_leb; apply Z.leb_gt; lia).
  rewrite H1, H2. cbv zeta.
  rewrite (uint64_small (n * 8)) by lia.
  rewrite (uint64_small (n * 8 + d)) by lia.
  assert (H3 : (n * 8 + d <? n * 8) = false) by (apply Z.ltb_ge; lia).
  assert (H4 : (n * 8 + d >? maxVal) = false)
    by (rewrite Z.gtb_ltb; apply Z.ltb_ge; lia).
  rewrite H3, H4. reflexivity.
Qed.

(** Reading the octal digits of [u] from 0 arrives at [u]. *)
Lemma ParseUint_loop_octal (fuel : nat) :
  forall (u maxVal : Z) (acc : string),
    0 <= u < 8 ^ Z.of_nat fuel -> u <= maxVal -> maxVal < 2 ^ 64 ->
    strconv.ParseUint_loop (fmt.octal fuel u acc) 8 (2 ^ 61) maxVal 0
    = strconv.ParseUint_loop acc 8 (2 ^ 61) maxVal u.
Proof.
  induction fuel as [|k IH]; intros u maxVal acc Hu Hfit Hmax.
  - change (8 ^ Z.of_nat 0) with 1 in Hu.
    assert (u = 0) by lia. subst u. reflexivity.
  - cbn [fmt.octal]. destruct (u >=? 8) eqn:Hbig.
    + apply Z.geb_le in Hbig.
      rewrite Z.shiftr_div_pow2 by lia.
      change (Z.land u 7) with (Z.land u (Z.ones 3)).
      rewrite Z.land_ones by lia. change (2 ^ 3) with 8.
      pose proof (Z.div_mod u 8 ltac:(lia)) as Hdm.
      pose proof (Z.mod_pos_bound u 8 ltac:(lia)) as Hm.
      assert (Hq : 0 <= u / 8 < 8 ^ Z.of_nat k).
      { split; [apply Z.div_pos; lia|].
        apply Z.div_lt_upper_bound; [lia|].
        rewrite Nat2Z.inj_succ, Z.pow_succ_r in Hu by lia. lia. }
      rewrite IH by (try exact Hq; lia).
      rewrite ParseUint_loop_digit by lia.
      f_equal. lia.
    + rewrite Z.geb_leb in Hbig. apply Z.leb_gt in Hbig.
      rewrite ParseUint_loop_digit by lia. reflexivity.
Qed.

Lemma ParseUint_loop_nonneg (s : string) :
  forall base cutoff maxVal n,
    0 <= n -> 0 <= maxVal ->
    0 <= fst (strconv.ParseUint_loop s base cutoff maxVal n).
Proof.
  induction s as [|c s IH]; intros base cutoff maxVal n Hn Hmax;
    [exact Hn|].
  cbn [strconv.ParseUint_loop].
  destruct (strconv.digit_value (strconv.byte c)) as [d|]; [|simpl; lia].
  destruct (d >=? base); [simpl; lia|].
  destruct (n >=? cutoff); [exact Hmax|]. cbv zeta.
  destruct ((uint64 (uint64 (n * base) + d) <? uint64 (n * base))
            || (uint64 (uint64 (n * base) + d) >? maxVal)); [exact Hmax|].
  apply IH; [|exact Hmax].
  unfold uint64. apply Z.mod_pos_bound. reflexivity.
Qed.

(** A successful parse with bit size 32 is within [int32]. *)
Lemma ParseInt_32_range (s : string) (base v : Z) :
  strconv.ParseInt s base 32 = (v, None) -> - 2 ^ 31 <= v < 2 ^ 31.
Proof.
  pose proof (eq_refl : 2 ^ 31 = 2147483648) as H31.
  pose proof (eq_refl : 2 ^ 63 = 9223372036854775808) as H63.
  pose proof (eq_refl : 2 ^ 64 = 18446744073709551616) as H64.
  unfold strconv.ParseInt. destruct s as [|c0 r]; [discriminate|].
  set (s' := if (c0 =? "+")%char || (c0 =? "-")%char then r
             else String c0 r).
  destruct (strconv.ParseUint s' base 32) as [un err] eqn:Hun.
  assert (Hnn : 0 <= un).
  { unfold strconv.ParseUint in Hun.
    destruct (s' =? "")%string; [injection Hun as <- _; lia|].
    replace un with (fst (strconv.ParseUint_loop s' base
                            ((2 ^ 64 - 1) / base + 1)
                            (uint64 (uint64 (2 ^ 32) - 1)) 0))
      by (rewrite Hun; reflexivity).
    apply ParseUint_loop_nonneg; [lia|]. vm_compute. discriminate. }
  change (uint64 (2 ^ (32 - 1))) with 2147483648.
  assert (Hbody :
    (if negb (c0 =? "-")%char && (un >=? 2147483648)
     then (int64 (2147483648 - 1), Some strconv.ErrRange)
     else if (c0 =? "-")%char && (un >? 2147483648)
          then (int64 (- int64 2147483648), Some strconv.ErrRange)
          else (if (c0 =? "-")%char then int64 (- int64 un) else int64 un,
                None))
    = (v, None) -> - 2 ^ 31 <= v < 2 ^ 31).
  { destruct (c0 =? "-")%char; cbn [negb andb].
    - destruct (un >? 2147483648) eqn:Hc; [discriminate|].
      rewrite Z.gtb_ltb in Hc. apply Z.ltb_ge in Hc.
      intros H. injection H as <-.
      rewrite (int64_small un) by lia. rewrite int64_small by lia. lia.
    - destruct (un >=? 2147483648) eqn:Hc; [discriminate|].
      rewrite Z.geb_leb in Hc. apply Z.leb_gt in Hc.
      intros H. injection H as <-. rewrite int64_small by lia. lia. }
  destruct err as [[|]|]; [discriminate|exact Hbody|exact Hbody].
Qed.

(** Read in base 8, the text [%o] makes of a number below [2^31],
    with a zero in front, is that number. *)
Lemma ParseInt_Sprintf_0o (v : Z) :
  0 <= v < 2 ^ 31 -> strconv.ParseInt (fmt.Sprintf_0o v) 8 32 = (v, None).
Proof.
  intros Hv.
  pose proof (eq_refl : 2 ^ 31 = 2147483648) as H31.
  pose proof (eq_refl : 2 ^ 63 = 9223372036854775808) as H63.
  unfold fmt.Sprintf_0o.
  assert (Hpos : (v <? 0) = false) by (apply Z.ltb_ge; lia).
  rewrite Hpos. cbv zeta.
  change ("0" ++ fmt.octal 22 v "")%string
    with (String (fmt.digit 0) (fmt.octal 22 v "")).
  unfold strconv.ParseInt.
  change ((fmt.digit 0 =? "-")%char) with false.
  change ((fmt.digit 0 =? "+")%char) with false.
  cbn [orb negb andb].
  unfold strconv.ParseUint.
  change (String (fmt.digit 0) (fmt.octal 22 v "") =? "")%string with false.
  cbv zeta.
  change ((2 ^ 64 - 1) / 8 + 1) with (2 ^ 61).
  change (uint64 (uint64 (2 ^ 32) - 1)) with 4294967295.
  rewrite ParseUint_loop_digit by (try reflexivity; lia).
  change (0 * 8 + 0) with 0.
  rewrite ParseUint_loop_octal.
  - cbn [strconv.ParseUint_loop].
    change (uint64 (2 ^ (32 - 1))) with 2147483648.
    assert (Hc : (v >=? 2147483648) = false)
      by (rewrite Z.geb_leb; apply Z.leb_gt; lia).
    rewrite Hc. rewrite int64_small by lia. reflexivity.
  - change (8 ^ Z.of_nat 22) with 73786976294838206464. lia.
  - lia.
  - reflexivity.
Qed.

(** X25.  When the query has a permission that parses as a
    decimal [int32] [v >= 0], the inspector hands on a request whose
    permission is a zero followed by the octal digits of [v]: read in
    base 8 it is [v] again.  No other key of the query and nothing of
    the path changes, one request id is added to the header, and
    nothing is sent. *)
Theorem permission_goes_out_in_octal (E : Env)
  (p : http_Request -> http_Request * option error) (r : http_Request)
  (log : list Request) (v : Z) :
  strconv.ParseInt (Values_Get (URL_Query r) "permission") 10 32
  = (v, None) ->
  0 <= v ->
  exists r',
    LogRequest E p r log = (Done (p r'), log)
    /\ Values_Get (URL_Query r') "permission" = fmt.Sprintf_0o v
    /\ strconv.ParseInt (Values_Get (URL_Query r') "permission") 8 32
       = (v, None)
    /\ (forall k, k <> "permission" ->
                  Values_Get (URL_Query r') k = Values_Get (URL_Query r) k)
    /\ URL_Path r' = URL_Path r
    /\ exists id, Header r' = Header r ++ [(ADL1_REQUEST_ID, id)].
Proof.
  intros Hparse Hv.
  pose proof (ParseInt_32_range _ _ _ Hparse) as Hrange.
  assert (Hne : (Values_Get (URL_Query r) "permission" =? "")%string = false).
  { apply String.eqb_neq. intros Hempty. rewrite Hempty in Hparse.
    discriminate. }
  unfold LogRequest. rewrite Hne, Hparse. cbn [negb].
  eexists. split; [reflexivity|].
  cbn [URL_Query URL_Path Header with_query].
  rewrite Values_Get_Set_same.
  split; [reflexivity|]. split; [apply ParseInt_Sprintf_0o; lia|].
  split; [intros k Hk; now apply Values_Get_Set_other|].
  split; [reflexivity|]. eexists. reflexivity.
Qed.

Lemma permission_goes_out_in_octal_witness :
  exists r',
    LogRequest (example_env [] not_found_listing always_ok)
      (fun r => (r, None))
      (mkHttpRequest "f" [("op", "CREATE"); ("permission", "420")] []) []
    = (Done (r', None), [])
    /\ Values_Get (URL_Query r') "permission" = "0644".
Proof.
  destruct (permission_goes_out_in_octal
              (example_env [] not_found_listing always_ok)
              (fun r => (r, None))
              (mkHttpRequest "f" [("op", "CREATE"); ("permission", "420")] [])
              [] 420 eq_refl ltac:(lia))
    as (r' & Hrun & Hperm & _).
  exists r'. split; [exact Hrun|]. rewrite Hperm. reflexivity.
Defined.
